(** * Redaction recovery: overlap matching, scan verdict and line rebuilding

    A shallow embedding of the pure logic of
      - find_improper_redactions.py      (module [FindImproper])
      - test_box_text_overlap.py         (module [TestBox])
      - detect_and_recover_redactions.py (module [Detect])
      - redact_extract_optimized.py      (modules [Extract], [Generic],
                                          [Doubles] and [Pages])
      - random_sample_test.py            (module [RandomSample])
      - detect_selectable_redactions.py  (module [Selectable])
    together with the batch, report and highlight part of
    detect_and_recover_redactions.py (module [Scan]), followed by the
    properties established about it.

    Numbers.  Page coordinates, colour channels, thresholds and font sizes
    are Python floats in the source; they are idealised here as exact
    rationals [Q], compared with [Qle_bool] and friends.  Where the result
    of the code depends on rounding, as the running average of line
    clustering does, the code is also embedded with the arithmetic left
    open ([Generic]) and what is stated of it uses no law of arithmetic;
    [Doubles] instantiates it at binary64.

    Collaborators.  PyMuPDF and pdfplumber are not embedded: a PDF file is
    represented by what those libraries hand back for it, and each call that
    can throw returns an [outcome]. *)

From Stdlib Require Import QArith Qabs Qround Qminmax ZArith List String Ascii Bool.
From Stdlib Require Import Lia Lqa Arith Permutation Sorted.
From Stdlib Require Import Floats.
Import ListNotations.

Set Implicit Arguments.

Local Open Scope Q_scope.

(* ===================================================================== *)
(** ** Python numerics                                                    *)
(* ===================================================================== *)

(** [a < b] as a boolean. *)
Definition Qltb (a b : Q) : bool := negb (Qle_bool b a).

(** The builtin [max(a, b)]: the first argument is kept unless the second
    is strictly greater. *)
Definition py_max (a b : Q) : Q := if Qltb a b then b else a.

(** The builtin [min(a, b)]: the first argument is kept unless the second
    is strictly smaller. *)
Definition py_min (a b : Q) : Q := if Qltb b a then b else a.

(** The builtin [round(x)] without [ndigits]: nearest integer, ties going
    to the even neighbour. *)
Definition py_round (x : Q) : Z :=
  let f := Qfloor x in
  let d := x - inject_Z f in
  if Qltb d (1 # 2) then f
  else if Qltb (1 # 2) d then (f + 1)%Z
  else if Z.even f then f else (f + 1)%Z.

(** [" " * n]: the empty string when [n <= 0]. *)
Fixpoint repeat_string (s : string) (n : nat) : string :=
  match n with
  | O => EmptyString
  | S k => (s ++ repeat_string s k)%string
  end.

Definition str_mul (s : string) (n : Z) : string := repeat_string s (Z.to_nat n).

(** ["".join(parts)]. *)
Definition join (parts : list string) : string := String.concat "" parts.

(** [sorted(l, key=...)] is a stable sort; [lt] is [<] on the keys.  The
    head is inserted in front of the first element that is not strictly
    smaller, so elements with equal keys keep their input order. *)
Section Sorted.
Variable A : Type.
Variable lt : A -> A -> bool.

Fixpoint insert_sorted (x : A) (l : list A) : list A :=
  match l with
  | [] => [x]
  | y :: l' => if lt y x then y :: insert_sorted x l' else x :: y :: l'
  end.

Fixpoint sorted (l : list A) : list A :=
  match l with
  | [] => []
  | x :: l' => insert_sorted x (sorted l')
  end.
End Sorted.

(** Failure of a call into a collaborator (or of the code itself): either
    the call returns a value or an exception with message [e] escapes. *)
Inductive outcome (A : Type) : Type :=
| Ok (a : A)
| Raised (e : string).
Arguments Ok {A} a.
Arguments Raised {A} e.

(* ===================================================================== *)
(** ** Rectangles                                                         *)
(* ===================================================================== *)

(** A bounding box [(x0, y0, x1, y1)], [y] growing downwards. *)
Record bbox : Type := mkBBox { bx0 : Q; by0 : Q; bx1 : Q; by1 : Q }.

(** A redaction box as built by [get_black_boxes]:
    [{'page', 'x0', 'y0', 'x1', 'y1'}]. *)
Record box : Type := mkBox { box_page : nat; box_rect :> bbox }.

(** A character record as built by [get_text_positions]:
    [{'page', 'text', 'x0', 'y0', 'x1', 'y1'}]. *)
Record glyph : Type := mkGlyph { ch_page : nat; ch_text : string; ch_rect :> bbox }.

(* ===================================================================== *)
(** ** What the PDF libraries return                                      *)
(* ===================================================================== *)

(** One entry of [page.get_drawings()]; every key is read with [.get]. *)
Record drawing : Type := mkDrawing {
  d_type : option string;          (* 'f', 's', 'fs' *)
  d_rect : option bbox;            (* fitz.Rect *)
  d_fill : option (list Q)         (* colour tuple *)
}.

(** One entry of [page.get_text("dict")["blocks"]]. *)
Record block : Type := mkBlock {
  b_type : option Z;               (* 0 text, 1 image *)
  b_bbox : option bbox
}.

(** A PyMuPDF page. *)
Record fitz_page : Type := mkFitzPage {
  get_drawings : outcome (list drawing);
  get_text_blocks : outcome (list block)
}.

(** One entry of pdfplumber's [page.chars]. *)
Record pchar : Type := mkPChar {
  c_text : option string;
  c_x0 : option Q;
  c_top : option Q;
  c_x1 : option Q;
  c_bottom : option Q
}.

(** One entry of pdfplumber's [page.extract_words(..., extra_attrs=["size",
    "fontname"])]; every key is read with [.get]. *)
Record word : Type := mkWord {
  w_text : option string;
  w_x0 : option Q;
  w_x1 : option Q;
  w_top : option Q;
  w_bottom : option Q;
  w_size : option Q
}.

(** A pdfplumber page. *)
Record plumber_page : Type := mkPlumberPage {
  chars : outcome (list pchar);
  extract_words : outcome (list word)
}.

(** A file on disk, seen through [fitz.open] and [pdfplumber.open]. *)
Record pdf : Type := mkPdf {
  fitz_open : outcome (list fitz_page);
  plumber_open : outcome (list plumber_page)
}.

(** [d.get(key, default)]. *)
Definition get {A : Type} (field : option A) (default : A) : A :=
  match field with Some v => v | None => default end.

(** Truth value of a [fitz.Rect]: false only when all four coordinates
    are zero. *)
Definition rect_truthy (r : bbox) : bool :=
  negb (Qeq_bool (bx0 r) 0 && Qeq_bool (by0 r) 0 && Qeq_bool (bx1 r) 0 && Qeq_bool (by1 r) 0).

(** [color and rect and isinstance(color, (list, tuple)) and len(color) >= 3],
    then the darkness test on the first three channels. *)
Definition dark_fill (color : option (list Q)) (threshold : Q) : bool :=
  match color with
  | Some (r :: g :: b :: _) =>
      Qle_bool r threshold && Qle_bool g threshold && Qle_bool b threshold
  | _ => false
  end.

Definition rect_present (rect : option bbox) : bool :=
  match rect with Some r => rect_truthy r | None => false end.

(* ===================================================================== *)
(** ** find_improper_redactions.py                                        *)
(* ===================================================================== *)

Module FindImproper.

(** The body of the [for drawing in drawings] loop. *)
Definition box_of_drawing (page_num : nat) (d : drawing) : list box :=
  if rect_present (d_rect d) && dark_fill (d_fill d) (2 # 10) then
    match d_rect d with
    | Some rect => [mkBox page_num (mkBBox (bx0 rect) (by0 rect) (bx1 rect) (by1 rect))]
    | None => []
    end
  else [].

(** The [for page_num, page in enumerate(doc)] loop inside [try]; the
    list built so far survives an exception. *)
Fixpoint black_boxes_loop (page_num : nat) (pages : list fitz_page) (boxes : list box)
  : outcome unit * list box :=
  match pages with
  | [] => (Ok tt, boxes)
  | page :: rest =>
      match get_drawings page with
      | Raised e => (Raised e, boxes)
      | Ok drawings =>
          black_boxes_loop (S page_num) rest
            (boxes ++ flat_map (box_of_drawing page_num) drawings)
      end
  end.

(** [get_black_boxes]: [try: ... except: pass], then [return boxes]. *)
Definition get_black_boxes (f : pdf) : outcome (list box) :=
  match fitz_open f with
  | Raised _ => Ok []
  | Ok doc => Ok (snd (black_boxes_loop 0 doc []))
  end.

Definition char_record (page_num : nat) (char : pchar) : glyph :=
  mkGlyph page_num (get (c_text char) ""%string)
    (mkBBox (get (c_x0 char) 0) (get (c_top char) 0)
            (get (c_x1 char) 0) (get (c_bottom char) 0)).

(** The page loop of [get_text_positions], inside [try]. *)
Fixpoint text_positions_loop (page_num : nat) (pages : list plumber_page) (acc : list glyph)
  : outcome unit * list glyph :=
  match pages with
  | [] => (Ok tt, acc)
  | page :: rest =>
      match chars page with
      | Raised e => (Raised e, acc)
      | Ok cs => text_positions_loop (S page_num) rest (acc ++ map (char_record page_num) cs)
      end
  end.

(** [get_text_positions]: [try: ... except: pass], then [return chars]. *)
Definition get_text_positions (f : pdf) : outcome (list glyph) :=
  match plumber_open f with
  | Raised _ => Ok []
  | Ok pages => Ok (snd (text_positions_loop 0 pages []))
  end.

Definition default_threshold : Q := 3 # 10.

(** [boxes_overlap(box1, box2, threshold=0.3)]. *)
Definition boxes_overlap (box1 box2 : bbox) (threshold : Q) : bool :=
  let x0_i := py_max (bx0 box1) (bx0 box2) in
  let y0_i := py_max (by0 box1) (by0 box2) in
  let x1_i := py_min (bx1 box1) (bx1 box2) in
  let y1_i := py_min (by1 box1) (by1 box2) in
  if Qle_bool x1_i x0_i || Qle_bool y1_i y0_i then false
  else
    let intersection := (x1_i - x0_i) * (y1_i - y0_i) in
    let char_area := (bx1 box2 - bx0 box2) * (by1 box2 - by0 box2) in
    if Qltb 0 char_area then Qle_bool threshold (intersection / char_area) else false.

(** One element of [recoverable_text]. *)
Record area : Type := mkArea { a_page : nat; a_text : string; a_char_count : nat }.

(** [page_chars] and [box_chars] of the loop in [test_pdf]. *)
Definition page_chars (b : box) (text_chars : list glyph) : list glyph :=
  filter (fun c => Nat.eqb (ch_page c) (box_page b)) text_chars.

Definition box_chars (b : box) (text_chars : list glyph) : list glyph :=
  filter (fun c : glyph => boxes_overlap b c default_threshold) (page_chars b text_chars).

(** [''.join([c['text'] for c in box_chars])]. *)
Definition recovered_text (b : box) (text_chars : list glyph) : string :=
  join (map ch_text (box_chars b text_chars)).

(** The body of [for box in black_boxes]. *)
Definition area_of_box (text_chars : list glyph) (b : box) : list area :=
  match box_chars b text_chars with
  | [] => []
  | bc => [mkArea (box_page b) (recovered_text b text_chars) (List.length bc)]
  end.

Record report : Type := mkReport {
  black_boxes : nat;
  recoverable_areas : nat;
  total_chars : nat;
  sample_text : list area
}.

(** [test_pdf]; [None] is Python's [None]. *)
Definition test_pdf (f : pdf) : outcome (option report) :=
  match get_black_boxes f with
  | Raised e => Raised e
  | Ok boxes =>
      match boxes with
      | [] => Ok None
      | _ =>
          match get_text_positions f with
          | Raised e => Raised e
          | Ok text_chars =>
              match text_chars with
              | [] => Ok None
              | _ =>
                  let recoverable_text := flat_map (area_of_box text_chars) boxes in
                  match recoverable_text with
                  | [] => Ok None
                  | _ =>
                      Ok (Some (mkReport (List.length boxes) (List.length recoverable_text)
                                  (list_sum (map a_char_count recoverable_text))
                                  (firstn 5 recoverable_text)))
                  end
              end
          end
      end
  end.

End FindImproper.

(* ===================================================================== *)
(** ** test_box_text_overlap.py                                           *)
(* ===================================================================== *)

Module TestBox.

(** [boxes_overlap(box1, box2, threshold=0.5)]. *)
Definition boxes_overlap (box1 box2 : bbox) (threshold : Q) : bool :=
  let x0_i := py_max (bx0 box1) (bx0 box2) in
  let y0_i := py_max (by0 box1) (by0 box2) in
  let x1_i := py_min (bx1 box1) (bx1 box2) in
  let y1_i := py_min (by1 box1) (by1 box2) in
  if Qle_bool x1_i x0_i || Qle_bool y1_i y0_i then false
  else
    let intersection_area := (x1_i - x0_i) * (y1_i - y0_i) in
    let char_area := (bx1 box2 - bx0 box2) * (by1 box2 - by0 box2) in
    if Qeq_bool char_area 0 then false
    else
      let overlap_ratio := intersection_area / char_area in
      Qle_bool threshold overlap_ratio.

(** [box_overlaps] of the loop in [test_redaction_overlap]: the
    same-page characters that pass [boxes_overlap(box, char, 0.3)]. *)
Definition box_overlaps (b : box) (text_chars : list glyph) : list glyph :=
  let page_chars := filter (fun c => Nat.eqb (ch_page c) (box_page b)) text_chars in
  filter (fun char : glyph => boxes_overlap b char (3 # 10)) page_chars.

(** The [text] printed for one overlap. *)
Definition hidden_text (b : box) (text_chars : list glyph) : string :=
  join (map ch_text (box_overlaps b text_chars)).

End TestBox.

(* ===================================================================== *)
(** ** detect_and_recover_redactions.py                                   *)
(* ===================================================================== *)

Module Detect.

Definition default_black_threshold : Q := 15 # 100.
Definition default_overlap_threshold : Q := 1 # 2.

(** The body of [for drawing in drawings]: a filled path (type ['f'])
    with a rect and a dark fill gives [(page_num, rect[0..3])]. *)
Definition box_of_drawing (black_threshold : Q) (page_num : nat) (d : drawing) : list box :=
  match d_type d with
  | Some "f"%string =>
      if rect_present (d_rect d) && dark_fill (d_fill d) black_threshold then
        match d_rect d with
        | Some rect => [mkBox page_num (mkBBox (bx0 rect) (by0 rect) (bx1 rect) (by1 rect))]
        | None => []
        end
      else []
  | _ => []
  end.

(** The body of [for item in page.get_text("dict")["blocks"]]: an image
    block (type 1) with a bbox gives [(page_num, bbox[0..3])]. *)
Definition box_of_block (page_num : nat) (item : block) : list box :=
  match b_type item with
  | Some 1%Z =>
      match b_bbox item with
      | Some bb => [mkBox page_num (mkBBox (bx0 bb) (by0 bb) (bx1 bb) (by1 bb))]
      | None => []
      end
  | _ => []
  end.

(** The page loop of [detect_black_rectangles], inside [try]: the
    drawings of a page are handled before its blocks are requested. *)
Fixpoint rectangles_loop (black_threshold : Q) (page_num : nat) (pages : list fitz_page)
         (redaction_boxes : list box) : outcome unit * list box :=
  match pages with
  | [] => (Ok tt, redaction_boxes)
  | page :: rest =>
      match get_drawings page with
      | Raised e => (Raised e, redaction_boxes)
      | Ok drawings =>
          let redaction_boxes :=
            redaction_boxes ++ flat_map (box_of_drawing black_threshold page_num) drawings in
          match get_text_blocks page with
          | Raised e => (Raised e, redaction_boxes)
          | Ok blocks =>
              rectangles_loop black_threshold (S page_num) rest
                (redaction_boxes ++ flat_map (box_of_block page_num) blocks)
          end
      end
  end.

(** [detect_black_rectangles]: [except Exception] prints and the list
    built so far is returned. *)
Definition detect_black_rectangles (f : pdf) (black_threshold : Q) : outcome (list box) :=
  match fitz_open f with
  | Raised _ => Ok []
  | Ok doc => Ok (snd (rectangles_loop black_threshold 0 doc []))
  end.

(** [rectangles_overlap(bbox1, bbox2, threshold=0.5)]. *)
Definition rectangles_overlap (bbox1 bbox2 : bbox) (threshold : Q) : bool :=
  let x0_i := py_max (bx0 bbox1) (bx0 bbox2) in
  let y0_i := py_max (by0 bbox1) (by0 bbox2) in
  let x1_i := py_min (bx1 bbox1) (bx1 bbox2) in
  let y1_i := py_min (by1 bbox1) (by1 bbox2) in
  if Qle_bool x1_i x0_i || Qle_bool y1_i y0_i then false
  else
    let intersection_area := (x1_i - x0_i) * (y1_i - y0_i) in
    let bbox1_area := (bx1 bbox1 - bx0 bbox1) * (by1 bbox1 - by0 bbox1) in
    if Qeq_bool bbox1_area 0 then false
    else
      let overlap_ratio := intersection_area / bbox1_area in
      Qle_bool threshold overlap_ratio.

Definition char_bbox (char : pchar) : bbox :=
  mkBBox (get (c_x0 char) 0) (get (c_top char) 0) (get (c_x1 char) 0) (get (c_bottom char) 0).

(** [for box in page_boxes: if rectangles_overlap(...): append; break]:
    what one character adds to [redacted_chars]. *)
Fixpoint scan_boxes (overlap_threshold : Q) (page_num : nat) (char : pchar)
         (page_boxes : list box) : list glyph :=
  match page_boxes with
  | [] => []
  | b :: rest =>
      let box_rect := mkBBox (bx0 b) (by0 b) (bx1 b) (by1 b) in
      if rectangles_overlap (char_bbox char) box_rect overlap_threshold
      then [mkGlyph page_num (get (c_text char) ""%string) (char_bbox char)]
      else scan_boxes overlap_threshold page_num char rest
  end.

(** The page loop of [check_text_under_boxes], inside [try]. *)
Fixpoint under_boxes_loop (redaction_boxes : list box) (overlap_threshold : Q)
         (page_num : nat) (pages : list plumber_page) (redacted_chars : list glyph)
  : outcome unit * list glyph :=
  match pages with
  | [] => (Ok tt, redacted_chars)
  | page :: rest =>
      match chars page with
      | Raised e => (Raised e, redacted_chars)
      | Ok cs =>
          let page_boxes := filter (fun b => Nat.eqb (box_page b) page_num) redaction_boxes in
          under_boxes_loop redaction_boxes overlap_threshold (S page_num) rest
            (redacted_chars ++ flat_map (fun char => scan_boxes overlap_threshold page_num char page_boxes) cs)
      end
  end.

Record text_check : Type := mkTextCheck {
  has_redacted_text : bool;
  redacted_text_count : nat;
  redacted_chars : list glyph
}.

(** [check_text_under_boxes]. *)
Definition check_text_under_boxes (f : pdf) (redaction_boxes : list box) (overlap_threshold : Q)
  : outcome text_check :=
  match redaction_boxes with
  | [] => Ok (mkTextCheck false 0 [])
  | _ =>
      let redacted_chars :=
        match plumber_open f with
        | Raised _ => []
        | Ok pages => snd (under_boxes_loop redaction_boxes overlap_threshold 0 pages [])
        end in
      Ok (mkTextCheck (Nat.ltb 0 (List.length redacted_chars))
                      (List.length redacted_chars) redacted_chars)
  end.

(** The dictionary returned by [analyze_pdf_for_redactions]; [path] and
    [filename] echo the argument and are left out. *)
Record analysis : Type := mkAnalysis {
  has_redaction_boxes : bool;
  has_recoverable_text : bool;
  redaction_box_count : nat;
  redacted_char_count : nat;
  should_process : bool;
  error : option string
}.

Definition initial_result : analysis := mkAnalysis false false 0 0 false None.

(** [analyze_pdf_for_redactions]: an exception leaves the fields set so
    far and fills [error]. *)
Definition analyze_pdf_for_redactions (f : pdf) : analysis :=
  match detect_black_rectangles f default_black_threshold with
  | Raised e => mkAnalysis false false 0 0 false (Some e)
  | Ok redaction_boxes =>
      let has_boxes := Nat.ltb 0 (List.length redaction_boxes) in
      let box_count := List.length redaction_boxes in
      if negb has_boxes then mkAnalysis has_boxes false box_count 0 false None
      else
        match check_text_under_boxes f redaction_boxes default_overlap_threshold with
        | Raised e => mkAnalysis has_boxes false box_count 0 false (Some e)
        | Ok tc =>
            mkAnalysis has_boxes (has_redacted_text tc) box_count (redacted_text_count tc)
                       (has_boxes && has_redacted_text tc) None
        end
  end.

End Detect.

(* ===================================================================== *)
(** ** redact_extract_optimized.py                                        *)
(* ===================================================================== *)

Module Extract.

Definition top_of (w : word) : Q := get (w_top w) 0.
Definition x0_of (w : word) : Q := get (w_x0 w) 0.
Definition x1_of (w : word) : Q := get (w_x1 w) (get (w_x0 w) 0).
Definition text_of (w : word) : string := get (w_text w) ""%string.

(** [<] on the sort key [(top, x0)]: tuples compare on the first
    component that differs. *)
Definition line_key_lt (w1 w2 : word) : bool :=
  if Qeq_bool (top_of w1) (top_of w2) then Qltb (x0_of w1) (x0_of w2)
  else Qltb (top_of w1) (top_of w2).

(** [<] on the sort key [x0] of [build_line_text]. *)
Definition x0_lt (w1 w2 : word) : bool := Qltb (x0_of w1) (x0_of w2).

(** The variables of the loop in [group_words_into_lines]. *)
Record grouping : Type := mkGrouping {
  lines : list (list word);
  current : list word;
  current_top : option Q
}.

(** One iteration of [for w in words].  [current_top] is an exact rational
    here; [Generic.group_step] is the same iteration with the arithmetic
    left open. *)
Definition group_step (line_tol : Q) (st : grouping) (w : word) : grouping :=
  let top := top_of w in
  match current_top st with
  | None => mkGrouping (lines st) [w] (Some top)
  | Some ct =>
      if Qle_bool (Qabs (top - ct)) line_tol then
        let current := current st ++ [w] in
        let n := List.length current in
        mkGrouping (lines st) current
          (Some ((ct * inject_Z (Z.of_nat (n - 1)) + top) / inject_Z (Z.of_nat n)))
      else
        mkGrouping (lines st ++ [current st]) [w] (Some top)
  end.

(** [group_words_into_lines(words, line_tol=2.0)]. *)
Definition group_words_into_lines (words : list word) (line_tol : Q) : list (list word) :=
  match words with
  | [] => []
  | _ =>
      let words := sorted line_key_lt words in
      let st := fold_left (group_step line_tol) words (mkGrouping [] [] None) in
      match current st with
      | [] => lines st
      | _ => lines st ++ [current st]
      end
  end.

(** [l[len(l) // 2]]; [None] stands for the IndexError on an empty list. *)
Definition middle (l : list Q) : option Q := nth_error l (Nat.div (List.length l) 2).

(** [sizes]: the [size] entries that are present. *)
Definition sizes_of (line_words : list word) : list Q :=
  flat_map (fun w => match w_size w with Some s => [s] | None => [] end) line_words.

(** [max(6.0, bottom - top)] with [bottom] defaulting to [top + 10.0]. *)
Definition height_of (w : word) : Q :=
  let top := top_of w in
  let bottom := get (w_bottom w) (top + 10) in
  py_max 6 (bottom - top).

(** The representative font size. *)
Definition font_size_of (line_words : list word) : Q :=
  match sizes_of line_words with
  | [] =>
      let hs := sorted Qltb (map height_of line_words) in
      match hs with
      | [] => 10
      | _ => get (middle hs) 10
      end
  | sizes => get (middle (sorted Qltb sizes)) 10
  end.

(** The variables of the loop over [line_words[1:]]. *)
Record spacing : Type := mkSpacing {
  parts : list string;
  prev_x1 : Q;
  last_x1 : Q
}.

(** The separator appended in front of a word, from [gap]. *)
Definition separator (space_unit_pts : Q) (min_spaces : Z) (gap : Q) : string :=
  if Qltb 0 gap then
    let n_spaces := py_round (gap / py_max (1 # 2) space_unit_pts) in
    let n_spaces := Z.max min_spaces n_spaces in
    str_mul " " n_spaces
  else
    if Qltb (- space_unit_pts * (3 # 10)) gap then " "%string else ""%string.

(** One iteration of [for w in line_words[1:]]. *)
Definition spacing_step (space_unit_pts : Q) (min_spaces : Z) (st : spacing) (w : word)
  : spacing :=
  let text := text_of w in
  let x0 := x0_of w in
  let x1 := get (w_x1 w) x0 in
  let gap := x0 - prev_x1 st in
  mkSpacing (parts st ++ [separator space_unit_pts min_spaces gap] ++ [text])
            (py_max (prev_x1 st) x1)
            (py_max (last_x1 st) x1).

(** The tuple [(text, x0, x1, top, font_size_est)]. *)
Record line_info : Type := mkLineInfo {
  li_text : string;
  li_x0 : Q;
  li_x1 : Q;
  li_top : Q;
  li_font_size : Q
}.

(** [build_line_text(line_words, space_unit_pts=3.0, min_spaces=1)];
    indexing an empty cluster raises. *)
Definition build_line_text (line_words : list word) (space_unit_pts : Q) (min_spaces : Z)
  : outcome line_info :=
  let line_words := sorted x0_lt line_words in
  let font_size := font_size_of line_words in
  match middle (sorted Qltb (map top_of line_words)), line_words with
  | Some top_med, first :: rest =>
      let st := fold_left (spacing_step space_unit_pts min_spaces) rest
                  (mkSpacing [text_of first] (x1_of first) (x1_of first)) in
      Ok (mkLineInfo (join (parts st)) (x0_of first) (last_x1 st) top_med font_size)
  | _, _ => Raised "list index out of range"
  end.

(** Whitespace as [str.strip()] sees it.  A character of a [string] stands
    for a code point below 256; of those, Python strips 9 to 13, 28 to 32,
    133 (next line) and 160 (no-break space). *)
Definition is_space (c : ascii) : bool :=
  let n := nat_of_ascii c in
  (Nat.leb 9 n && Nat.leb n 13) || (Nat.leb 28 n && Nat.leb n 32)
  || Nat.eqb n 133 || Nat.eqb n 160.

(** Truth value of [line_text.strip()]. *)
Definition strip_nonempty (s : string) : bool :=
  existsb (fun c => negb (is_space c)) (list_ascii_of_string s).

(** One element of [out]: [(line_text, x0, top, font_size)]. *)
Record line : Type := mkLine {
  l_text : string;
  l_x0 : Q;
  l_top : Q;
  l_font_size : Q
}.

(** The [for lw in lines] loop of [process_single_page]. *)
Fixpoint lines_loop (lws : list (list word)) (space_unit_pts : Q) (min_spaces : Z)
         (out : list line) : outcome (list line) :=
  match lws with
  | [] => Ok out
  | lw :: rest =>
      match build_line_text lw space_unit_pts min_spaces with
      | Raised e => Raised e
      | Ok li =>
          lines_loop rest space_unit_pts min_spaces
            (if strip_nonempty (li_text li)
             then out ++ [mkLine (li_text li) (li_x0 li) (li_top li) (li_font_size li)]
             else out)
      end
  end.

(** [process_single_page] from the extracted words on: clustering, then
    one rebuilt line per cluster. *)
Definition page_lines (words : list word) (line_tol space_unit_pts : Q) (min_spaces : Z)
  : outcome (list line) :=
  lines_loop (group_words_into_lines words line_tol) space_unit_pts min_spaces [].


End Extract.

(* ===================================================================== *)
(** ** redact_extract_optimized.py: line clustering in any arithmetic     *)
(* ===================================================================== *)

(** [group_words_into_lines] once more, with the numbers and their
    operations left open.  Nothing is assumed of [add], [sub], [mul],
    [div], [absolute] or of the comparisons, so that whatever is proved of
    these definitions holds of exact rationals and of IEEE doubles alike,
    rounding, infinities and NaN included.
    [Extract.group_words_into_lines] is the instance at [Q];
    [Doubles.group_words_into_lines] is the instance at binary64. *)
Module Generic.
Section Clustering.

(** The numbers, and the word records. *)
Variable num : Type.
Variable W : Type.

(** [float(w.get("top", 0.0))] and [float(w.get("x0", 0.0))]. *)
Variable top_of : W -> num.
Variable x0_of : W -> num.

(** [+], [-], [*], [/], [abs], [<=], [<] and [==] on numbers. *)
Variables add sub mul div : num -> num -> num.
Variable absolute : num -> num.
Variables leb ltb eqb : num -> num -> bool.

(** An [int] used in float arithmetic. *)
Variable of_nat : nat -> num.

(** [<] on the sort key [(top, x0)]. *)
Definition line_key_lt (w1 w2 : W) : bool :=
  if eqb (top_of w1) (top_of w2) then ltb (x0_of w1) (x0_of w2)
  else ltb (top_of w1) (top_of w2).

(** The variables of the loop. *)
Record grouping : Type := mkGrouping {
  lines : list (list W);
  current : list W;
  current_top : option num
}.

(** One iteration of [for w in words]. *)
Definition group_step (line_tol : num) (st : grouping) (w : W) : grouping :=
  let top := top_of w in
  match current_top st with
  | None => mkGrouping (lines st) [w] (Some top)
  | Some ct =>
      if leb (absolute (sub top ct)) line_tol then
        let current := current st ++ [w] in
        let n := List.length current in
        mkGrouping (lines st) current
          (Some (div (add (mul ct (of_nat (n - 1))) top) (of_nat n)))
      else
        mkGrouping (lines st ++ [current st]) [w] (Some top)
  end.

(** [group_words_into_lines(words, line_tol)]. *)
Definition group_words_into_lines (words : list W) (line_tol : num) : list (list W) :=
  match words with
  | [] => []
  | _ =>
      let words := sorted line_key_lt words in
      let st := fold_left (group_step line_tol) words (mkGrouping [] [] None) in
      match current st with
      | [] => lines st
      | _ => lines st ++ [current st]
      end
  end.

End Clustering.
End Generic.

(** The instance at binary64: a word is reduced to what the clustering
    reads of it, the pair [(top, x0)]. *)
Module Doubles.

(** [float(n)], exact for every length below 2^53. *)
Definition of_len (n : nat) : float := PrimFloat.of_uint63 (Uint63.of_nat n).

Definition group_words_into_lines (words : list (float * float)) (line_tol : float)
  : list (list (float * float)) :=
  Generic.group_words_into_lines
    fst snd PrimFloat.add PrimFloat.sub PrimFloat.mul PrimFloat.div PrimFloat.abs
    PrimFloat.leb PrimFloat.ltb PrimFloat.eqb of_len words line_tol.

End Doubles.

(* ===================================================================== *)
(** ** detect_and_recover_redactions.py: batch, report, highlights        *)
(* ===================================================================== *)

Module Scan.

(** [scan_directory_for_redactions] once the files are listed:
    [pool.imap] hands the verdicts back in the order of the files. *)
Definition scan_files (pdf_files : list pdf) : list Detect.analysis :=
  map Detect.analyze_pdf_for_redactions pdf_files.

(** [sum(1 for r in results if r[key])]. *)
Definition count_where (key : Detect.analysis -> bool) (results : list Detect.analysis) : nat :=
  list_sum (map (fun r => if key r then 1%nat else 0%nat) results).

(** The dictionary [save_analysis_report] writes. *)
Record report : Type := mkReport {
  total_files : nat;
  files_with_redaction_boxes : nat;
  files_with_recoverable_text : nat;
  files_to_process : nat;
  files : list Detect.analysis
}.

Definition save_analysis_report (results : list Detect.analysis) : report :=
  mkReport (List.length results)
           (count_where Detect.has_redaction_boxes results)
           (count_where Detect.has_recoverable_text results)
           (count_where Detect.should_process results)
           results.

(** [to_process] of [process_redacted_pdfs]. *)
Definition to_process (analysis_results : list Detect.analysis) : list Detect.analysis :=
  filter Detect.should_process analysis_results.

(** [boxes_by_page[page_num].append(box[1:])] on a dict kept in insertion
    order; a missing key is first bound to the empty list. *)
Fixpoint dict_append (page_num : nat) (coords : bbox) (d : list (nat * list bbox))
  : list (nat * list bbox) :=
  match d with
  | [] => [(page_num, [coords])]
  | (k, v) :: d' =>
      if Nat.eqb k page_num then (k, v ++ [coords]) :: d'
      else (k, v) :: dict_append page_num coords d'
  end.

(** The loop [for box in redaction_boxes] of [create_highlighted_output]. *)
Definition boxes_by_page (redaction_boxes : list box) : list (nat * list bbox) :=
  fold_left (fun d b => dict_append (box_page b) (box_rect b) d) redaction_boxes [].

(** [boxes_by_page[page_num]] when [page_num in boxes_by_page]. *)
Fixpoint dict_get (page_num : nat) (d : list (nat * list bbox)) : option (list bbox) :=
  match d with
  | [] => None
  | (k, v) :: d' => if Nat.eqb k page_num then Some v else dict_get page_num d'
  end.

(** The loop [for box_coords in boxes_by_page[page_num]].
    [add_highlight page_num rect] stands for the PyMuPDF calls made on one
    rect: [page.add_highlight_annot(rect)], then [set_colors],
    [set_opacity] and [update] on the annotation.  None of them is guarded,
    so the first failure leaves the function; PyMuPDF raises for instance
    on an empty rect.  The result lists the rects highlighted. *)
Fixpoint highlight_boxes (add_highlight : nat -> bbox -> outcome unit) (page_num : nat)
         (coords : list bbox) : outcome (list bbox) :=
  match coords with
  | [] => Ok []
  | box_coords :: rest =>
      match add_highlight page_num box_coords with
      | Raised e => Raised e
      | Ok _ =>
          match highlight_boxes add_highlight page_num rest with
          | Raised e => Raised e
          | Ok highlighted => Ok (box_coords :: highlighted)
          end
      end
  end.

(** The loop [for page_num, page in enumerate(doc)]: a page with no entry
    in [boxes_by_page] gets no highlight. *)
Fixpoint highlight_pages (add_highlight : nat -> bbox -> outcome unit)
         (by_page : list (nat * list bbox)) (page_nums : list nat)
  : outcome (list (list bbox)) :=
  match page_nums with
  | [] => Ok []
  | page_num :: rest =>
      match highlight_boxes add_highlight page_num
              (match dict_get page_num by_page with
               | Some coords => coords
               | None => []
               end) with
      | Raised e => Raised e
      | Ok highlighted =>
          match highlight_pages add_highlight by_page rest with
          | Raised e => Raised e
          | Ok more => Ok (highlighted :: more)
          end
      end
  end.

(** [create_highlighted_output]: the rects highlighted on each page of the
    document, page by page, once [doc.save(output_path)] (here [save]) has
    written them.  Opening the file, drawing a highlight and saving are not
    guarded: whatever they raise reaches the caller and no output is
    produced. *)
Definition create_highlighted_output (add_highlight : nat -> bbox -> outcome unit)
           (save : outcome unit) (f : pdf) (redaction_boxes : list box)
  : outcome (list (list bbox)) :=
  match fitz_open f with
  | Raised e => Raised e
  | Ok doc =>
      let by_page := boxes_by_page redaction_boxes in
      match highlight_pages add_highlight by_page (seq 0 (List.length doc)) with
      | Raised e => Raised e
      | Ok highlighted =>
          match save with
          | Raised e => Raised e
          | Ok _ => Ok highlighted
          end
      end
  end.

End Scan.

(* ===================================================================== *)
(** ** random_sample_test.py                                              *)
(* ===================================================================== *)

Module RandomSample.

(** [get_page_count]: [None] when the file cannot be opened. *)
Definition get_page_count (f : pdf) : option nat :=
  match fitz_open f with
  | Ok doc => Some (List.length doc)
  | Raised _ => None
  end.

(** The dictionary returned by [test_pdf_quick]; [path] and [filename]
    echo the argument and are left out. *)
Record quick : Type := mkQuick {
  pages : option nat;
  black_boxes : nat;
  boxes_with_text : nat;
  recoverable_chars : nat;
  has_improper_redactions : bool;
  error : option string
}.

(** The body of [for box in black_boxes]: what is appended to [overlaps]. *)
Definition overlap_of_box (text_chars : list glyph) (b : box) : list nat :=
  match FindImproper.box_chars b text_chars with
  | [] => []
  | bc => [List.length bc]
  end.

(** [test_pdf_quick]; its [get_black_boxes], [get_text_positions] and
    [boxes_overlap] are the ones of find_improper_redactions.py word for
    word. *)
Definition test_pdf_quick (f : pdf) : quick :=
  let pages := get_page_count f in
  match FindImproper.get_black_boxes f with
  | Raised e => mkQuick pages 0 0 0 false (Some e)
  | Ok boxes =>
      match boxes with
      | [] => mkQuick pages (List.length boxes) 0 0 false None
      | _ =>
          match FindImproper.get_text_positions f with
          | Raised e => mkQuick pages (List.length boxes) 0 0 false (Some e)
          | Ok text_chars =>
              match text_chars with
              | [] => mkQuick pages (List.length boxes) 0 0 false None
              | _ =>
                  let overlaps := flat_map (overlap_of_box text_chars) boxes in
                  mkQuick pages (List.length boxes) (List.length overlaps)
                          (list_sum overlaps) (Nat.ltb 0 (List.length overlaps)) None
              end
          end
      end
  end.

End RandomSample.

(* ===================================================================== *)
(** ** redact_extract_optimized.py: all the pages of a file               *)
(* ===================================================================== *)

Module Pages.

(** [l[i] = v]; [None] stands for the IndexError out of range. *)
Fixpoint list_set {A : Type} (l : list A) (i : nat) (v : A) : option (list A) :=
  match l, i with
  | [], _ => None
  | _ :: l', O => Some (v :: l')
  | x :: l', S i' =>
      match list_set l' i' v with
      | Some l'' => Some (x :: l'')
      | None => None
      end
  end.

(** The loop [for page_num, lines, rect in results] that fills
    [pages_lines]. *)
Fixpoint reassemble (results : list (nat * list Extract.line))
         (pages_lines : list (option (list Extract.line)))
  : outcome (list (option (list Extract.line))) :=
  match results with
  | [] => Ok pages_lines
  | (page_num, lines) :: rest =>
      match list_set pages_lines page_num (Some lines) with
      | Some pages_lines' => reassemble rest pages_lines'
      | None => Raised "list assignment index out of range"
      end
  end.



End Pages.

(* ===================================================================== *)
(** ** detect_selectable_redactions.py                                    *)
(* ===================================================================== *)

Module Selectable.

(** The dictionary returned by [test_text_selectability]; [path] and
    [filename] echo the argument and are left out. *)
Record selectability : Type := mkSelectability {
  total_chars : nat;
  has_text_layer : bool;
  has_black_elements : bool;
  text_sample : string;
  should_process : bool;
  error : option string
}.

(** The loop over [pdf.pages] of method 1; a page is what
    [page.extract_text()] does on it: it returns a string or [None], or
    raises. *)
Fixpoint text_loop (pages : list (outcome (option string))) (all_text : string)
  : outcome string :=
  match pages with
  | [] => Ok all_text
  | page :: rest =>
      match page with
      | Raised e => Raised e
      | Ok (Some (String c t)) => text_loop rest (all_text ++ String c t)
      | Ok _ => text_loop rest all_text
      end
  end.

(** The loop over the pages of method 2: it stops at the first page that
    has a drawing with a dark fill. *)
Fixpoint black_loop (doc : list fitz_page) : outcome bool :=
  match doc with
  | [] => Ok false
  | page :: rest =>
      match get_drawings page with
      | Raised e => Raised e
      | Ok drawings =>
          if existsb (fun d => dark_fill (d_fill d) (2 # 10)) drawings
          then Ok true
          else black_loop rest
      end
  end.

(** [test_text_selectability]; [texts] is the file as pdfplumber's
    [extract_text] sees it, [f] the file as PyMuPDF sees it.  An exception
    leaves the fields set so far and fills [error]. *)
Definition test_text_selectability
           (texts : outcome (list (outcome (option string)))) (f : pdf) : selectability :=
  match texts with
  | Raised e => mkSelectability 0 false false "" false (Some e)
  | Ok pages =>
      match text_loop pages "" with
      | Raised e => mkSelectability 0 false false "" false (Some e)
      | Ok all_text =>
          let n := String.length all_text in
          let sample := substring 0 200 all_text in
          match fitz_open f with
          | Raised e => mkSelectability n (Nat.ltb 0 n) false sample false (Some e)
          | Ok doc =>
              match black_loop doc with
              | Raised e => mkSelectability n (Nat.ltb 0 n) false sample false (Some e)
              | Ok has_black =>
                  mkSelectability n (Nat.ltb 0 n) has_black sample
                                  (Nat.ltb 0 n && has_black) None
              end
          end
      end
  end.

End Selectable.

(* ===================================================================== *)
(** ** The specification's vocabulary                                     *)
(* ===================================================================== *)

(** These definitions follow the wording of the specification, not the
    code; the theorems below compare the two. *)

(** Area of a rectangle. *)
Definition area (r : bbox) : Q := (bx1 r - bx0 r) * (by1 r - by0 r).

(** Length of the common part of the intervals [lo1, hi1] and [lo2, hi2]. *)
Definition common_length (lo1 hi1 lo2 hi2 : Q) : Q :=
  Qmax 0 (Qmin hi1 hi2 - Qmax lo1 lo2).

(** Area of the intersection of two rectangles. *)
Definition intersection_area (a b : bbox) : Q :=
  common_length (bx0 a) (bx1 a) (bx0 b) (bx1 b) *
  common_length (by0 a) (by1 a) (by0 b) (by1 b).

(** [overlapRatio(a, b)]: intersection area divided by [area(b)], and 0
    when [area(b) == 0]. *)
Definition overlapRatio (a b : bbox) : Q :=
  if Qeq_bool (area b) 0 then 0 else intersection_area a b / area b.

(** Two rectangles are disjoint when one lies entirely to one side of the
    other (sharing at most an edge). *)
Definition disjoint (a b : bbox) : Prop :=
  bx1 a <= bx0 b \/ bx1 b <= bx0 a \/ by1 a <= by0 b \/ by1 b <= by0 a.

(** The PageRect invariant. *)
Definition well_formed (r : bbox) : Prop := bx0 r <= bx1 r /\ by0 r <= by1 r.

(** [inner] lies inside [outer]. *)
Definition contained (inner outer : bbox) : Prop :=
  bx0 outer <= bx0 inner /\ bx1 inner <= bx1 outer /\
  by0 outer <= by0 inner /\ by1 inner <= by1 outer.

(** The pdfplumber pages of a file; none when the file cannot be opened. *)
Definition plumber_pages (f : pdf) : list plumber_page :=
  match plumber_open f with Ok pages => pages | Raised _ => [] end.

(** The characters of a page; none when the page cannot be read. *)
Definition glyphs_on (page : plumber_page) : list pchar :=
  match chars page with Ok cs => cs | Raised _ => [] end.

(** Per-page isolation as the specification words it: an unreadable page
    contributes an empty glyph list, every other page its glyphs. *)
Fixpoint isolated_glyphs (page_num : nat) (pages : list plumber_page) : list glyph :=
  match pages with
  | [] => []
  | page :: rest =>
      map (FindImproper.char_record page_num) (glyphs_on page)
        ++ isolated_glyphs (S page_num) rest
  end.

(** Per-page isolation of the matcher: every readable page is matched
    against the boxes of its own page number. *)
Fixpoint isolated_matches (redaction_boxes : list box) (overlap_threshold : Q)
         (page_num : nat) (pages : list plumber_page) : list glyph :=
  match pages with
  | [] => []
  | page :: rest =>
      flat_map (fun char =>
                  Detect.scan_boxes overlap_threshold page_num char
                    (filter (fun b => Nat.eqb (box_page b) page_num) redaction_boxes))
               (glyphs_on page)
        ++ isolated_matches redaction_boxes overlap_threshold (S page_num) rest
  end.

(** The pages in front of the first unreadable one. *)
Fixpoint readable_prefix (pages : list plumber_page) : list plumber_page :=
  match pages with
  | [] => []
  | page :: rest =>
      match chars page with
      | Ok _ => page :: readable_prefix rest
      | Raised _ => []
      end
  end.

(** Number of glyphs in the document. *)
Definition total_glyphs (f : pdf) : nat :=
  List.length (isolated_glyphs 0 (plumber_pages f)).

(** A PyMuPDF page whose drawings and blocks can both be read. *)
Definition fitz_readable (page : fitz_page) : Prop :=
  exists drawings blocks,
    get_drawings page = Ok drawings /\ get_text_blocks page = Ok blocks.

(** Sum and mean of the [top] values of a cluster. *)
Definition sum_tops (cluster : list word) : Q :=
  fold_right (fun w acc => Extract.top_of w + acc) 0 cluster.

Definition mean_top (cluster : list word) : Q :=
  sum_tops cluster / inject_Z (Z.of_nat (List.length cluster)).

(** Line clustering as the specification words it, in any arithmetic:
    the words are walked in sorted order with a running cluster and the
    running average of its tops.  A word joins the cluster when its top is
    within [line_tol] of the running average, which is then updated to
    include it; otherwise the cluster is closed and a new one is opened
    with that word. *)
Module Walk.
Section RunningAverage.

Variable num : Type.
Variable W : Type.
Variable top_of : W -> num.
Variables add sub mul div : num -> num -> num.
Variable absolute : num -> num.
Variable leb : num -> num -> bool.
Variable of_nat : nat -> num.

(** The running average once an [n]-th value [top] is included, [avg]
    being the running average of the [n - 1] values before it. *)
Definition include (avg : num) (n : nat) (top : num) : num :=
  div (add (mul avg (of_nat (n - 1))) top) (of_nat n).

(** The running average of the tops of a cluster, in the order of its
    words: the top of the first word, then one update for each further
    word.  An empty cluster has none; [of_nat 0] stands for it. *)
Definition running_average (cluster : list W) : num :=
  match cluster with
  | [] => of_nat 0
  | w :: rest =>
      fst (fold_left (fun (st : num * nat) (x : W) =>
                        (include (fst st) (S (snd st)) (top_of x), S (snd st)))
                     rest (top_of w, 1%nat))
  end.

(** The walk over the words that follow a cluster already open. *)
Fixpoint cluster_walk (line_tol : num) (cluster : list W) (ws : list W) : list (list W) :=
  match ws with
  | [] => [cluster]
  | w :: rest =>
      if leb (absolute (sub (top_of w) (running_average cluster))) line_tol
      then cluster_walk line_tol (cluster ++ [w]) rest
      else cluster :: cluster_walk line_tol [w] rest
  end.

(** The clusters of words already in sorted order. *)
Definition line_clustering (sorted_words : list W) (line_tol : num) : list (list W) :=
  match sorted_words with
  | [] => []
  | w :: rest => cluster_walk line_tol [w] rest
  end.

End RunningAverage.
End Walk.

(** The same over exact rationals, for the words of a page. *)
Definition running_average (cluster : list word) : Q :=
  Walk.running_average Extract.top_of Qplus Qmult Qdiv
    (fun n => inject_Z (Z.of_nat n)) cluster.

Definition cluster_walk (line_tol : Q) (cluster : list word) (ws : list word)
  : list (list word) :=
  Walk.cluster_walk Extract.top_of Qplus Qminus Qmult Qdiv Qabs Qle_bool
    (fun n => inject_Z (Z.of_nat n)) line_tol cluster ws.

Definition line_clustering (sorted_words : list word) (line_tol : Q) : list (list word) :=
  Walk.line_clustering Extract.top_of Qplus Qminus Qmult Qdiv Qabs Qle_bool
    (fun n => inject_Z (Z.of_nat n)) sorted_words line_tol.

(** The same at binary64, for words reduced to [(top, x0)]. *)
Definition line_clustering_doubles (sorted_words : list (float * float)) (line_tol : float)
  : list (list (float * float)) :=
  Walk.line_clustering fst PrimFloat.add PrimFloat.sub PrimFloat.mul PrimFloat.div
    PrimFloat.abs PrimFloat.leb Doubles.of_len sorted_words line_tol.

(** The order of the sort key [(top, x0)] as the specification words it:
    by top, then by left edge. *)
Definition key_le (a b : word) : Prop :=
  Extract.top_of a < Extract.top_of b \/
  (Extract.top_of a == Extract.top_of b /\ Extract.x0_of a <= Extract.x0_of b).

(** Words with the sort key of [w]. *)
Definition same_key (w x : word) : bool :=
  Qeq_bool (Extract.top_of x) (Extract.top_of w)
  && Qeq_bool (Extract.x0_of x) (Extract.x0_of w).

(** The words taken in [(top, x0)] order: a rearrangement of the words in
    non-decreasing key order, words with the same key staying in the order
    they came in. *)
Definition in_key_order (words sorted_words : list word) : Prop :=
  Permutation words sorted_words /\
  StronglySorted key_le sorted_words /\
  forall w, filter (same_key w) sorted_words = filter (same_key w) words.

(** Number of spaces for a gap, as the specification words it. *)
Definition spaces_for_gap (space_unit_pts : Q) (min_spaces : Z) (gap : Q) : Z :=
  if Qltb 0 gap then Z.max min_spaces (py_round (gap / Qmax (1 # 2) space_unit_pts))
  else if Qltb (- (3 # 10) * space_unit_pts) gap then 1%Z
  else 0%Z.

(** The gap in front of word [i] of [rest] as the specification words it:
    measured from the [x1] of the word just before it. *)
Definition gap_to_previous (first : word) (rest : list word) (i : nat) (w : word) : Q :=
  Extract.x0_of w - Extract.x1_of (last (firstn i rest) first).

(** The largest [x1] among [first] and the words of [before]. *)
Definition reach (first : word) (before : list word) : Q :=
  fold_left py_max (map Extract.x1_of before) (Extract.x1_of first).

(** The gap in front of word [i] of [rest], measured from the largest [x1]
    among all the words in front of it. *)
Definition gap_to_reach (first : word) (rest : list word) (i : nat) (w : word) : Q :=
  Extract.x0_of w - reach first (firstn i rest).

(** The text of a cluster [first :: rest] sorted by [x0], for a given way
    of measuring gaps: each word is preceded by the spaces its gap calls
    for. *)
Definition rebuilt_text (gap_of : word -> list word -> nat -> word -> Q)
           (space_unit_pts : Q) (min_spaces : Z) (first : word) (rest : list word) : string :=
  (Extract.text_of first ++
   join (map (fun i =>
                match nth_error rest i with
                | Some w =>
                    str_mul " " (spaces_for_gap space_unit_pts min_spaces (gap_of first rest i w))
                      ++ Extract.text_of w
                | None => ""
                end)
             (seq 0 (List.length rest))))%string.

(* ===================================================================== *)
(** ** Facts about the numeric helpers                                    *)
(* ===================================================================== *)

Lemma Qltb_lt (a b : Q) : Qltb a b = true <-> a < b.
Proof.
  unfold Qltb. rewrite negb_true_iff.
  split; intro H.
  - apply Qnot_le_lt. intro Hle. apply Qle_bool_iff in Hle. congruence.
  - destruct (Qle_bool b a) eqn:E; [|reflexivity].
    apply Qle_bool_iff in E. exfalso. apply (Qlt_not_le _ _ H E).
Qed.

Lemma Qltb_ge (a b : Q) : Qltb a b = false <-> b <= a.
Proof.
  unfold Qltb. rewrite negb_false_iff. apply Qle_bool_iff.
Qed.

Lemma Qle_bool_gt (a b : Q) : Qle_bool a b = false <-> b < a.
Proof.
  rewrite <- Qltb_lt. unfold Qltb. rewrite negb_true_iff. reflexivity.
Qed.

Lemma py_max_cases (a b : Q) :
  (a < b /\ py_max a b = b) \/ (b <= a /\ py_max a b = a).
Proof.
  unfold py_max. destruct (Qltb a b) eqn:E.
  - left. split; [apply Qltb_lt; exact E | reflexivity].
  - right. split; [apply Qltb_ge; exact E | reflexivity].
Qed.

Lemma py_min_cases (a b : Q) :
  (b < a /\ py_min a b = b) \/ (a <= b /\ py_min a b = a).
Proof.
  unfold py_min. destruct (Qltb b a) eqn:E.
  - left. split; [apply Qltb_lt; exact E | reflexivity].
  - right. split; [apply Qltb_ge; exact E | reflexivity].
Qed.

Lemma Qmax_cases (a b : Q) :
  (a < b /\ Qmax a b = b) \/ (b <= a /\ Qmax a b = a).
Proof.
  unfold Qmax, GenericMinMax.gmax.
  destruct (Qcompare_spec a b) as [H|H|H].
  - right. split; [rewrite H; apply Qle_refl | reflexivity].
  - left. split; [exact H | reflexivity].
  - right. split; [apply Qlt_le_weak; exact H | reflexivity].
Qed.

Lemma Qmin_cases (a b : Q) :
  (a <= b /\ Qmin a b = a) \/ (b < a /\ Qmin a b = b).
Proof.
  unfold Qmin, GenericMinMax.gmin.
  destruct (Qcompare_spec a b) as [H|H|H].
  - left. split; [rewrite H; apply Qle_refl | reflexivity].
  - left. split; [apply Qlt_le_weak; exact H | reflexivity].
  - right. split; [exact H | reflexivity].
Qed.

(* ===================================================================== *)
(** ** Geometry of the overlap predicates                                 *)
(* ===================================================================== *)

(** The width the code computes, [min(hi1, hi2) - max(lo1, lo2)], against
    the length of the common part of the two intervals. *)
Lemma common_length_code (lo1 hi1 lo2 hi2 : Q) :
  let d := py_min hi1 hi2 - py_max lo1 lo2 in
  d <= hi1 - lo1 /\ d <= hi2 - lo2 /\
  ((d <= 0 /\ common_length lo1 hi1 lo2 hi2 == 0) \/
   (0 < d /\ common_length lo1 hi1 lo2 hi2 == d)).
Proof.
  unfold common_length.
  destruct (py_min_cases hi1 hi2) as [[H1 ->]|[H1 ->]];
  destruct (py_max_cases lo1 lo2) as [[H2 ->]|[H2 ->]];
  destruct (Qmin_cases hi1 hi2) as [[H3 ->]|[H3 ->]];
  destruct (Qmax_cases lo1 lo2) as [[H4 ->]|[H4 ->]];
  cbv zeta;
  match goal with
  | |- context [Qmax 0 ?e] =>
      destruct (Qmax_cases 0 e) as [[H5 ->]|[H5 ->]]
  end;
  repeat split; try lra;
  solve [ left; split; lra | right; split; lra ].
Qed.

Lemma common_length_sym (lo1 hi1 lo2 hi2 : Q) :
  common_length lo1 hi1 lo2 hi2 == common_length lo2 hi2 lo1 hi1.
Proof.
  unfold common_length.
  destruct (Qmin_cases hi1 hi2) as [[H3 ->]|[H3 ->]];
  destruct (Qmax_cases lo1 lo2) as [[H4 ->]|[H4 ->]];
  destruct (Qmin_cases hi2 hi1) as [[H5 ->]|[H5 ->]];
  destruct (Qmax_cases lo2 lo1) as [[H6 ->]|[H6 ->]];
  match goal with
  | |- Qmax 0 ?e1 == Qmax 0 ?e2 =>
      destruct (Qmax_cases 0 e1) as [[H7 E7]|[H7 E7]];
      destruct (Qmax_cases 0 e2) as [[H8 E8]|[H8 E8]];
      rewrite E7; rewrite ?E8
  end; lra.
Qed.

Lemma intersection_area_sym (a b : bbox) :
  intersection_area a b == intersection_area b a.
Proof.
  unfold intersection_area.
  rewrite (common_length_sym (bx0 a) (bx1 a) (bx0 b) (bx1 b)).
  rewrite (common_length_sym (by0 a) (by1 a) (by0 b) (by1 b)).
  reflexivity.
Qed.

Lemma common_length_nonneg (lo1 hi1 lo2 hi2 : Q) :
  0 <= common_length lo1 hi1 lo2 hi2.
Proof.
  unfold common_length.
  match goal with
  | |- 0 <= Qmax 0 ?e => destruct (Qmax_cases 0 e) as [[H ->]|[H ->]]
  end; lra.
Qed.

(** Disjoint rectangles have an empty intersection. *)
Lemma disjoint_intersection_area (a b : bbox) :
  disjoint a b -> intersection_area a b == 0.
Proof.
  unfold disjoint, intersection_area. intro H.
  destruct (common_length_code (bx0 a) (bx1 a) (bx0 b) (bx1 b)) as (_ & _ & Hx).
  destruct (common_length_code (by0 a) (by1 a) (by0 b) (by1 b)) as (_ & _ & Hy).
  cbv zeta in Hx, Hy.
  destruct (py_min_cases (bx1 a) (bx1 b)) as [[H1 E1]|[H1 E1]];
  destruct (py_max_cases (bx0 a) (bx0 b)) as [[H2 E2]|[H2 E2]];
  destruct (py_min_cases (by1 a) (by1 b)) as [[H3 E3]|[H3 E3]];
  destruct (py_max_cases (by0 a) (by0 b)) as [[H4 E4]|[H4 E4]];
  rewrite E1, E2 in Hx; rewrite E3, E4 in Hy;
  destruct Hx as [[Hx1 Hx2]|[Hx1 Hx2]]; destruct Hy as [[Hy1 Hy2]|[Hy1 Hy2]];
  rewrite Hx2, Hy2; try lra;
  exfalso; destruct H as [H|[H|[H|H]]]; lra.
Qed.

(** A rectangle without area has an empty intersection with anything. *)
Lemma zero_area_intersection (a b : bbox) :
  area b == 0 -> intersection_area a b == 0.
Proof.
  unfold area, intersection_area. intro H.
  destruct (common_length_code (bx0 a) (bx1 a) (bx0 b) (bx1 b)) as (_ & Hbx & Hx).
  destruct (common_length_code (by0 a) (by1 a) (by0 b) (by1 b)) as (_ & Hby & Hy).
  cbv zeta in Hx, Hy, Hbx, Hby.
  destruct Hx as [[Hx1 Hx2]|[Hx1 Hx2]]; destruct Hy as [[Hy1 Hy2]|[Hy1 Hy2]];
  rewrite Hx2, Hy2; try lra.
  exfalso.
  assert (Hw : 0 < bx1 b - bx0 b) by lra.
  assert (Hh : 0 < by1 b - by0 b) by lra.
  assert (Hp : 0 < (bx1 b - bx0 b) * (by1 b - by0 b)) by (apply Qmult_lt_0_compat; assumption).
  lra.
Qed.

Lemma overlapRatio_no_intersection (a b : bbox) :
  intersection_area a b == 0 -> overlapRatio a b == 0.
Proof.
  intro H. unfold overlapRatio.
  destruct (Qeq_bool (area b) 0); [reflexivity|].
  rewrite H. unfold Qdiv. apply Qmult_0_l.
Qed.

Lemma overlapRatio_nonzero_area (a b : bbox) :
  ~ area b == 0 -> overlapRatio a b == intersection_area a b / area b.
Proof.
  intro H. unfold overlapRatio.
  destruct (Qeq_bool (area b) 0) eqn:E; [|reflexivity].
  apply Qeq_bool_iff in E. contradiction.
Qed.

(** The quantities the three overlap predicates compute, against the
    ratio of the specification. *)
Lemma overlapRatio_code (a b : bbox) :
  let dx := py_min (bx1 a) (bx1 b) - py_max (bx0 a) (bx0 b) in
  let dy := py_min (by1 a) (by1 b) - py_max (by0 a) (by0 b) in
  ((dx <= 0 \/ dy <= 0) /\ overlapRatio a b == 0 /\ overlapRatio b a == 0) \/
  (0 < dx /\ 0 < dy /\ 0 < area a /\ 0 < area b /\
   overlapRatio a b == dx * dy / area b /\
   overlapRatio b a == dx * dy / area a).
Proof.
  intros dx dy.
  destruct (common_length_code (bx0 a) (bx1 a) (bx0 b) (bx1 b)) as (Hax & Hbx & Hx).
  destruct (common_length_code (by0 a) (by1 a) (by0 b) (by1 b)) as (Hay & Hby & Hy).
  cbv zeta in Hax, Hbx, Hx, Hay, Hby, Hy.
  fold dx in Hax, Hbx, Hx. fold dy in Hay, Hby, Hy.
  assert (Hzero : dx <= 0 \/ dy <= 0 -> intersection_area a b == 0).
  { intro Hd. unfold intersection_area.
    destruct Hx as [[Hx1 Hx2]|[Hx1 Hx2]]; destruct Hy as [[Hy1 Hy2]|[Hy1 Hy2]];
      rewrite Hx2, Hy2; lra. }
  destruct (Qlt_le_dec 0 dx) as [Hdx|Hdx]; [destruct (Qlt_le_dec 0 dy) as [Hdy|Hdy]|].
  - right.
    assert (Hia : intersection_area a b == dx * dy).
    { unfold intersection_area.
      destruct Hx as [[Hx1 Hx2]|[Hx1 Hx2]]; [lra|].
      destruct Hy as [[Hy1 Hy2]|[Hy1 Hy2]]; [lra|].
      rewrite Hx2, Hy2. reflexivity. }
    assert (Ha : 0 < area a).
    { unfold area. apply Qmult_lt_0_compat; lra. }
    assert (Hb : 0 < area b).
    { unfold area. apply Qmult_lt_0_compat; lra. }
    repeat split; try assumption.
    + rewrite overlapRatio_nonzero_area by lra. rewrite Hia. reflexivity.
    + rewrite overlapRatio_nonzero_area by lra.
      rewrite <- intersection_area_sym, Hia. reflexivity.
  - left. split; [right; exact Hdy|].
    split; apply overlapRatio_no_intersection;
      [|rewrite <- intersection_area_sym]; apply Hzero; right; exact Hdy.
  - left. split; [left; exact Hdx|].
    split; apply overlapRatio_no_intersection;
      [|rewrite <- intersection_area_sym]; apply Hzero; left; exact Hdx.
Qed.

(** [boxes_overlap] of find_improper_redactions.py decides
    [threshold <= overlapRatio(box1, box2)] for positive thresholds. *)
Lemma find_boxes_overlap_iff (a b : bbox) (t : Q) :
  0 < t -> (FindImproper.boxes_overlap a b t = true <-> t <= overlapRatio a b).
Proof.
  intro Ht. unfold FindImproper.boxes_overlap.
  destruct (overlapRatio_code a b) as [(Hd & Hr & _)|(Hdx & Hdy & _ & Hb & Hr & _)];
    cbv zeta in *.
  - assert (E : Qle_bool (py_min (bx1 a) (bx1 b)) (py_max (bx0 a) (bx0 b))
                || Qle_bool (py_min (by1 a) (by1 b)) (py_max (by0 a) (by0 b)) = true).
    { apply orb_true_iff. destruct Hd; [left|right]; apply Qle_bool_iff; lra. }
    rewrite E. split; [discriminate|]. intro H. rewrite Hr in H. lra.
  - assert (E : Qle_bool (py_min (bx1 a) (bx1 b)) (py_max (bx0 a) (bx0 b))
                || Qle_bool (py_min (by1 a) (by1 b)) (py_max (by0 a) (by0 b)) = false).
    { apply orb_false_iff. split; apply Qle_bool_gt; lra. }
    rewrite E.
    assert (E2 : Qltb 0 ((bx1 b - bx0 b) * (by1 b - by0 b)) = true).
    { apply Qltb_lt. exact Hb. }
    rewrite E2, Hr. apply Qle_bool_iff.
Qed.

(** The same for [boxes_overlap] of test_box_text_overlap.py. *)
Lemma test_boxes_overlap_iff (a b : bbox) (t : Q) :
  0 < t -> (TestBox.boxes_overlap a b t = true <-> t <= overlapRatio a b).
Proof.
  intro Ht. unfold TestBox.boxes_overlap.
  destruct (overlapRatio_code a b) as [(Hd & Hr & _)|(Hdx & Hdy & _ & Hb & Hr & _)];
    cbv zeta in *.
  - assert (E : Qle_bool (py_min (bx1 a) (bx1 b)) (py_max (bx0 a) (bx0 b))
                || Qle_bool (py_min (by1 a) (by1 b)) (py_max (by0 a) (by0 b)) = true).
    { apply orb_true_iff. destruct Hd; [left|right]; apply Qle_bool_iff; lra. }
    rewrite E. split; [discriminate|]. intro H. rewrite Hr in H. lra.
  - assert (E : Qle_bool (py_min (bx1 a) (bx1 b)) (py_max (bx0 a) (bx0 b))
                || Qle_bool (py_min (by1 a) (by1 b)) (py_max (by0 a) (by0 b)) = false).
    { apply orb_false_iff. split; apply Qle_bool_gt; lra. }
    rewrite E.
    assert (E2 : Qeq_bool ((bx1 b - bx0 b) * (by1 b - by0 b)) 0 = false).
    { destruct (Qeq_bool ((bx1 b - bx0 b) * (by1 b - by0 b)) 0) eqn:E0; [|reflexivity].
      apply Qeq_bool_iff in E0. unfold area in Hb. lra. }
    rewrite E2, Hr. apply Qle_bool_iff.
Qed.

(** [rectangles_overlap] divides by the area of its FIRST argument: it
    decides [threshold <= overlapRatio(bbox2, bbox1)]. *)
Lemma rectangles_overlap_iff (a b : bbox) (t : Q) :
  0 < t -> (Detect.rectangles_overlap a b t = true <-> t <= overlapRatio b a).
Proof.
  intro Ht. unfold Detect.rectangles_overlap.
  destruct (overlapRatio_code a b) as [(Hd & _ & Hr)|(Hdx & Hdy & Ha & _ & _ & Hr)];
    cbv zeta in *.
  - assert (E : Qle_bool (py_min (bx1 a) (bx1 b)) (py_max (bx0 a) (bx0 b))
                || Qle_bool (py_min (by1 a) (by1 b)) (py_max (by0 a) (by0 b)) = true).
    { apply orb_true_iff. destruct Hd; [left|right]; apply Qle_bool_iff; lra. }
    rewrite E. split; [discriminate|]. intro H. rewrite Hr in H. lra.
  - assert (E : Qle_bool (py_min (bx1 a) (bx1 b)) (py_max (bx0 a) (bx0 b))
                || Qle_bool (py_min (by1 a) (by1 b)) (py_max (by0 a) (by0 b)) = false).
    { apply orb_false_iff. split; apply Qle_bool_gt; lra. }
    rewrite E.
    assert (E2 : Qeq_bool ((bx1 a - bx0 a) * (by1 a - by0 a)) 0 = false).
    { destruct (Qeq_bool ((bx1 a - bx0 a) * (by1 a - by0 a)) 0) eqn:E0; [|reflexivity].
      apply Qeq_bool_iff in E0. unfold area in Ha. lra. }
    rewrite E2, Hr. apply Qle_bool_iff.
Qed.

(** A glyph with positive area inside a box overlaps it with ratio 1. *)
Lemma contained_ratio_one (bx gl : bbox) :
  well_formed gl -> 0 < area gl -> contained gl bx -> overlapRatio bx gl == 1.
Proof.
  intros [Hwx Hwy] Harea (Hc1 & Hc2 & Hc3 & Hc4).
  assert (Hpos : bx0 gl < bx1 gl /\ by0 gl < by1 gl).
  { unfold area in Harea.
    destruct (Qlt_le_dec (bx0 gl) (bx1 gl)) as [Hx|Hx];
    destruct (Qlt_le_dec (by0 gl) (by1 gl)) as [Hy|Hy]; try (split; assumption);
    exfalso.
    - assert (E : by1 gl - by0 gl == 0) by lra. rewrite E in Harea. lra.
    - assert (E : bx1 gl - bx0 gl == 0) by lra. rewrite E in Harea. lra.
    - assert (E : bx1 gl - bx0 gl == 0) by lra. rewrite E in Harea. lra. }
  destruct Hpos as [Hx Hy].
  destruct (overlapRatio_code bx gl) as [(Hd & _)|(Hdx & Hdy & _ & Hb & Hr & _)];
    cbv zeta in *.
  - exfalso.
    destruct (py_min_cases (bx1 bx) (bx1 gl)) as [[H1 E1]|[H1 E1]];
    destruct (py_max_cases (bx0 bx) (bx0 gl)) as [[H2 E2]|[H2 E2]];
    destruct (py_min_cases (by1 bx) (by1 gl)) as [[H3 E3]|[H3 E3]];
    destruct (py_max_cases (by0 bx) (by0 gl)) as [[H4 E4]|[H4 E4]];
    rewrite E1, E2, E3, E4 in Hd; lra.
  - rewrite Hr.
    assert (E : (py_min (bx1 bx) (bx1 gl) - py_max (bx0 bx) (bx0 gl)) *
                (py_min (by1 bx) (by1 gl) - py_max (by0 bx) (by0 gl)) == area gl).
    { unfold area.
      destruct (py_min_cases (bx1 bx) (bx1 gl)) as [[H1 E1]|[H1 E1]];
      destruct (py_max_cases (bx0 bx) (bx0 gl)) as [[H2 E2]|[H2 E2]];
      destruct (py_min_cases (by1 bx) (by1 gl)) as [[H3 E3]|[H3 E3]];
      destruct (py_max_cases (by0 bx) (by0 gl)) as [[H4 E4]|[H4 E4]];
      rewrite E1, E2, E3, E4;
      assert (Ex1 : bx1 bx == bx1 gl \/ bx1 gl <= bx1 bx) by lra;
      assert (Ex0 : bx0 bx == bx0 gl \/ bx0 bx <= bx0 gl) by lra;
      assert (Ey1 : by1 bx == by1 gl \/ by1 gl <= by1 bx) by lra;
      assert (Ey0 : by0 bx == by0 gl \/ by0 bx <= by0 gl) by lra;
      try reflexivity;
      repeat match goal with
             | H : ?u <= ?v, H' : ?v <= ?u |- _ =>
                 assert (u == v) by lra; clear H
             end;
      repeat match goal with
             | H : _ == _ |- _ => rewrite H; clear H
             end;
      reflexivity. }
    rewrite E. field. lra.
Qed.

(* ===================================================================== *)
(** ** Overlap ratio and threshold                                        *)
(* ===================================================================== *)

(** C1 (as the code has it).  For every positive threshold the three
    overlap predicates decide [threshold <= overlapRatio(box, glyph)],
    where the ratio is the intersection area divided by the area of the
    glyph rectangle; the glyph is the second argument of both
    [boxes_overlap] functions and the FIRST argument of
    [rectangles_overlap].  Whenever box and glyph are disjoint or the glyph
    has no area, the ratio is 0 and no predicate reports a match. *)
Theorem overlap_ratio_over_glyph_area (t : Q) :
  0 < t ->
  (forall bx gl : bbox,
      (FindImproper.boxes_overlap bx gl t = true <-> t <= overlapRatio bx gl) /\
      (TestBox.boxes_overlap bx gl t = true <-> t <= overlapRatio bx gl) /\
      (Detect.rectangles_overlap gl bx t = true <-> t <= overlapRatio bx gl)) /\
  (forall bx gl : bbox,
      disjoint bx gl \/ area gl == 0 ->
      overlapRatio bx gl == 0 /\
      FindImproper.boxes_overlap bx gl t = false /\
      TestBox.boxes_overlap bx gl t = false /\
      Detect.rectangles_overlap gl bx t = false).
Proof.
  intro Ht. split.
  - intros bx gl. repeat split;
      try (apply find_boxes_overlap_iff; exact Ht);
      try (apply test_boxes_overlap_iff; exact Ht);
      try (apply rectangles_overlap_iff; exact Ht);
      try (apply <- find_boxes_overlap_iff; [eassumption | exact Ht]);
      try (apply <- test_boxes_overlap_iff; [eassumption | exact Ht]);
      try (apply <- rectangles_overlap_iff; [eassumption | exact Ht]).
  - intros bx gl H.
    assert (Hr : overlapRatio bx gl == 0).
    { apply overlapRatio_no_intersection.
      destruct H as [H|H];
        [apply disjoint_intersection_area | apply zero_area_intersection]; exact H. }
    split; [exact Hr|].
    repeat split.
    + destruct (FindImproper.boxes_overlap bx gl t) eqn:E; [|reflexivity].
      apply find_boxes_overlap_iff in E; [|exact Ht]. rewrite Hr in E. lra.
    + destruct (TestBox.boxes_overlap bx gl t) eqn:E; [|reflexivity].
      apply test_boxes_overlap_iff in E; [|exact Ht]. rewrite Hr in E. lra.
    + destruct (Detect.rectangles_overlap gl bx t) eqn:E; [|reflexivity].
      apply rectangles_overlap_iff in E; [|exact Ht]. rewrite Hr in E. lra.
Qed.

(** The theorem at threshold 0.5: a box [(0,0,10,10)] with a glyph
    [(5,0,15,10)] half inside it, and with a glyph [(20,0,30,10)] beside
    it. *)
Lemma overlap_ratio_over_glyph_area_witness :
  (FindImproper.boxes_overlap (mkBBox 0 0 10 10) (mkBBox 5 0 15 10) (1 # 2) = true <->
   (1 # 2) <= overlapRatio (mkBBox 0 0 10 10) (mkBBox 5 0 15 10)) /\
  overlapRatio (mkBBox 0 0 10 10) (mkBBox 20 0 30 10) == 0.
Proof.
  assert (Ht : 0 < 1 # 2) by reflexivity.
  destruct (overlap_ratio_over_glyph_area Ht) as [H1 H2].
  split.
  - exact (proj1 (H1 (mkBBox 0 0 10 10) (mkBBox 5 0 15 10))).
  - assert (Hd : disjoint (mkBBox 0 0 10 10) (mkBBox 20 0 30 10) \/
                 area (mkBBox 20 0 30 10) == 0).
    { left. left. unfold Qle. simpl. lia. }
    exact (proj1 (H2 (mkBBox 0 0 10 10) (mkBBox 20 0 30 10) Hd)).
Defined.

(** C1 as stated fails for [rectangles_overlap]: with first argument
    [(0,0,1,1)] and second argument [(0,0,2,2)] the intersection is a
    quarter of the second argument's area, yet the predicate reports a
    match at threshold 0.5, because it divides by the first argument's
    area. *)
Lemma rectangles_overlap_second_argument_counterexample :
  overlapRatio (mkBBox 0 0 1 1) (mkBBox 0 0 2 2) == 1 # 4 /\
  Detect.rectangles_overlap (mkBBox 0 0 1 1) (mkBBox 0 0 2 2) (1 # 2) = true /\
  ~ (Detect.rectangles_overlap (mkBBox 0 0 1 1) (mkBBox 0 0 2 2) (1 # 2) = true <->
     (1 # 2) <= overlapRatio (mkBBox 0 0 1 1) (mkBBox 0 0 2 2)).
Proof.
  assert (Hr : overlapRatio (mkBBox 0 0 1 1) (mkBBox 0 0 2 2) == 1 # 4)
    by (vm_compute; reflexivity).
  assert (Hm : Detect.rectangles_overlap (mkBBox 0 0 1 1) (mkBBox 0 0 2 2) (1 # 2) = true)
    by (vm_compute; reflexivity).
  split; [exact Hr|]. split; [exact Hm|].
  intros [H _]. specialize (H Hm). rewrite Hr in H. unfold Qle in H. simpl in H. lia.
Qed.

(** C5.  The comparison with the threshold is inclusive: for every
    threshold in (0,1], a glyph whose overlap ratio with a box equals the
    threshold is a match for each of the three predicates; and a
    well-formed glyph rectangle of positive area lying inside a box has
    ratio 1 and is a match at every such threshold. *)
Theorem threshold_comparison_inclusive (t : Q) :
  0 < t -> t <= 1 ->
  (forall bx gl : bbox,
      overlapRatio bx gl == t ->
      FindImproper.boxes_overlap bx gl t = true /\
      TestBox.boxes_overlap bx gl t = true /\
      Detect.rectangles_overlap gl bx t = true) /\
  (forall bx gl : bbox,
      well_formed gl -> 0 < area gl -> contained gl bx ->
      overlapRatio bx gl == 1 /\
      FindImproper.boxes_overlap bx gl t = true /\
      TestBox.boxes_overlap bx gl t = true /\
      Detect.rectangles_overlap gl bx t = true).
Proof.
  intros Ht Ht1.
  assert (Hge : forall bx gl : bbox,
             t <= overlapRatio bx gl ->
             FindImproper.boxes_overlap bx gl t = true /\
             TestBox.boxes_overlap bx gl t = true /\
             Detect.rectangles_overlap gl bx t = true).
  { intros bx gl H. repeat split.
    - apply find_boxes_overlap_iff; assumption.
    - apply test_boxes_overlap_iff; assumption.
    - apply rectangles_overlap_iff; assumption. }
  split.
  - intros bx gl H. apply Hge. rewrite H. apply Qle_refl.
  - intros bx gl Hw Ha Hc.
    assert (Hr : overlapRatio bx gl == 1) by (apply contained_ratio_one; assumption).
    split; [exact Hr|]. apply Hge. rewrite Hr. exact Ht1.
Qed.

(** The theorem at threshold 0.5 (scenario 4): the glyph [(5,0,15,10)]
    overlaps the box [(0,0,10,10)] with ratio exactly 0.5, and the glyph
    [(2,2,4,4)] lies inside the box. *)
Lemma threshold_comparison_inclusive_witness :
  FindImproper.boxes_overlap (mkBBox 0 0 10 10) (mkBBox 5 0 15 10) (1 # 2) = true /\
  overlapRatio (mkBBox 0 0 10 10) (mkBBox 2 2 4 4) == 1 /\
  Detect.rectangles_overlap (mkBBox 2 2 4 4) (mkBBox 0 0 10 10) (1 # 2) = true.
Proof.
  assert (Ht : 0 < 1 # 2) by reflexivity.
  assert (Ht1 : (1 # 2) <= 1) by (unfold Qle; simpl; lia).
  destruct (threshold_comparison_inclusive Ht Ht1) as [H1 H2].
  assert (Hr : overlapRatio (mkBBox 0 0 10 10) (mkBBox 5 0 15 10) == 1 # 2)
    by (vm_compute; reflexivity).
  assert (Hw : well_formed (mkBBox 2 2 4 4)) by (split; unfold Qle; simpl; lia).
  assert (Ha : 0 < area (mkBBox 2 2 4 4)) by reflexivity.
  assert (Hc : contained (mkBBox 2 2 4 4) (mkBBox 0 0 10 10))
    by (repeat split; unfold Qle; simpl; lia).
  split; [exact (proj1 (H1 _ _ Hr))|].
  split; [exact (proj1 (H2 _ _ Hw Ha Hc))|].
  exact (proj2 (proj2 (proj2 (H2 _ _ Hw Ha Hc)))).
Defined.

(* ===================================================================== *)
(** ** Glyph extraction and the file-level matcher                        *)
(* ===================================================================== *)

(** The page loop of [get_text_positions] collects the glyphs of the
    pages in front of the first unreadable page, and nothing after it. *)
Lemma text_positions_loop_prefix (pages : list plumber_page) :
  forall (page_num : nat) (acc : list glyph),
    snd (FindImproper.text_positions_loop page_num pages acc) =
    acc ++ isolated_glyphs page_num (readable_prefix pages).
Proof.
  induction pages as [|page rest IH]; intros page_num acc; simpl.
  - symmetry. apply app_nil_r.
  - unfold glyphs_on. destruct (chars page) as [cs|e] eqn:E; simpl.
    + rewrite IH. unfold glyphs_on. rewrite E. rewrite app_assoc. reflexivity.
    + symmetry. apply app_nil_r.
Qed.

(** The same for the page loop of [check_text_under_boxes]. *)
Lemma under_boxes_loop_prefix (boxes : list box) (t : Q) (pages : list plumber_page) :
  forall (page_num : nat) (acc : list glyph),
    snd (Detect.under_boxes_loop boxes t page_num pages acc) =
    acc ++ isolated_matches boxes t page_num (readable_prefix pages).
Proof.
  induction pages as [|page rest IH]; intros page_num acc; simpl.
  - symmetry. apply app_nil_r.
  - destruct (chars page) as [cs|e] eqn:E; simpl.
    + rewrite IH. unfold glyphs_on. rewrite E. rewrite app_assoc. reflexivity.
    + symmetry. apply app_nil_r.
Qed.

(** A character is appended at most once, whatever the boxes are. *)
Lemma scan_boxes_at_most_one (t : Q) (page_num : nat) (char : pchar) (page_boxes : list box) :
  (List.length (Detect.scan_boxes t page_num char page_boxes) <= 1)%nat.
Proof.
  induction page_boxes as [|b rest IH]; simpl.
  - lia.
  - destruct (Detect.rectangles_overlap _ _ _); simpl; [lia | exact IH].
Qed.

Lemma flat_map_scan_length (t : Q) (page_num : nat) (page_boxes : list box) (cs : list pchar) :
  (List.length (flat_map (fun char => Detect.scan_boxes t page_num char page_boxes) cs)
   <= List.length cs)%nat.
Proof.
  induction cs as [|c cs IH]; simpl.
  - lia.
  - rewrite length_app.
    pose proof (scan_boxes_at_most_one t page_num c page_boxes). lia.
Qed.

Lemma isolated_matches_length (boxes : list box) (t : Q) (pages : list plumber_page) :
  forall page_num : nat,
    (List.length (isolated_matches boxes t page_num pages)
     <= List.length (isolated_glyphs page_num pages))%nat.
Proof.
  induction pages as [|page rest IH]; intro page_num; simpl.
  - lia.
  - rewrite !length_app, length_map.
    pose proof (flat_map_scan_length t page_num
                  (filter (fun b => Nat.eqb (box_page b) page_num) boxes) (glyphs_on page)).
    specialize (IH (S page_num)). lia.
Qed.

Lemma isolated_glyphs_prefix_length (pages : list plumber_page) :
  forall page_num : nat,
    (List.length (isolated_glyphs page_num (readable_prefix pages))
     <= List.length (isolated_glyphs page_num pages))%nat.
Proof.
  induction pages as [|page rest IH]; intro page_num; simpl.
  - lia.
  - destruct (chars page) as [cs|e] eqn:E; simpl.
    + rewrite !length_app. specialize (IH (S page_num)). lia.
    + lia.
Qed.

(** What [check_text_under_boxes] returns, in closed form. *)
Lemma check_text_under_boxes_closed (f : pdf) (boxes : list box) (t : Q) :
  boxes <> [] ->
  Detect.check_text_under_boxes f boxes t =
  let rc := isolated_matches boxes t 0 (readable_prefix (plumber_pages f)) in
  Ok (Detect.mkTextCheck (Nat.ltb 0 (List.length rc)) (List.length rc) rc).
Proof.
  intro Hne. unfold Detect.check_text_under_boxes, plumber_pages.
  destruct boxes as [|b bs]; [congruence|].
  destruct (plumber_open f) as [pages|e]; cbv zeta.
  - rewrite under_boxes_loop_prefix. reflexivity.
  - reflexivity.
Qed.

Lemma flat_map_scan_no_boxes (t : Q) (page_num : nat) (cs : list pchar) :
  flat_map (fun char => Detect.scan_boxes t page_num char []) cs = [].
Proof.
  induction cs as [|c cs IH]; simpl; [reflexivity | exact IH].
Qed.

Lemma isolated_matches_no_boxes (t : Q) (pages : list plumber_page) :
  forall page_num : nat, isolated_matches [] t page_num pages = [].
Proof.
  induction pages as [|page rest IH]; intro page_num; cbn [isolated_matches filter].
  - reflexivity.
  - rewrite flat_map_scan_no_boxes, IH. reflexivity.
Qed.

Lemma readable_prefix_nth (pages : list plumber_page) :
  forall (k : nat) (page : plumber_page),
    nth_error (readable_prefix pages) k = Some page -> nth_error pages k = Some page.
Proof.
  induction pages as [|p rest IH]; intros k page; simpl.
  - intro H. exact H.
  - destruct (chars p) as [cs|e].
    + destruct k as [|k]; simpl; [intro H; exact H | apply IH].
    + destruct k; simpl; discriminate.
Qed.

(** No page that carries a box has glyphs: nothing is matched. *)
Lemma isolated_matches_nil (boxes : list box) (t : Q) (pages : list plumber_page) :
  forall page_num : nat,
    (forall b k page, In b boxes -> box_page b = (page_num + k)%nat ->
                      nth_error pages k = Some page -> glyphs_on page = []) ->
    isolated_matches boxes t page_num pages = [].
Proof.
  induction pages as [|page rest IH]; intros page_num H; simpl.
  - reflexivity.
  - rewrite IH.
    + rewrite app_nil_r.
      destruct (filter (fun b => Nat.eqb (box_page b) page_num) boxes) as [|b bs] eqn:E.
      * apply flat_map_scan_no_boxes.
      * assert (Hb : In b (filter (fun b => Nat.eqb (box_page b) page_num) boxes))
          by (rewrite E; left; reflexivity).
        apply filter_In in Hb. destruct Hb as [Hin Hpage].
        apply Nat.eqb_eq in Hpage.
        rewrite (H b 0%nat page Hin); [reflexivity | lia | reflexivity].
    + intros b k p Hin Hpage Hnth.
      apply (H b (S k) p Hin); [lia | exact Hnth].
Qed.

(** [detect_black_rectangles] always returns. *)
Lemma detect_black_rectangles_returns (f : pdf) (thr : Q) :
  exists boxes, Detect.detect_black_rectangles f thr = Ok boxes.
Proof.
  unfold Detect.detect_black_rectangles.
  destruct (fitz_open f); eexists; reflexivity.
Qed.

(** What [analyze_pdf_for_redactions] returns, in closed form. *)
Lemma analyze_closed (f : pdf) (boxes : list box) :
  Detect.detect_black_rectangles f Detect.default_black_threshold = Ok boxes ->
  Detect.analyze_pdf_for_redactions f =
  let rc := isolated_matches boxes Detect.default_overlap_threshold 0
              (readable_prefix (plumber_pages f)) in
  Detect.mkAnalysis (Nat.ltb 0 (List.length boxes))
                    (Nat.ltb 0 (List.length boxes) && Nat.ltb 0 (List.length rc))
                    (List.length boxes)
                    (List.length rc)
                    (Nat.ltb 0 (List.length boxes) && Nat.ltb 0 (List.length rc))
                    None.
Proof.
  intro Hd. unfold Detect.analyze_pdf_for_redactions. rewrite Hd.
  destruct boxes as [|b bs].
  - simpl. rewrite isolated_matches_no_boxes. reflexivity.
  - rewrite check_text_under_boxes_closed by discriminate. reflexivity.
Qed.

(** C2.  For every file, [should_process] is true exactly when the
    redaction box count and the recovered character count are both
    positive; and when the file has at least one redaction box and no page
    that carries a box has any glyph, [has_recoverable_text] and
    [should_process] are both false. *)
Theorem should_process_iff_boxes_and_chars (f : pdf) :
  let r := Detect.analyze_pdf_for_redactions f in
  (Detect.should_process r = true <->
   (0 < Detect.redaction_box_count r)%nat /\ (0 < Detect.redacted_char_count r)%nat) /\
  ((0 < Detect.redaction_box_count r)%nat ->
   (forall boxes b page,
       Detect.detect_black_rectangles f Detect.default_black_threshold = Ok boxes ->
       In b boxes ->
       nth_error (plumber_pages f) (box_page b) = Some page ->
       glyphs_on page = []) ->
   Detect.has_recoverable_text r = false /\ Detect.should_process r = false).
Proof.
  destruct (detect_black_rectangles_returns f Detect.default_black_threshold) as [boxes Hd].
  cbv zeta. rewrite (analyze_closed f Hd). cbv zeta. simpl.
  split.
  - rewrite andb_true_iff, !Nat.ltb_lt. reflexivity.
  - intros Hpos Hnone.
    rewrite isolated_matches_nil.
    + simpl. rewrite andb_false_r. split; reflexivity.
    + intros b k page Hin Hpage Hnth. simpl in Hpage. subst k.
      apply (Hnone boxes b page Hd Hin).
      apply readable_prefix_nth. exact Hnth.
Qed.

(** The theorem on scenario 2: one page with an image block at
    [(0,0,100,20)] and no characters. *)
Lemma should_process_iff_boxes_and_chars_witness :
  let f := mkPdf (Ok [mkFitzPage (Ok []) (Ok [mkBlock (Some 1%Z) (Some (mkBBox 0 0 100 20))])])
                 (Ok [mkPlumberPage (Ok []) (Ok [])]) in
  Detect.redaction_box_count (Detect.analyze_pdf_for_redactions f) = 1%nat /\
  Detect.has_recoverable_text (Detect.analyze_pdf_for_redactions f) = false /\
  Detect.should_process (Detect.analyze_pdf_for_redactions f) = false.
Proof.
  intro f. split; [reflexivity|].
  apply (proj2 (should_process_iff_boxes_and_chars f)).
  - simpl. lia.
  - intros boxes b page Hd Hin Hnth.
    injection Hd as <-. simpl in Hin. destruct Hin as [<-|[]].
    simpl in Hnth. injection Hnth as <-. reflexivity.
Defined.

(** C10.  In the file-level matcher every glyph is appended at most once,
    whatever the boxes are (the scan over the boxes stops at the first
    match), so the reported [redacted_char_count] never exceeds the number
    of glyphs in the document. *)
Theorem redacted_char_count_bounded (f : pdf) :
  (forall t page_num char page_boxes,
      (List.length (Detect.scan_boxes t page_num char page_boxes) <= 1)%nat) /\
  (forall boxes t, exists tc,
      Detect.check_text_under_boxes f boxes t = Ok tc /\
      Detect.redacted_text_count tc = List.length (Detect.redacted_chars tc) /\
      (Detect.redacted_text_count tc <= total_glyphs f)%nat) /\
  (Detect.redacted_char_count (Detect.analyze_pdf_for_redactions f) <= total_glyphs f)%nat.
Proof.
  assert (Hbound : forall boxes t,
             (List.length (isolated_matches boxes t 0 (readable_prefix (plumber_pages f)))
              <= total_glyphs f)%nat).
  { intros boxes t. unfold total_glyphs.
    pose proof (isolated_matches_length boxes t (readable_prefix (plumber_pages f)) 0).
    pose proof (isolated_glyphs_prefix_length (plumber_pages f) 0). lia. }
  split; [|split].
  - intros. apply scan_boxes_at_most_one.
  - intros boxes t. destruct boxes as [|b bs].
    + eexists. split; [reflexivity|]. simpl. split; [reflexivity | lia].
    + rewrite check_text_under_boxes_closed by discriminate.
      eexists. split; [reflexivity|]. simpl. split; [reflexivity | apply Hbound].
  - destruct (detect_black_rectangles_returns f Detect.default_black_threshold) as [boxes Hd].
    rewrite (analyze_closed f Hd). simpl. apply Hbound.
Qed.

(** C6 (as the code has it).  Glyph extraction and the file-level matcher
    never raise: both always return.  A failure is not isolated to its
    page: the pages in front of the first unreadable page contribute their
    glyphs and their matches, the unreadable page and every page after it
    contribute nothing. *)
Theorem glyph_extraction_stops_at_unreadable_page (f : pdf) :
  FindImproper.get_text_positions f =
    Ok (isolated_glyphs 0 (readable_prefix (plumber_pages f))) /\
  (forall boxes t, exists tc,
      Detect.check_text_under_boxes f boxes t = Ok tc /\
      Detect.redacted_chars tc =
        isolated_matches boxes t 0 (readable_prefix (plumber_pages f))).
Proof.
  split.
  - unfold FindImproper.get_text_positions, plumber_pages.
    destruct (plumber_open f) as [pages|e].
    + rewrite text_positions_loop_prefix. reflexivity.
    + reflexivity.
  - intros boxes t. destruct boxes as [|b bs].
    + eexists. split; [reflexivity|]. simpl.
      rewrite isolated_matches_no_boxes. reflexivity.
    + rewrite check_text_under_boxes_closed by discriminate.
      eexists. split; reflexivity.
Qed.

(** C6 as stated fails on a three-page file whose middle page cannot be
    read: the glyph "b" of the last page is neither extracted nor matched
    against the box that covers it, while per-page isolation would keep
    it. *)
Lemma unreadable_page_not_isolated_counterexample :
  let ch := fun s => mkPChar (Some s) (Some 0) (Some 0) (Some 10) (Some 10) in
  let f := mkPdf (Ok [])
                 (Ok [mkPlumberPage (Ok [ch "a"%string]) (Ok []);
                      mkPlumberPage (Raised "unreadable") (Ok []);
                      mkPlumberPage (Ok [ch "b"%string]) (Ok [])]) in
  let boxes := [mkBox 2 (mkBBox 0 0 10 10)] in
  FindImproper.get_text_positions f = Ok [mkGlyph 0 "a" (mkBBox 0 0 10 10)] /\
  isolated_glyphs 0 (plumber_pages f) =
    [mkGlyph 0 "a" (mkBBox 0 0 10 10); mkGlyph 2 "b" (mkBBox 0 0 10 10)] /\
  FindImproper.get_text_positions f <> Ok (isolated_glyphs 0 (plumber_pages f)) /\
  Detect.check_text_under_boxes f boxes (1 # 2) = Ok (Detect.mkTextCheck false 0 []) /\
  isolated_matches boxes (1 # 2) 0 (plumber_pages f) = [mkGlyph 2 "b" (mkBBox 0 0 10 10)].
Proof.
  cbv zeta. repeat split; try reflexivity.
  intro H. vm_compute in H. discriminate H.
Qed.

(* ===================================================================== *)
(** ** Candidate redaction boxes                                          *)
(* ===================================================================== *)

(** Boxes already collected are never dropped by the page loop. *)
Lemma rectangles_loop_keeps (thr : Q) (pages : list fitz_page) :
  forall (page_num : nat) (acc : list box) (b : box),
    In b acc -> In b (snd (Detect.rectangles_loop thr page_num pages acc)).
Proof.
  induction pages as [|page rest IH]; intros page_num acc b Hin; simpl.
  - exact Hin.
  - destruct (get_drawings page) as [drawings|e]; [|exact Hin].
    destruct (get_text_blocks page) as [blocks|e]; simpl.
    + apply IH. apply in_or_app. left. apply in_or_app. left. exact Hin.
    + apply in_or_app. left. exact Hin.
Qed.

(** When page [k] and the pages in front of it can be read, everything
    its drawings and its blocks give is in the result. *)
Lemma rectangles_loop_page (thr : Q) (pages : list fitz_page) :
  forall (page_num : nat) (acc : list box) (k : nat) (page : fitz_page)
         (drawings : list drawing) (blocks : list block) (b : box),
    (forall j q, (j <= k)%nat -> nth_error pages j = Some q -> fitz_readable q) ->
    nth_error pages k = Some page ->
    get_drawings page = Ok drawings ->
    get_text_blocks page = Ok blocks ->
    In b (flat_map (Detect.box_of_drawing thr (page_num + k)) drawings
            ++ flat_map (Detect.box_of_block (page_num + k)) blocks) ->
    In b (snd (Detect.rectangles_loop thr page_num pages acc)).
Proof.
  induction pages as [|p rest IH];
    intros page_num acc k page drawings blocks b Hread Hnth Hd Hb Hin.
  - destruct k; discriminate Hnth.
  - destruct k as [|k]; simpl in Hnth.
    + injection Hnth as ->. simpl. rewrite Hd, Hb.
      apply rectangles_loop_keeps.
      rewrite Nat.add_0_r in Hin. rewrite <- app_assoc.
      apply in_or_app. right. exact Hin.
    + simpl.
      destruct (Hread 0%nat p (Nat.le_0_l _) eq_refl) as (ds & bs & Hds & Hbs).
      rewrite Hds, Hbs.
      apply (@IH (S page_num) _ k page drawings blocks b); try assumption.
      * intros j q Hj Hq. apply (Hread (S j) q); [lia | exact Hq].
      * replace (S page_num + k)%nat with (page_num + S k)%nat by lia. exact Hin.
Qed.

(** C9.  On a page that is read (it and the pages in front of it can be
    introspected), every image block with a bounding box is emitted as a
    candidate box at that bounding box, for every darkness threshold
    (the block's colour is never looked at); and every filled drawing
    whose rect is present and whose fill passes the darkness test is
    emitted as well. *)
Theorem image_blocks_always_emitted
        (f : pdf) (thr : Q) (pages : list fitz_page) (k : nat) (page : fitz_page) :
  fitz_open f = Ok pages ->
  (forall j q, (j <= k)%nat -> nth_error pages j = Some q -> fitz_readable q) ->
  nth_error pages k = Some page ->
  exists boxes,
    Detect.detect_black_rectangles f thr = Ok boxes /\
    (forall blocks item bb,
        get_text_blocks page = Ok blocks -> In item blocks ->
        b_type item = Some 1%Z -> b_bbox item = Some bb ->
        In (mkBox k bb) boxes) /\
    (forall drawings d rect r g b rest,
        get_drawings page = Ok drawings -> In d drawings ->
        d_type d = Some "f"%string -> d_rect d = Some rect -> rect_truthy rect = true ->
        d_fill d = Some (r :: g :: b :: rest) ->
        r <= thr -> g <= thr -> b <= thr ->
        In (mkBox k rect) boxes).
Proof.
  intros Hopen Hread Hnth.
  unfold Detect.detect_black_rectangles. rewrite Hopen.
  eexists. split; [reflexivity|].
  destruct (Hread k page (Nat.le_refl k) Hnth) as (ds & bs & Hds & Hbs).
  split.
  - intros blocks item bb Hb Hin Hty Hbb.
    rewrite Hbs in Hb. injection Hb as <-.
    apply (@rectangles_loop_page thr pages 0%nat [] k page ds bs _ Hread Hnth Hds Hbs).
    apply in_or_app. right. apply in_flat_map. exists item. split; [exact Hin|].
    unfold Detect.box_of_block. rewrite Hty, Hbb. destruct bb. left. reflexivity.
  - intros drawings d rect r g b rest Hd Hin Hty Hrect Htruthy Hfill Hr Hg Hbl.
    rewrite Hds in Hd. injection Hd as <-.
    apply (@rectangles_loop_page thr pages 0%nat [] k page ds bs _ Hread Hnth Hds Hbs).
    apply in_or_app. left. apply in_flat_map. exists d. split; [exact Hin|].
    unfold Detect.box_of_drawing. rewrite Hty, Hrect, Hfill. simpl.
    rewrite Htruthy.
    apply Qle_bool_iff in Hr, Hg, Hbl. rewrite Hr, Hg, Hbl. simpl.
    destruct rect. left. reflexivity.
Qed.

(** The theorem on a one-page file with a white filled drawing and an
    image block at [(0,0,100,20)]: the image block is emitted. *)
Lemma image_blocks_always_emitted_witness :
  let page := mkFitzPage
                (Ok [mkDrawing (Some "f"%string) (Some (mkBBox 0 0 50 50)) (Some [1; 1; 1])])
                (Ok [mkBlock (Some 1%Z) (Some (mkBBox 0 0 100 20))]) in
  let f := mkPdf (Ok [page]) (Ok []) in
  exists boxes,
    Detect.detect_black_rectangles f Detect.default_black_threshold = Ok boxes /\
    In (mkBox 0 (mkBBox 0 0 100 20)) boxes.
Proof.
  intros page f.
  assert (Hread : forall j q, (j <= 0)%nat -> nth_error [page] j = Some q -> fitz_readable q).
  { intros j q Hj Hq. destruct j as [|j]; [|lia].
    simpl in Hq. injection Hq as <-.
    eexists. eexists. split; reflexivity. }
  destruct (image_blocks_always_emitted f Detect.default_black_threshold
              (pages := [page]) (k := 0) (page := page) eq_refl Hread eq_refl)
    as (boxes & Hb & Himg & _).
  exists boxes. split; [exact Hb|].
  apply (Himg _ (mkBlock (Some 1%Z) (Some (mkBBox 0 0 100 20))) _ eq_refl);
    [left; reflexivity | reflexivity | reflexivity].
Defined.

(* ===================================================================== *)
(** ** Recovered text of a box                                            *)
(* ===================================================================== *)

Lemma string_app_nil_r (s : string) : (s ++ "")%string = s.
Proof.
  induction s as [|c s IH]; simpl; [reflexivity | rewrite IH; reflexivity].
Qed.

Lemma string_app_assoc (s1 s2 s3 : string) :
  ((s1 ++ s2) ++ s3)%string = (s1 ++ (s2 ++ s3))%string.
Proof.
  induction s1 as [|c s1 IH]; simpl; [reflexivity | rewrite IH; reflexivity].
Qed.

Lemma join_cons (s : string) (l : list string) : join (s :: l) = (s ++ join l)%string.
Proof.
  unfold join. simpl. destruct l as [|s' l].
  - simpl. symmetry. apply string_app_nil_r.
  - reflexivity.
Qed.

Lemma join_single (s : string) : join [s] = s.
Proof.
  reflexivity.
Qed.

Lemma join_app (l1 l2 : list string) : join (l1 ++ l2) = (join l1 ++ join l2)%string.
Proof.
  induction l1 as [|s l1 IH].
  - reflexivity.
  - rewrite <- app_comm_cons, !join_cons, IH, string_app_assoc. reflexivity.
Qed.

(** C8.  The text recovered for a box is built glyph by glyph along the
    character stream: the text of a stream [l1 ++ l2] is the text of [l1]
    followed by the text of [l2], a single glyph contributes its text when
    it is on the box's page and passes [boxes_overlap], and nothing
    otherwise.  Hence the texts of the matching glyphs are concatenated in
    their encounter order, whatever their positions are.  This holds for
    [test_pdf] and for [test_redaction_overlap]. *)
Theorem recovered_text_in_encounter_order (b : box) :
  (FindImproper.recovered_text b [] = ""%string /\
   (forall c : glyph,
       FindImproper.recovered_text b [c] =
       if Nat.eqb (ch_page c) (box_page b)
          && FindImproper.boxes_overlap b c FindImproper.default_threshold
       then ch_text c else ""%string) /\
   (forall l1 l2 : list glyph,
       FindImproper.recovered_text b (l1 ++ l2) =
       (FindImproper.recovered_text b l1 ++ FindImproper.recovered_text b l2)%string)) /\
  (TestBox.hidden_text b [] = ""%string /\
   (forall c : glyph,
       TestBox.hidden_text b [c] =
       if Nat.eqb (ch_page c) (box_page b) && TestBox.boxes_overlap b c (3 # 10)
       then ch_text c else ""%string) /\
   (forall l1 l2 : list glyph,
       TestBox.hidden_text b (l1 ++ l2) =
       (TestBox.hidden_text b l1 ++ TestBox.hidden_text b l2)%string)) /\
  (forall (text_chars : list glyph) (a : FindImproper.area),
      In a (FindImproper.area_of_box text_chars b) ->
      FindImproper.a_text a = FindImproper.recovered_text b text_chars).
Proof.
  split; [|split].
  - split; [reflexivity|]. split.
    + intro c.
      unfold FindImproper.recovered_text, FindImproper.box_chars, FindImproper.page_chars.
      simpl. destruct (Nat.eqb (ch_page c) (box_page b)); simpl; [|reflexivity].
      destruct (FindImproper.boxes_overlap b c FindImproper.default_threshold);
        reflexivity.
    + intros l1 l2.
      unfold FindImproper.recovered_text, FindImproper.box_chars, FindImproper.page_chars.
      rewrite !filter_app, map_app, join_app. reflexivity.
  - split; [reflexivity|]. split.
    + intro c. unfold TestBox.hidden_text, TestBox.box_overlaps.
      simpl. destruct (Nat.eqb (ch_page c) (box_page b)); simpl; [|reflexivity].
      destruct (TestBox.boxes_overlap b c (3 # 10)); reflexivity.
    + intros l1 l2. unfold TestBox.hidden_text, TestBox.box_overlaps.
      rewrite !filter_app, map_app, join_app. reflexivity.
  - intros text_chars a Hin. unfold FindImproper.area_of_box in Hin.
    destruct (FindImproper.box_chars b text_chars); simpl in Hin.
    + contradiction.
    + destruct Hin as [<-|[]]. reflexivity.
Qed.

(** The theorem on a box [(0,0,100,20)] over two glyphs: "B" at x = 50
    comes first in the stream and "A" at x = 10 second; the recovered text
    is "BA", stream order, not left-to-right order. *)
Lemma recovered_text_in_encounter_order_witness :
  let b := mkBox 0 (mkBBox 0 0 100 20) in
  let gB := mkGlyph 0 "B" (mkBBox 50 5 60 15) in
  let gA := mkGlyph 0 "A" (mkBBox 10 5 20 15) in
  FindImproper.recovered_text b [gB; gA] = "BA"%string /\
  FindImproper.a_text (FindImproper.mkArea 0 "BA" 2) = FindImproper.recovered_text b [gB; gA].
Proof.
  intros b gB gA.
  destruct (recovered_text_in_encounter_order b) as ((_ & H1 & Happ) & _ & Harea).
  split.
  - change [gB; gA] with ([gB] ++ [gA]). rewrite Happ, !H1. reflexivity.
  - apply (Harea [gB; gA]). left. reflexivity.
Defined.

(* ===================================================================== *)
(** ** Line clustering                                                    *)
(* ===================================================================== *)

Section SortedFacts.
Variable A : Type.
Variable lt : A -> A -> bool.

Lemma insert_sorted_perm (x : A) (l : list A) :
  Permutation (x :: l) (insert_sorted lt x l).
Proof.
  induction l as [|y l IH]; simpl.
  - apply Permutation_refl.
  - destruct (lt y x).
    + apply perm_trans with (y :: x :: l); [apply perm_swap|].
      apply perm_skip. exact IH.
    + apply Permutation_refl.
Qed.

(** [sorted] rearranges its input. *)
Lemma sorted_perm (l : list A) : Permutation l (sorted lt l).
Proof.
  induction l as [|x l IH]; simpl.
  - apply perm_nil.
  - apply perm_trans with (x :: sorted lt l); [apply perm_skip; exact IH|].
    apply insert_sorted_perm.
Qed.

Lemma sorted_length (l : list A) : List.length (sorted lt l) = List.length l.
Proof.
  symmetry. apply Permutation_length. apply sorted_perm.
Qed.

(** [sorted] is stable: among elements none of which is smaller than
    another, the input order is kept. *)
Lemma insert_sorted_filter (p : A -> bool) (x : A) (l : list A) :
  (forall y, p x = true -> p y = true -> lt y x = false) ->
  filter p (insert_sorted lt x l) = filter p (x :: l).
Proof.
  intro Hp. induction l as [|y l IH]; [reflexivity|].
  cbn [insert_sorted]. destruct (lt y x) eqn:E; [|reflexivity].
  cbn [filter] in *. rewrite IH.
  destruct (p x) eqn:Ex; [|reflexivity].
  destruct (p y) eqn:Ey; [|reflexivity].
  rewrite (Hp y eq_refl Ey) in E. discriminate E.
Qed.

Lemma sorted_filter (p : A -> bool) (l : list A) :
  (forall x y, p x = true -> p y = true -> lt y x = false) ->
  filter p (sorted lt l) = filter p l.
Proof.
  intro Hp. induction l as [|x l IH]; [reflexivity|].
  cbn [sorted]. rewrite insert_sorted_filter.
  - cbn [filter]. rewrite IH. reflexivity.
  - intros y Hx Hy. apply Hp; assumption.
Qed.

Hypothesis lt_asym : forall x y, lt x y = true -> lt y x = false.

Lemma insert_sorted_ordered (x : A) (l : list A) :
  Sorted (fun a b => lt b a = false) l ->
  Sorted (fun a b => lt b a = false) (insert_sorted lt x l).
Proof.
  induction l as [|y l IH]; intro Hs; simpl.
  - constructor; constructor.
  - destruct (lt y x) eqn:E.
    + inversion Hs as [|? ? Hs' Hhd]; subst.
      constructor; [apply IH; exact Hs'|].
      destruct l as [|z l]; simpl.
      * constructor. apply lt_asym. exact E.
      * destruct (lt z x) eqn:E'.
        -- inversion Hhd; subst. constructor. assumption.
        -- constructor. apply lt_asym. exact E.
    + constructor; [exact Hs|]. constructor. exact E.
Qed.

(** The result of [sorted] is in non-decreasing key order. *)
Lemma sorted_ordered (l : list A) : Sorted (fun a b => lt b a = false) (sorted lt l).
Proof.
  induction l as [|x l IH]; simpl.
  - constructor.
  - apply insert_sorted_ordered. exact IH.
Qed.
End SortedFacts.

Lemma line_key_lt_asym (w1 w2 : word) :
  Extract.line_key_lt w1 w2 = true -> Extract.line_key_lt w2 w1 = false.
Proof.
  unfold Extract.line_key_lt.
  destruct (Qeq_bool (Extract.top_of w1) (Extract.top_of w2)) eqn:E1;
  destruct (Qeq_bool (Extract.top_of w2) (Extract.top_of w1)) eqn:E2;
  intro H; apply Qltb_lt in H; try (apply Qltb_ge; lra).
  - apply Qeq_bool_iff in E1. apply Qeq_bool_neq in E2. exfalso. apply E2. lra.
  - apply Qeq_bool_iff in E2. apply Qeq_bool_neq in E1. exfalso. apply E1. lra.
Qed.

(** *** The loop against the walk, in any arithmetic *)

Section ClusteringFacts.
Variable num : Type.
Variable W : Type.
Variable top_of : W -> num.
Variable x0_of : W -> num.
Variables add sub mul div : num -> num -> num.
Variable absolute : num -> num.
Variables leb ltb eqb : num -> num -> bool.
Variable of_nat : nat -> num.

Local Abbreviation step := (Generic.group_step top_of add sub mul div absolute leb of_nat).
Local Abbreviation include := (Walk.include add mul div of_nat).
Local Abbreviation average := (Walk.running_average top_of add mul div of_nat).
Local Abbreviation walk := (Walk.cluster_walk top_of add sub mul div absolute leb of_nat).
Local Abbreviation update :=
  (fun (st : num * nat) (x : W) => (include (fst st) (S (snd st)) (top_of x), S (snd st))).

(** The counter carried along with the running average is the number of
    words seen. *)
Lemma running_count (rest : list W) :
  forall (a : num) (n : nat),
    snd (fold_left update rest (a, n)) = (n + List.length rest)%nat.
Proof.
  induction rest as [|x rest IH]; intros a n; simpl.
  - lia.
  - rewrite IH. simpl. lia.
Qed.

(** The running average of a cluster with one more word is one update of
    the running average of the cluster: no law of arithmetic is used. *)
Lemma running_average_snoc (c : list W) (w : W) :
  c <> [] ->
  average (c ++ [w]) = include (average c) (List.length (c ++ [w])) (top_of w).
Proof.
  intro Hne. destruct c as [|x c]; [congruence|].
  unfold Walk.running_average.
  change ((x :: c) ++ [w]) with (x :: (c ++ [w])). cbv beta iota.
  rewrite fold_left_app. cbn [fold_left fst snd].
  rewrite running_count.
  replace (List.length (x :: c ++ [w])) with (S (1 + List.length c)).
  - reflexivity.
  - simpl. rewrite length_app. simpl. lia.
Qed.

(** One iteration of the loop on a cluster that is already open. *)
Lemma group_step_open (line_tol : num) (ls : list (list W)) (c : list W) (ct : num) (w : W) :
  step line_tol (Generic.mkGrouping ls c (Some ct)) w =
  if leb (absolute (sub (top_of w) ct)) line_tol
  then Generic.mkGrouping ls (c ++ [w])
         (Some (include ct (List.length (c ++ [w])) (top_of w)))
  else Generic.mkGrouping (ls ++ [c]) [w] (Some (top_of w)).
Proof.
  reflexivity.
Qed.

(** The loop, started on a non-empty cluster with [current_top] holding its
    running average, produces the clusters of the walk. *)
Lemma group_fold_walk (line_tol : num) (ws : list W) :
  forall (ls : list (list W)) (c : list W),
    c <> [] ->
    let st := fold_left (step line_tol) ws (Generic.mkGrouping ls c (Some (average c))) in
    Generic.current st <> [] /\
    Generic.lines st ++ [Generic.current st] = ls ++ walk line_tol c ws.
Proof.
  induction ws as [|w rest IH]; intros ls c Hne; cbv zeta.
  - split; [exact Hne | reflexivity].
  - change (fold_left (step line_tol) (w :: rest)
              (Generic.mkGrouping ls c (Some (average c))))
      with (fold_left (step line_tol) rest
              (step line_tol (Generic.mkGrouping ls c (Some (average c))) w)).
    rewrite group_step_open.
    change (walk line_tol c (w :: rest))
      with (if leb (absolute (sub (top_of w) (average c))) line_tol
            then walk line_tol (c ++ [w]) rest
            else c :: walk line_tol [w] rest).
    destruct (leb (absolute (sub (top_of w) (average c))) line_tol).
    + rewrite <- (running_average_snoc w Hne).
      apply IH.
      intro H. apply app_eq_nil in H. destruct H as [_ H]. discriminate H.
    + specialize (IH (ls ++ [c]) [w]).
      cbv zeta in IH. rewrite <- app_assoc in IH. apply IH. discriminate.
Qed.

(** In any arithmetic, [group_words_into_lines] sorts the words and then
    clusters them as the running-average walk does. *)
Lemma clustering_in_any_arithmetic (words : list W) (line_tol : num) :
  Generic.group_words_into_lines top_of x0_of add sub mul div absolute leb ltb eqb
    of_nat words line_tol =
  Walk.line_clustering top_of add sub mul div absolute leb of_nat
    (sorted (Generic.line_key_lt top_of x0_of ltb eqb) words) line_tol.
Proof.
  unfold Generic.group_words_into_lines, Walk.line_clustering.
  destruct words as [|w0 ws]; [reflexivity|].
  remember (w0 :: ws) as words eqn:Hw.
  destruct (sorted (Generic.line_key_lt top_of x0_of ltb eqb) words) as [|w rest] eqn:Hs.
  - exfalso.
    pose proof (Permutation_length
                  (sorted_perm (Generic.line_key_lt top_of x0_of ltb eqb) words)) as Hl.
    rewrite Hs, Hw in Hl. discriminate Hl.
  - cbv zeta.
    change (fold_left (step line_tol) (w :: rest) (Generic.mkGrouping [] [] None))
      with (fold_left (step line_tol) rest
              (Generic.mkGrouping [] [w] (Some (average [w])))).
    destruct (@group_fold_walk line_tol rest [] [w]) as [Hne Heq].
    + discriminate.
    + cbv zeta in Hne, Heq.
      destruct (Generic.current
                  (fold_left (step line_tol) rest
                     (Generic.mkGrouping [] [w] (Some (average [w]))))) eqn:Ec.
      * congruence.
      * exact Heq.
Qed.

(** The clusters of the walk, put end to end, are the words walked. *)
Lemma walk_concat (line_tol : num) (ws : list W) :
  forall c : list W, List.concat (walk line_tol c ws) = c ++ ws.
Proof.
  induction ws as [|w rest IH]; intro c; simpl.
  - reflexivity.
  - destruct (leb _ _).
    + rewrite IH, <- app_assoc. reflexivity.
    + simpl. rewrite IH. reflexivity.
Qed.

(** No cluster of the walk is empty. *)
Lemma walk_nonempty (line_tol : num) (ws : list W) :
  forall c : list W,
    c <> [] -> Forall (fun cl : list W => cl <> []) (walk line_tol c ws).
Proof.
  induction ws as [|w rest IH]; intros c Hc; simpl.
  - constructor; [exact Hc | constructor].
  - destruct (leb _ _).
    + apply IH. intro H. apply app_eq_nil in H. destruct H as [_ H]. discriminate H.
    + constructor; [exact Hc|]. apply IH. discriminate.
Qed.

End ClusteringFacts.

(** *** The instance at exact rationals *)

(** One iteration of the loop of [Extract] on a cluster that is already
    open. *)
Lemma extract_group_step_open (line_tol : Q) (ls : list (list word)) (c : list word)
      (ct : Q) (w : word) :
  Extract.group_step line_tol (Extract.mkGrouping ls c (Some ct)) w =
  if Qle_bool (Qabs (Extract.top_of w - ct)) line_tol
  then Extract.mkGrouping ls (c ++ [w])
         (Some ((ct * inject_Z (Z.of_nat (List.length (c ++ [w]) - 1)) + Extract.top_of w)
                / inject_Z (Z.of_nat (List.length (c ++ [w])))))
  else Extract.mkGrouping (ls ++ [c]) [w] (Some (Extract.top_of w)).
Proof.
  reflexivity.
Qed.

(** The loop of [Extract] and the loop of [Generic] at [Q] go through the
    same states. *)
Lemma group_fold_rational (line_tol : Q) (ws : list word) :
  forall (ls : list (list word)) (c : list word) (ct : option Q),
    let s1 := fold_left (Extract.group_step line_tol) ws (Extract.mkGrouping ls c ct) in
    let s2 := fold_left (Generic.group_step Extract.top_of Qplus Qminus Qmult Qdiv Qabs
                           Qle_bool (fun n => inject_Z (Z.of_nat n)) line_tol)
                        ws (Generic.mkGrouping ls c ct) in
    Extract.lines s1 = Generic.lines s2 /\ Extract.current s1 = Generic.current s2.
Proof.
  induction ws as [|w rest IH]; intros ls c ct; cbv zeta.
  - split; reflexivity.
  - cbn [fold_left]. destruct ct as [ct|].
    + rewrite extract_group_step_open, group_step_open.
      destruct (Qle_bool (Qabs (Extract.top_of w - ct)) line_tol); apply IH.
    + apply IH.
Qed.

(** [Extract.group_words_into_lines] is [Generic.group_words_into_lines]
    at exact rationals. *)
Lemma group_words_into_lines_rational (words : list word) (line_tol : Q) :
  Extract.group_words_into_lines words line_tol =
  Generic.group_words_into_lines Extract.top_of Extract.x0_of Qplus Qminus Qmult Qdiv
    Qabs Qle_bool Qltb Qeq_bool (fun n => inject_Z (Z.of_nat n)) words line_tol.
Proof.
  unfold Extract.group_words_into_lines, Generic.group_words_into_lines.
  destruct words as [|w0 ws]; [reflexivity|]. cbv zeta.
  change (sorted (Generic.line_key_lt Extract.top_of Extract.x0_of Qltb Qeq_bool) (w0 :: ws))
    with (sorted Extract.line_key_lt (w0 :: ws)).
  destruct (@group_fold_rational line_tol (sorted Extract.line_key_lt (w0 :: ws))
              [] [] None) as [Hl Hc].
  cbv zeta in Hl, Hc. rewrite Hl, Hc. reflexivity.
Qed.

(** [group_words_into_lines] on a non-empty page, through the walk. *)
Lemma group_words_sorted_walk (words : list word) (line_tol : Q) (w : word) (rest : list word) :
  sorted Extract.line_key_lt words = w :: rest ->
  Extract.group_words_into_lines words line_tol = cluster_walk line_tol [w] rest.
Proof.
  intro Hs.
  rewrite group_words_into_lines_rational, clustering_in_any_arithmetic.
  change (sorted (Generic.line_key_lt Extract.top_of Extract.x0_of Qltb Qeq_bool) words)
    with (sorted Extract.line_key_lt words).
  rewrite Hs. reflexivity.
Qed.

(** One step of the walk over exact rationals. *)
Lemma cluster_walk_cons (line_tol : Q) (c : list word) (w : word) (rest : list word) :
  cluster_walk line_tol c (w :: rest) =
  if Qle_bool (Qabs (Extract.top_of w - running_average c)) line_tol
  then cluster_walk line_tol (c ++ [w]) rest
  else c :: cluster_walk line_tol [w] rest.
Proof.
  reflexivity.
Qed.

Lemma cluster_walk_nil (line_tol : Q) (c : list word) : cluster_walk line_tol c [] = [c].
Proof.
  reflexivity.
Qed.

Lemma cluster_walk_concat (line_tol : Q) (ws : list word) :
  forall c : list word, List.concat (cluster_walk line_tol c ws) = c ++ ws.
Proof.
  intro c. unfold cluster_walk. apply walk_concat.
Qed.

Lemma cluster_walk_nonempty (line_tol : Q) (ws : list word) :
  forall c : list word,
    c <> [] -> Forall (fun cl : list word => cl <> []) (cluster_walk line_tol c ws).
Proof.
  intros c Hc. unfold cluster_walk. apply walk_nonempty. exact Hc.
Qed.

(** *** The sort key *)

Lemma line_key_le_iff (a b : word) :
  Extract.line_key_lt b a = false <-> key_le a b.
Proof.
  unfold Extract.line_key_lt, key_le.
  destruct (Qeq_bool (Extract.top_of b) (Extract.top_of a)) eqn:E.
  - apply Qeq_bool_iff in E. rewrite Qltb_ge. split.
    + intro H. right. split; [lra | exact H].
    + intros [H|[_ H]]; [lra | exact H].
  - apply Qeq_bool_neq in E. rewrite Qltb_ge. split.
    + intro H. left. destruct (Qlt_le_dec (Extract.top_of a) (Extract.top_of b)) as [Hlt|Hle].
      * exact Hlt.
      * exfalso. apply E. lra.
    + intros [H|[H _]]; [lra | exfalso; apply E; lra].
Qed.

Lemma line_key_le_trans (a b c : word) :
  Extract.line_key_lt b a = false -> Extract.line_key_lt c b = false ->
  Extract.line_key_lt c a = false.
Proof.
  rewrite !line_key_le_iff. unfold key_le.
  intros [H1|[H1 H1']] [H2|[H2 H2']].
  - left. lra.
  - left. lra.
  - left. lra.
  - right. split; lra.
Qed.

(** Two words with the same key are not ordered by [line_key_lt]. *)
Lemma same_key_not_lt (w x y : word) :
  same_key w x = true -> same_key w y = true -> Extract.line_key_lt y x = false.
Proof.
  unfold same_key. intros Hx Hy.
  apply andb_true_iff in Hx. destruct Hx as [Hx1 Hx2].
  apply andb_true_iff in Hy. destruct Hy as [Hy1 Hy2].
  apply Qeq_bool_iff in Hx1, Hx2, Hy1, Hy2.
  apply line_key_le_iff. right. split; lra.
Qed.

(** The list [sorted] returns for the key [(top, x0)] is the input in key
    order. *)
Lemma sorted_in_key_order (words : list word) :
  in_key_order words (sorted Extract.line_key_lt words).
Proof.
  split; [|split].
  - apply sorted_perm.
  - assert (Hs : StronglySorted (fun a b => Extract.line_key_lt b a = false)
                                (sorted Extract.line_key_lt words)).
    { apply Sorted_StronglySorted.
      - intros a b c Hab Hbc. apply (line_key_le_trans _ _ _ Hab Hbc).
      - apply sorted_ordered. apply line_key_lt_asym. }
    induction Hs as [|a l Hs IH Hall]; constructor.
    + exact IH.
    + eapply Forall_impl; [|exact Hall].
      intros b Hb. apply line_key_le_iff. exact Hb.
  - intro w. apply sorted_filter.
    intros x y Hx Hy. apply (same_key_not_lt w); assumption.
Qed.

(** *** Exact rationals against doubles *)

Lemma sum_tops_snoc (c : list word) (w : word) :
  sum_tops (c ++ [w]) == sum_tops c + Extract.top_of w.
Proof.
  induction c as [|x c IH]; simpl.
  - lra.
  - rewrite IH. lra.
Qed.

Lemma inject_length_snoc (c : list word) (w : word) :
  inject_Z (Z.of_nat (List.length (c ++ [w]))) == inject_Z (Z.of_nat (List.length c)) + 1.
Proof.
  rewrite length_app. simpl. rewrite Nat2Z.inj_add, inject_Z_plus. reflexivity.
Qed.

Lemma inject_length_pos (c : list word) :
  c <> [] -> 0 < inject_Z (Z.of_nat (List.length c)).
Proof.
  intro H. destruct c as [|x c]; [congruence|].
  unfold Qlt. simpl. lia.
Qed.

(** Over exact rationals one update of the mean of a cluster gives the
    mean of the enlarged cluster. *)
Lemma mean_top_snoc (c : list word) (w : word) (ct : Q) :
  c <> [] -> ct == mean_top c ->
  (ct * inject_Z (Z.of_nat (List.length (c ++ [w]) - 1)) + Extract.top_of w)
    / inject_Z (Z.of_nat (List.length (c ++ [w])))
  == mean_top (c ++ [w]).
Proof.
  intros Hne Hct. unfold mean_top in *.
  pose proof (inject_length_pos Hne) as Hpos.
  replace (List.length (c ++ [w]) - 1)%nat with (List.length c)
    by (rewrite length_app; simpl; lia).
  rewrite sum_tops_snoc, inject_length_snoc, Hct.
  field. lra.
Qed.

(** Over exact rationals the running average of a cluster is the
    arithmetic mean of its tops.  This is a fact of exact arithmetic only:
    see [doubles_running_average_drifts]. *)
Lemma exact_running_average_is_mean (c : list word) :
  c <> [] -> running_average c == mean_top c.
Proof.
  induction c as [|w c IH] using rev_ind; intro Hne; [congruence|].
  destruct c as [|x c].
  - unfold mean_top. simpl. field.
  - assert (Hc : x :: c <> []) by discriminate.
    unfold running_average.
    rewrite (running_average_snoc Extract.top_of Qplus Qmult Qdiv
               (fun n => inject_Z (Z.of_nat n)) w Hc).
    apply (mean_top_snoc w Hc). apply IH. exact Hc.
Qed.

(** With doubles the running average leaves the mean.  Four words with top
    0.1 and a tolerance of 0: after three words [current_top] is
    [(0.1 * 2 + 0.1) / 3 = 0.10000000000000002], the fourth word is not
    within 0 of it, and a second line is opened.  Over exact rationals the
    four words make one line. *)
Lemma doubles_running_average_drifts :
  let tenth := 0x1.999999999999ap-4%float in
  Doubles.group_words_into_lines
    [(tenth, 0%float); (tenth, 1%float); (tenth, 2%float); (tenth, 3%float)] 0%float =
  [[(tenth, 0%float); (tenth, 1%float); (tenth, 2%float)]; [(tenth, 3%float)]] /\
  let w := fun x : Q => mkWord None (Some x) None (Some (1 # 10)) None None in
  Extract.group_words_into_lines [w 0; w 1; w 2; w 3] 0 = [[w 0; w 1; w 2; w 3]].
Proof.
  split; vm_compute; reflexivity.
Qed.

(** C4.  [group_words_into_lines] takes the words in [(top, x0)] order (a
    rearrangement of the words, by top and then by left edge, words with
    the same key staying in the order they came in) and clusters them
    exactly as the running-average walk of the specification: a word joins
    the current cluster if and only if its top is within [line_tol] of the
    running average of the tops of the cluster, which is then updated to
    include it; otherwise the cluster is closed and a new one is opened with
    that word.  The running average is the one the update
    [(average * (n - 1) + top) / n] builds word after word.  The agreement
    of the code with the walk uses no law of arithmetic
    ([clustering_in_any_arithmetic]): it holds over exact rationals and,
    second part, at binary64, where the walk is over a rearrangement of the
    words. *)
Theorem group_words_into_lines_running_average :
  (forall (words : list word) (line_tol : Q),
     exists sorted_words : list word,
       in_key_order words sorted_words /\
       Extract.group_words_into_lines words line_tol =
       line_clustering sorted_words line_tol) /\
  (forall (words : list (float * float)) (line_tol : float),
     exists sorted_words : list (float * float),
       Permutation words sorted_words /\
       Doubles.group_words_into_lines words line_tol =
       line_clustering_doubles sorted_words line_tol).
Proof.
  split.
  - intros words line_tol.
    exists (sorted Extract.line_key_lt words). split.
    + apply sorted_in_key_order.
    + rewrite group_words_into_lines_rational.
      apply (clustering_in_any_arithmetic Extract.top_of Extract.x0_of Qplus Qminus Qmult
               Qdiv Qabs Qle_bool Qltb Qeq_bool (fun n => inject_Z (Z.of_nat n))).
  - intros words line_tol.
    exists (sorted (Generic.line_key_lt fst snd PrimFloat.ltb PrimFloat.eqb) words). split.
    + apply sorted_perm.
    + apply (clustering_in_any_arithmetic fst snd PrimFloat.add PrimFloat.sub PrimFloat.mul
               PrimFloat.div PrimFloat.abs PrimFloat.leb PrimFloat.ltb PrimFloat.eqb
               Doubles.of_len).
Qed.

(* ===================================================================== *)
(** ** Spacing reconstruction                                             *)
(* ===================================================================== *)

Lemma py_max_Qmax (a b : Q) : py_max a b = Qmax a b.
Proof.
  destruct (py_max_cases a b) as [[H ->]|[H ->]];
  destruct (Qmax_cases a b) as [[H' ->]|[H' ->]]; try reflexivity; lra.
Qed.

(** The separator of the code is the number of spaces of the
    specification. *)
Lemma separator_spaces (space_unit_pts : Q) (min_spaces : Z) (gap : Q) :
  Extract.separator space_unit_pts min_spaces gap =
  str_mul " " (spaces_for_gap space_unit_pts min_spaces gap).
Proof.
  unfold Extract.separator, spaces_for_gap.
  destruct (Qltb 0 gap).
  - rewrite py_max_Qmax. reflexivity.
  - assert (E : Qltb (- space_unit_pts * (3 # 10)) gap =
                Qltb (- (3 # 10) * space_unit_pts) gap).
    { unfold Qltb. f_equal.
      assert (Hq : - space_unit_pts * (3 # 10) == - (3 # 10) * space_unit_pts) by ring.
      rewrite Hq. reflexivity. }
    rewrite E. destruct (Qltb (- (3 # 10) * space_unit_pts) gap); reflexivity.
Qed.

Lemma reach_snoc (first : word) (before : list word) (w : word) :
  reach first (before ++ [w]) = py_max (reach first before) (Extract.x1_of w).
Proof.
  unfold reach. rewrite map_app, fold_left_app. reflexivity.
Qed.

(** [reach] is the largest [x1] seen so far. *)
Lemma reach_is_maximum (first : word) (before : list word) :
  (forall w, In w (first :: before) -> Extract.x1_of w <= reach first before) /\
  (exists w, In w (first :: before) /\ reach first before = Extract.x1_of w).
Proof.
  induction before as [|x before IH] using rev_ind.
  - split.
    + intros w [<-|[]]. apply Qle_refl.
    + exists first. split; [left; reflexivity | reflexivity].
  - destruct IH as [Hub (w0 & Hin0 & Heq0)].
    rewrite reach_snoc.
    destruct (py_max_cases (reach first before) (Extract.x1_of x)) as [[Hlt ->]|[Hle ->]].
    + split.
      * intros w [<-|Hin].
        -- apply Qle_trans with (reach first before);
             [apply Hub; left; reflexivity | apply Qlt_le_weak; exact Hlt].
        -- apply in_app_or in Hin. destruct Hin as [Hin|[<-|[]]].
           ++ apply Qle_trans with (reach first before);
                [apply Hub; right; exact Hin | apply Qlt_le_weak; exact Hlt].
           ++ apply Qle_refl.
      * exists x. split; [right; apply in_or_app; right; left; reflexivity | reflexivity].
    + split.
      * intros w [<-|Hin].
        -- apply Hub. left. reflexivity.
        -- apply in_app_or in Hin. destruct Hin as [Hin|[<-|[]]].
           ++ apply Hub. right. exact Hin.
           ++ exact Hle.
      * exists w0. split; [|exact Heq0].
        destruct Hin0 as [<-|Hin0]; [left; reflexivity|].
        right. apply in_or_app. left. exact Hin0.
Qed.

(** The loop over [line_words[1:]]: after the words of [done], [prev_x1]
    is their reach, and each further word adds the spaces of its gap to
    that reach, then its text. *)
Lemma spacing_fold (space_unit_pts : Q) (min_spaces : Z) (first : word) (todo : list word) :
  forall (done : list word) (st : Extract.spacing),
    Extract.prev_x1 st = reach first done ->
    join (Extract.parts (fold_left (Extract.spacing_step space_unit_pts min_spaces) todo st)) =
    (join (Extract.parts st) ++
     join (map (fun i =>
                  match nth_error (done ++ todo) i with
                  | Some w =>
                      str_mul " " (spaces_for_gap space_unit_pts min_spaces
                                     (gap_to_reach first (done ++ todo) i w))
                        ++ Extract.text_of w
                  | None => ""
                  end)
               (seq (List.length done) (List.length todo))))%string.
Proof.
  induction todo as [|w todo IH]; intros done st Hprev.
  - simpl. symmetry. apply string_app_nil_r.
  - change (fold_left (Extract.spacing_step space_unit_pts min_spaces) (w :: todo) st)
      with (fold_left (Extract.spacing_step space_unit_pts min_spaces) todo
              (Extract.spacing_step space_unit_pts min_spaces st w)).
    rewrite (IH (done ++ [w])).
    + assert (Eapp : (done ++ [w]) ++ todo = done ++ w :: todo)
        by (rewrite <- app_assoc; reflexivity).
      assert (Elen : List.length (done ++ [w]) = S (List.length done))
        by (rewrite length_app; simpl; lia).
      assert (Enth : nth_error (done ++ w :: todo) (List.length done) = Some w)
        by (rewrite nth_error_app2 by lia; rewrite Nat.sub_diag; reflexivity).
      assert (Efst : firstn (List.length done) (done ++ w :: todo) = done)
        by (rewrite firstn_app, Nat.sub_diag, firstn_all; simpl; apply app_nil_r).
      rewrite Eapp, Elen.
      change (List.length (w :: todo)) with (S (List.length todo)).
      rewrite <- cons_seq, map_cons, join_cons, Enth.
      unfold gap_to_reach at 2. rewrite Efst.
      unfold Extract.spacing_step at 1.
      change (Extract.parts
                (Extract.mkSpacing ?p ?a ?b)) with p.
      rewrite !join_app, !join_single, separator_spaces, Hprev.
      rewrite !string_app_assoc. reflexivity.
    + unfold Extract.spacing_step. simpl Extract.prev_x1.
      rewrite reach_snoc, Hprev. reflexivity.
Qed.

Lemma middle_nonempty (l : list Q) : l <> [] -> exists q, Extract.middle l = Some q.
Proof.
  intro H. unfold Extract.middle.
  destruct (nth_error l (Nat.div (List.length l) 2)) as [q|] eqn:E.
  - exists q. reflexivity.
  - exfalso. apply nth_error_None in E.
    destruct l as [|x l]; [congruence|].
    assert (Hlt : (Nat.div (List.length (x :: l)) 2 < List.length (x :: l))%nat)
      by (apply Nat.div_lt; simpl; lia).
    lia.
Qed.

(** When no earlier word reaches further right than the word just before,
    the gap to the reach is the gap to that word. *)
Lemma gap_to_reach_previous (first : word) (rest : list word) (i : nat) (w : word) :
  (forall v, In v (first :: firstn i rest) ->
             Extract.x1_of v <= Extract.x1_of (last (firstn i rest) first)) ->
  gap_to_reach first rest i w == gap_to_previous first rest i w.
Proof.
  intro Hmono. unfold gap_to_reach, gap_to_previous.
  destruct (reach_is_maximum first (firstn i rest)) as [Hub (v & Hin & Heq)].
  assert (Hlast : In (last (firstn i rest) first) (first :: firstn i rest)).
  { destruct (firstn i rest) as [|x l] eqn:E.
    - left. reflexivity.
    - right. rewrite <- E.
      assert (Hne : firstn i rest <> []) by (rewrite E; discriminate).
      destruct (exists_last Hne) as (l' & a & El). rewrite El.
      rewrite last_last. apply in_or_app. right. left. reflexivity. }
  pose proof (Hub _ Hlast) as H1.
  pose proof (Hmono _ Hin) as H2.
  rewrite <- Heq in H2. lra.
Qed.

(** C3 (as the code has it).  For a cluster whose words, sorted by [x0],
    are [first :: rest], [build_line_text] returns the text in which every
    word of [rest] is preceded by the spaces of its gap, the gap being the
    word's [x0] minus the largest [x1] among all the words in front of it:
    [max(min_spaces, round(gap / max(0.5, space_unit_pts)))] spaces when
    the gap is positive, one space when [-0.3 * space_unit_pts < gap <= 0],
    none otherwise. *)
Theorem build_line_text_gap_to_reach
        (cluster : list word) (space_unit_pts : Q) (min_spaces : Z)
        (first : word) (rest : list word) :
  sorted Extract.x0_lt cluster = first :: rest ->
  exists li,
    Extract.build_line_text cluster space_unit_pts min_spaces = Ok li /\
    Extract.li_text li = rebuilt_text gap_to_reach space_unit_pts min_spaces first rest.
Proof.
  intro Hs. unfold Extract.build_line_text. cbv zeta. rewrite Hs.
  destruct (@middle_nonempty (sorted Qltb (map Extract.top_of (first :: rest)))) as [q Hq].
  { intro H.
    pose proof (sorted_length Qltb (map Extract.top_of (first :: rest))) as Hl.
    rewrite H in Hl. discriminate Hl. }
  rewrite Hq. eexists. split; [reflexivity|].
  simpl Extract.li_text.
  rewrite (@spacing_fold space_unit_pts min_spaces first rest []
             (Extract.mkSpacing [Extract.text_of first] (Extract.x1_of first)
                                (Extract.x1_of first)) eq_refl).
  reflexivity.
Qed.

(** The theorem on three words of one line: "A" spans [0, 100], "B"
    spans [10, 20] and "C" spans [30, 40]. *)
Lemma build_line_text_gap_to_reach_witness :
  let A := mkWord (Some "A"%string) (Some 0) (Some 100) (Some 0) None None in
  let B := mkWord (Some "B"%string) (Some 10) (Some 20) (Some 0) None None in
  let C := mkWord (Some "C"%string) (Some 30) (Some 40) (Some 0) None None in
  exists li,
    Extract.build_line_text [C; A; B] 3 1 = Ok li /\
    Extract.li_text li = rebuilt_text gap_to_reach 3 1 A [B; C].
Proof.
  intros A B C.
  apply (@build_line_text_gap_to_reach [C; A; B] 3 1%Z A [B; C]).
  reflexivity.
Defined.

(** C3 as stated fails on the same three words: "B" lies inside the span
    of "A", so the gap in front of "C" is [30 - 100] for the code and
    [30 - 20] for the claim; the code returns "ABC" where the claim calls
    for three spaces in front of "C". *)
Lemma gap_to_previous_counterexample :
  let A := mkWord (Some "A"%string) (Some 0) (Some 100) (Some 0) None None in
  let B := mkWord (Some "B"%string) (Some 10) (Some 20) (Some 0) None None in
  let C := mkWord (Some "C"%string) (Some 30) (Some 40) (Some 0) None None in
  sorted Extract.x0_lt [A; B; C] = [A; B; C] /\
  (exists li, Extract.build_line_text [A; B; C] 3 1 = Ok li /\
              Extract.li_text li = "ABC"%string) /\
  rebuilt_text gap_to_previous 3 1 A [B; C] = "AB   C"%string /\
  gap_to_previous A [B; C] 1 C == 10 /\
  gap_to_reach A [B; C] 1 C == - (70).
Proof.
  cbv zeta. split; [reflexivity|]. split.
  - eexists. split; [vm_compute; reflexivity | reflexivity].
  - split; [vm_compute; reflexivity|]. split; vm_compute; reflexivity.
Qed.

(* ===================================================================== *)
(** ** Scenario 3                                                         *)
(* ===================================================================== *)

(** C7 (as the code has it).  For the words "Hello" (x0 = 0, x1 = 30,
    top = 100) and "World" (x0 = 40, x1 = 70, top = 100.5), with
    [line_tol = 2.0], [space_unit_pts = 5.0] and [min_spaces = 1], line
    reconstruction returns exactly one line; its text is "Hello  World"
    with two spaces, its [x0] is 0, its font size is the fallback height
    10, and its top is 100.5, the upper median of the two tops. *)
Theorem hello_world_single_line :
  let hello := mkWord (Some "Hello"%string) (Some 0) (Some 30) (Some 100) None None in
  let world := mkWord (Some "World"%string) (Some 40) (Some 70) (Some (201 # 2)) None None in
  Extract.group_words_into_lines [hello; world] 2 = [[hello; world]] /\
  py_round (gap_to_reach hello [world] 0 world / py_max (1 # 2) 5) = 2%Z /\
  exists ln,
    Extract.page_lines [hello; world] 2 5 1 = Ok [ln] /\
    Extract.l_text ln = "Hello  World"%string /\
    Extract.l_x0 ln == 0 /\
    Extract.l_top ln == 201 # 2 /\
    Extract.l_font_size ln == 10.
Proof.
  cbv zeta. split; [vm_compute; reflexivity|]. split; [vm_compute; reflexivity|].
  eexists. split; [vm_compute; reflexivity|].
  repeat split.
Qed.

(** C7 as stated fails in its last part: the top of the line is 100.5,
    a quarter point away from 100.25; the average 100.25 is only the value
    [current_top] holds while the words are clustered. *)
Lemma hello_world_top_counterexample :
  let hello := mkWord (Some "Hello"%string) (Some 0) (Some 30) (Some 100) None None in
  let world := mkWord (Some "World"%string) (Some 40) (Some 70) (Some (201 # 2)) None None in
  exists ln,
    Extract.page_lines [hello; world] 2 5 1 = Ok [ln] /\
    Extract.l_top ln == 201 # 2 /\
    ~ Extract.l_top ln == 401 # 4 /\
    Qabs (Extract.l_top ln - (401 # 4)) == 1 # 4 /\
    mean_top [hello; world] == 401 # 4.
Proof.
  cbv zeta. eexists. split; [vm_compute; reflexivity|].
  split; [reflexivity|]. split; [|split].
  - simpl. intro H. unfold Qeq in H. simpl in H. lia.
  - vm_compute. reflexivity.
  - vm_compute. reflexivity.
Qed.

(* ===================================================================== *)
(** ** More on the overlap predicates                                     *)
(* ===================================================================== *)

(** The intersection area against the widths the code computes. *)
Lemma intersection_area_code (a b : bbox) :
  let dx := py_min (bx1 a) (bx1 b) - py_max (bx0 a) (bx0 b) in
  let dy := py_min (by1 a) (by1 b) - py_max (by0 a) (by0 b) in
  ((dx <= 0 \/ dy <= 0) /\ intersection_area a b == 0) \/
  (0 < dx /\ 0 < dy /\ intersection_area a b == dx * dy /\
   dx <= bx1 b - bx0 b /\ dy <= by1 b - by0 b).
Proof.
  intros dx dy.
  destruct (common_length_code (bx0 a) (bx1 a) (bx0 b) (bx1 b)) as (_ & Hbx & Hx).
  destruct (common_length_code (by0 a) (by1 a) (by0 b) (by1 b)) as (_ & Hby & Hy).
  cbv zeta in Hbx, Hx, Hby, Hy. fold dx in Hbx, Hx. fold dy in Hby, Hy.
  unfold intersection_area.
  destruct Hx as [[Hx1 Hx2]|[Hx1 Hx2]]; destruct Hy as [[Hy1 Hy2]|[Hy1 Hy2]];
    rewrite Hx2, Hy2.
  - left. split; [left; exact Hx1 | lra].
  - left. split; [left; exact Hx1 | lra].
  - left. split; [right; exact Hy1 | lra].
  - right. repeat split; try assumption; reflexivity.
Qed.

Lemma intersection_area_nonneg (a b : bbox) : 0 <= intersection_area a b.
Proof.
  unfold intersection_area. apply Qmult_le_0_compat; apply common_length_nonneg.
Qed.

(** The intersection is never larger than the second rectangle when it is
    not empty. *)
Lemma intersection_area_le_area (a b : bbox) :
  0 < intersection_area a b -> intersection_area a b <= area b /\ 0 < area b.
Proof.
  intro Hpos.
  destruct (intersection_area_code a b) as [(_ & Hz)|(Hdx & Hdy & Hia & Hw & Hh)];
    cbv zeta in *.
  - lra.
  - rewrite Hia. unfold area.
    set (dx := py_min (bx1 a) (bx1 b) - py_max (bx0 a) (bx0 b)) in *.
    set (dy := py_min (by1 a) (by1 b) - py_max (by0 a) (by0 b)) in *.
    split.
    + apply Qle_trans with (dx * (by1 b - by0 b)).
      * rewrite (Qmult_comm dx dy), (Qmult_comm dx (by1 b - by0 b)).
        apply Qmult_le_compat_r; lra.
      * apply Qmult_le_compat_r; lra.
    + apply Qmult_lt_0_compat; lra.
Qed.

(** The ratio of the specification lies between 0 and 1. *)
Lemma overlapRatio_bounds (a b : bbox) : 0 <= overlapRatio a b <= 1.
Proof.
  unfold overlapRatio.
  destruct (Qeq_bool (area b) 0) eqn:E; [lra|].
  pose proof (intersection_area_nonneg a b) as Hnn.
  destruct (Qlt_le_dec 0 (intersection_area a b)) as [Hpos|Hle].
  - destruct (@intersection_area_le_area a b Hpos) as [Hle Hb]. split.
    + apply Qle_shift_div_l; lra.
    + apply Qle_shift_div_r; lra.
  - assert (Hz : intersection_area a b == 0) by lra.
    rewrite Hz. unfold Qdiv. rewrite Qmult_0_l. lra.
Qed.

(** [boxes_overlap] of find_improper_redactions.py at ANY threshold. *)
Lemma find_boxes_overlap_any (a b : bbox) (t : Q) :
  FindImproper.boxes_overlap a b t = true <->
  0 < intersection_area a b /\ t <= overlapRatio a b.
Proof.
  unfold FindImproper.boxes_overlap.
  destruct (intersection_area_code a b) as [(Hd & Hz)|(Hdx & Hdy & Hia & Hw & Hh)];
    cbv zeta in *.
  - assert (E : Qle_bool (py_min (bx1 a) (bx1 b)) (py_max (bx0 a) (bx0 b))
                || Qle_bool (py_min (by1 a) (by1 b)) (py_max (by0 a) (by0 b)) = true).
    { apply orb_true_iff. destruct Hd; [left|right]; apply Qle_bool_iff; lra. }
    rewrite E. split; [discriminate|]. intros [H _]. lra.
  - assert (E : Qle_bool (py_min (bx1 a) (bx1 b)) (py_max (bx0 a) (bx0 b))
                || Qle_bool (py_min (by1 a) (by1 b)) (py_max (by0 a) (by0 b)) = false).
    { apply orb_false_iff. split; apply Qle_bool_gt; lra. }
    rewrite E.
    assert (Hpos : 0 < intersection_area a b).
    { rewrite Hia. apply Qmult_lt_0_compat; assumption. }
    destruct (@intersection_area_le_area a b Hpos) as [_ Hb].
    assert (E2 : Qltb 0 ((bx1 b - bx0 b) * (by1 b - by0 b)) = true)
      by (apply Qltb_lt; exact Hb).
    rewrite E2, Qle_bool_iff.
    split.
    + intro H. split; [exact Hpos|].
      rewrite overlapRatio_nonzero_area by lra. rewrite Hia. exact H.
    + intros [_ H].
      rewrite overlapRatio_nonzero_area in H by lra. rewrite Hia in H. exact H.
Qed.

(** The same for [boxes_overlap] of test_box_text_overlap.py. *)
Lemma test_boxes_overlap_any (a b : bbox) (t : Q) :
  TestBox.boxes_overlap a b t = true <->
  0 < intersection_area a b /\ t <= overlapRatio a b.
Proof.
  unfold TestBox.boxes_overlap.
  destruct (intersection_area_code a b) as [(Hd & Hz)|(Hdx & Hdy & Hia & Hw & Hh)];
    cbv zeta in *.
  - assert (E : Qle_bool (py_min (bx1 a) (bx1 b)) (py_max (bx0 a) (bx0 b))
                || Qle_bool (py_min (by1 a) (by1 b)) (py_max (by0 a) (by0 b)) = true).
    { apply orb_true_iff. destruct Hd; [left|right]; apply Qle_bool_iff; lra. }
    rewrite E. split; [discriminate|]. intros [H _]. lra.
  - assert (E : Qle_bool (py_min (bx1 a) (bx1 b)) (py_max (bx0 a) (bx0 b))
                || Qle_bool (py_min (by1 a) (by1 b)) (py_max (by0 a) (by0 b)) = false).
    { apply orb_false_iff. split; apply Qle_bool_gt; lra. }
    rewrite E.
    assert (Hpos : 0 < intersection_area a b).
    { rewrite Hia. apply Qmult_lt_0_compat; assumption. }
    destruct (@intersection_area_le_area a b Hpos) as [_ Hb].
    assert (E2 : Qeq_bool ((bx1 b - bx0 b) * (by1 b - by0 b)) 0 = false).
    { destruct (Qeq_bool ((bx1 b - bx0 b) * (by1 b - by0 b)) 0) eqn:E0; [|reflexivity].
      apply Qeq_bool_iff in E0. unfold area in Hb. lra. }
    rewrite E2, Qle_bool_iff.
    split.
    + intro H. split; [exact Hpos|].
      rewrite overlapRatio_nonzero_area by lra. rewrite Hia. exact H.
    + intros [_ H].
      rewrite overlapRatio_nonzero_area in H by lra. rewrite Hia in H. exact H.
Qed.

(** [rectangles_overlap] at any threshold; the glyph is its first
    argument. *)
Lemma rectangles_overlap_any (a b : bbox) (t : Q) :
  Detect.rectangles_overlap a b t = true <->
  0 < intersection_area b a /\ t <= overlapRatio b a.
Proof.
  unfold Detect.rectangles_overlap.
  destruct (intersection_area_code a b) as [(Hd & Hz)|(Hdx & Hdy & Hia & Hw & Hh)];
    cbv zeta in *.
  - assert (E : Qle_bool (py_min (bx1 a) (bx1 b)) (py_max (bx0 a) (bx0 b))
                || Qle_bool (py_min (by1 a) (by1 b)) (py_max (by0 a) (by0 b)) = true).
    { apply orb_true_iff. destruct Hd; [left|right]; apply Qle_bool_iff; lra. }
    rewrite E. split; [discriminate|]. intros [H _].
    rewrite intersection_area_sym in Hz. lra.
  - assert (E : Qle_bool (py_min (bx1 a) (bx1 b)) (py_max (bx0 a) (bx0 b))
                || Qle_bool (py_min (by1 a) (by1 b)) (py_max (by0 a) (by0 b)) = false).
    { apply orb_false_iff. split; apply Qle_bool_gt; lra. }
    rewrite E.
    rewrite intersection_area_sym in Hia.
    assert (Hpos : 0 < intersection_area b a).
    { rewrite Hia. apply Qmult_lt_0_compat; assumption. }
    destruct (@intersection_area_le_area b a Hpos) as [_ Ha].
    assert (E2 : Qeq_bool ((bx1 a - bx0 a) * (by1 a - by0 a)) 0 = false).
    { destruct (Qeq_bool ((bx1 a - bx0 a) * (by1 a - by0 a)) 0) eqn:E0; [|reflexivity].
      apply Qeq_bool_iff in E0. unfold area in Ha. lra. }
    rewrite E2, Qle_bool_iff.
    split.
    + intro H. split; [exact Hpos|].
      rewrite overlapRatio_nonzero_area by lra. rewrite Hia. exact H.
    + intros [_ H].
      rewrite overlapRatio_nonzero_area in H by lra. rewrite Hia in H. exact H.
Qed.

Lemma bool_eq_iff (x y : bool) : (x = true <-> y = true) -> x = y.
Proof.
  destruct x, y; intros [H1 H2]; try reflexivity.
  - symmetry. apply H1. reflexivity.
  - apply H2. reflexivity.
Qed.

(** X1.  The three overlap predicates are one and the same test, at every
    threshold (zero and negative ones included): both [boxes_overlap]
    functions agree, and [rectangles_overlap] agrees with them once its
    arguments are swapped. *)
Theorem overlap_predicates_agree (bx gl : bbox) (t : Q) :
  FindImproper.boxes_overlap bx gl t = TestBox.boxes_overlap bx gl t /\
  Detect.rectangles_overlap gl bx t = FindImproper.boxes_overlap bx gl t.
Proof.
  split; apply bool_eq_iff.
  - rewrite find_boxes_overlap_any, test_boxes_overlap_any. reflexivity.
  - rewrite find_boxes_overlap_any, rectangles_overlap_any. reflexivity.
Qed.

(** X2.  Whatever the threshold, zero and negative ones included, a match
    needs a box and a glyph that share area: rectangles that are disjoint
    or merely touch, and glyphs without area, are never matched. *)
Theorem no_match_without_common_area (bx gl : bbox) (t : Q) :
  disjoint bx gl \/ area gl == 0 ->
  FindImproper.boxes_overlap bx gl t = false /\
  TestBox.boxes_overlap bx gl t = false /\
  Detect.rectangles_overlap gl bx t = false.
Proof.
  intro H.
  assert (Hz : intersection_area bx gl == 0).
  { destruct H as [H|H];
      [apply disjoint_intersection_area | apply zero_area_intersection]; exact H. }
  repeat split.
  - destruct (FindImproper.boxes_overlap bx gl t) eqn:E; [|reflexivity].
    apply find_boxes_overlap_any in E. destruct E as [E _]. lra.
  - destruct (TestBox.boxes_overlap bx gl t) eqn:E; [|reflexivity].
    apply test_boxes_overlap_any in E. destruct E as [E _]. lra.
  - destruct (Detect.rectangles_overlap gl bx t) eqn:E; [|reflexivity].
    apply rectangles_overlap_any in E. destruct E as [E _]. lra.
Qed.

Lemma no_match_without_common_area_witness :
  FindImproper.boxes_overlap (mkBBox 0 0 10 10) (mkBBox 10 0 20 10) (- (1)) = false /\
  Detect.rectangles_overlap (mkBBox 3 3 3 8) (mkBBox 0 0 10 10) 0 = false.
Proof.
  split.
  - apply (@no_match_without_common_area (mkBBox 0 0 10 10) (mkBBox 10 0 20 10) (- (1))).
    left. left. unfold Qle. simpl. lia.
  - apply (@no_match_without_common_area (mkBBox 0 0 10 10) (mkBBox 3 3 3 8) 0).
    right. reflexivity.
Defined.

(** X3.  Lowering the threshold never loses a match. *)
Theorem overlap_antitone_in_threshold (bx gl : bbox) (t t' : Q) :
  t' <= t ->
  (FindImproper.boxes_overlap bx gl t = true -> FindImproper.boxes_overlap bx gl t' = true) /\
  (TestBox.boxes_overlap bx gl t = true -> TestBox.boxes_overlap bx gl t' = true) /\
  (Detect.rectangles_overlap gl bx t = true -> Detect.rectangles_overlap gl bx t' = true).
Proof.
  intro Hle. repeat split; intro H.
  - apply find_boxes_overlap_any in H. apply find_boxes_overlap_any.
    destruct H as [H1 H2]. split; [exact H1 | lra].
  - apply test_boxes_overlap_any in H. apply test_boxes_overlap_any.
    destruct H as [H1 H2]. split; [exact H1 | lra].
  - apply rectangles_overlap_any in H. apply rectangles_overlap_any.
    destruct H as [H1 H2]. split; [exact H1 | lra].
Qed.

Lemma overlap_antitone_in_threshold_witness :
  FindImproper.boxes_overlap (mkBBox 0 0 10 10) (mkBBox 5 0 15 10) (3 # 10) = true.
Proof.
  assert (Hle : (3 # 10) <= (1 # 2)) by (unfold Qle; simpl; lia).
  apply (proj1 (@overlap_antitone_in_threshold
                  (mkBBox 0 0 10 10) (mkBBox 5 0 15 10) _ _ Hle)).
  reflexivity.
Defined.

(** X4.  The ratio never exceeds 1, so a threshold above 1 matches
    nothing. *)
Theorem threshold_above_one_never_matches (bx gl : bbox) (t : Q) :
  1 < t ->
  FindImproper.boxes_overlap bx gl t = false /\
  TestBox.boxes_overlap bx gl t = false /\
  Detect.rectangles_overlap gl bx t = false.
Proof.
  intro Ht.
  pose proof (overlapRatio_bounds bx gl) as [_ Hb].
  repeat split.
  - destruct (FindImproper.boxes_overlap bx gl t) eqn:E; [|reflexivity].
    apply find_boxes_overlap_any in E. destruct E as [_ E]. lra.
  - destruct (TestBox.boxes_overlap bx gl t) eqn:E; [|reflexivity].
    apply test_boxes_overlap_any in E. destruct E as [_ E]. lra.
  - destruct (Detect.rectangles_overlap gl bx t) eqn:E; [|reflexivity].
    apply rectangles_overlap_any in E. destruct E as [_ E]. lra.
Qed.

Lemma threshold_above_one_never_matches_witness :
  FindImproper.boxes_overlap (mkBBox 0 0 10 10) (mkBBox 2 2 4 4) (11 # 10) = false.
Proof.
  apply (@threshold_above_one_never_matches (mkBBox 0 0 10 10) (mkBBox 2 2 4 4) (11 # 10)).
  reflexivity.
Defined.

(** X5.  The predicate is symmetric for rectangles of equal area: swapping
    box and glyph does not change the answer then. *)
Theorem overlap_symmetric_on_equal_areas (a b : bbox) (t : Q) :
  area a == area b ->
  FindImproper.boxes_overlap a b t = FindImproper.boxes_overlap b a t /\
  Detect.rectangles_overlap a b t = Detect.rectangles_overlap b a t.
Proof.
  intro Harea.
  assert (Hr : overlapRatio a b == overlapRatio b a).
  { unfold overlapRatio.
    assert (E : Qeq_bool (area a) 0 = Qeq_bool (area b) 0)
      by (rewrite Harea; reflexivity).
    rewrite E. destruct (Qeq_bool (area b) 0); [reflexivity|].
    rewrite (intersection_area_sym b a), Harea. reflexivity. }
  split; apply bool_eq_iff.
  - rewrite !find_boxes_overlap_any, (intersection_area_sym b a), Hr. reflexivity.
  - rewrite !rectangles_overlap_any, (intersection_area_sym b a), Hr. reflexivity.
Qed.

Lemma overlap_symmetric_on_equal_areas_witness :
  FindImproper.boxes_overlap (mkBBox 0 0 10 10) (mkBBox 5 0 15 10) (1 # 2) =
  FindImproper.boxes_overlap (mkBBox 5 0 15 10) (mkBBox 0 0 10 10) (1 # 2).
Proof.
  apply (@overlap_symmetric_on_equal_areas (mkBBox 0 0 10 10) (mkBBox 5 0 15 10) (1 # 2)).
  reflexivity.
Defined.

(* ===================================================================== *)
(** ** More on candidate redaction boxes                                  *)
(* ===================================================================== *)

(** Where a box given by a drawing comes from. *)
Lemma box_of_drawing_origin (thr : Q) (page_num : nat) (d : drawing) (b : box) :
  In b (Detect.box_of_drawing thr page_num d) ->
  box_page b = page_num /\
  d_type d = Some "f"%string /\
  d_rect d = Some (box_rect b) /\
  rect_truthy (box_rect b) = true /\
  dark_fill (d_fill d) thr = true.
Proof.
  unfold Detect.box_of_drawing. intro H.
  destruct (d_type d) as [ty|]; [|contradiction].
  destruct (string_dec ty "f") as [->|Hne].
  - simpl in H.
    destruct (d_rect d) as [rect|] eqn:Er; simpl in H; [|contradiction].
    destruct (rect_truthy rect) eqn:Et; simpl in H; [|contradiction].
    destruct (dark_fill (d_fill d) thr) eqn:Ed; simpl in H; [|contradiction].
    destruct H as [<-|[]]. destruct rect. simpl. repeat split; assumption.
  - exfalso.
    destruct ty as [|c ty]; [contradiction|].
    destruct c as [[] [] [] [] [] [] [] []]; try contradiction.
    destruct ty; [apply Hne; reflexivity | contradiction].
Qed.

(** Where a box given by a block comes from. *)
Lemma box_of_block_origin (page_num : nat) (item : block) (b : box) :
  In b (Detect.box_of_block page_num item) ->
  box_page b = page_num /\ b_type item = Some 1%Z /\ b_bbox item = Some (box_rect b).
Proof.
  unfold Detect.box_of_block. intro H.
  destruct (b_type item) as [ty|]; [|contradiction].
  destruct ty as [|p|p]; try contradiction.
  destruct p; try contradiction.
  destruct (b_bbox item) as [bb|]; [|contradiction].
  destruct H as [<-|[]]. destruct bb. simpl. repeat split; reflexivity.
Qed.

(** A box in the result of the page loop was there before or comes from a
    drawing or a block of one of the pages. *)
Lemma rectangles_loop_origin (thr : Q) (pages : list fitz_page) :
  forall (page_num : nat) (acc : list box) (b : box),
    In b (snd (Detect.rectangles_loop thr page_num pages acc)) ->
    In b acc \/
    exists k page,
      nth_error pages k = Some page /\ box_page b = (page_num + k)%nat /\
      ((exists drawings d,
           get_drawings page = Ok drawings /\ In d drawings /\
           d_type d = Some "f"%string /\ d_rect d = Some (box_rect b) /\
           rect_truthy (box_rect b) = true /\ dark_fill (d_fill d) thr = true) \/
       (exists blocks item,
           get_text_blocks page = Ok blocks /\ In item blocks /\
           b_type item = Some 1%Z /\ b_bbox item = Some (box_rect b))).
Proof.
  induction pages as [|page rest IH]; intros page_num acc b Hin; simpl in Hin.
  - left. exact Hin.
  - destruct (get_drawings page) as [drawings|e] eqn:Ed; [|left; exact Hin].
    assert (Hdraw : In b (flat_map (Detect.box_of_drawing thr page_num) drawings) ->
                    exists k p,
                      nth_error (page :: rest) k = Some p /\
                      box_page b = (page_num + k)%nat /\
                      ((exists drawings d,
                           get_drawings p = Ok drawings /\ In d drawings /\
                           d_type d = Some "f"%string /\ d_rect d = Some (box_rect b) /\
                           rect_truthy (box_rect b) = true /\
                           dark_fill (d_fill d) thr = true) \/
                       (exists blocks item,
                           get_text_blocks p = Ok blocks /\ In item blocks /\
                           b_type item = Some 1%Z /\ b_bbox item = Some (box_rect b)))).
    { intro H. apply in_flat_map in H. destruct H as (d & Hd & Hb).
      apply box_of_drawing_origin in Hb. destruct Hb as (Hp & Hty & Hr & Ht & Hf).
      exists 0%nat, page. split; [reflexivity|]. split; [lia|].
      left. exists drawings, d. repeat split; assumption. }
    destruct (get_text_blocks page) as [blocks|e] eqn:Eb; simpl in Hin.
    + apply IH in Hin. destruct Hin as [Hin|(k & p & Hnth & Hpage & Horigin)].
      * apply in_app_or in Hin. destruct Hin as [Hin|Hin].
        -- apply in_app_or in Hin. destruct Hin as [Hin|Hin];
             [left; exact Hin | right; apply Hdraw; exact Hin].
        -- right. apply in_flat_map in Hin. destruct Hin as (item & Hi & Hb).
           apply box_of_block_origin in Hb. destruct Hb as (Hp & Hty & Hbb).
           exists 0%nat, page. split; [reflexivity|]. split; [lia|].
           right. exists blocks, item. repeat split; assumption.
      * right. exists (S k), p. split; [exact Hnth|]. split; [lia | exact Horigin].
    + apply in_app_or in Hin. destruct Hin as [Hin|Hin];
        [left; exact Hin | right; apply Hdraw; exact Hin].
Qed.

(** X6.  Every box [detect_black_rectangles] returns sits on a page of the
    document and is either the rect of a filled drawing of that page whose
    fill passes the darkness test, or the bounding box of an image block
    of that page: nothing else is ever reported. *)
Theorem detected_boxes_have_an_origin (f : pdf) (thr : Q) (boxes : list box) (b : box) :
  Detect.detect_black_rectangles f thr = Ok boxes ->
  In b boxes ->
  exists pages page,
    fitz_open f = Ok pages /\
    nth_error pages (box_page b) = Some page /\
    ((exists drawings d,
         get_drawings page = Ok drawings /\ In d drawings /\
         d_type d = Some "f"%string /\ d_rect d = Some (box_rect b) /\
         rect_truthy (box_rect b) = true /\ dark_fill (d_fill d) thr = true) \/
     (exists blocks item,
         get_text_blocks page = Ok blocks /\ In item blocks /\
         b_type item = Some 1%Z /\ b_bbox item = Some (box_rect b))).
Proof.
  unfold Detect.detect_black_rectangles. intros Hd Hin.
  destruct (fitz_open f) as [pages|e] eqn:Eo.
  - injection Hd as <-.
    apply rectangles_loop_origin in Hin.
    destruct Hin as [[]|(k & page & Hnth & Hpage & Horigin)].
    simpl in Hpage. subst k.
    exists pages, page. repeat split; assumption.
  - injection Hd as <-. contradiction.
Qed.

Lemma detected_boxes_have_an_origin_witness :
  let page := mkFitzPage
                (Ok [mkDrawing (Some "f"%string) (Some (mkBBox 0 0 50 50)) (Some [0; 0; 0])])
                (Ok []) in
  let f := mkPdf (Ok [page]) (Ok []) in
  exists pages p,
    fitz_open f = Ok pages /\ nth_error pages 0 = Some p /\
    ((exists drawings d,
         get_drawings p = Ok drawings /\ In d drawings /\
         d_type d = Some "f"%string /\ d_rect d = Some (mkBBox 0 0 50 50) /\
         rect_truthy (mkBBox 0 0 50 50) = true /\
         dark_fill (d_fill d) Detect.default_black_threshold = true) \/
     (exists blocks item,
         get_text_blocks p = Ok blocks /\ In item blocks /\
         b_type item = Some 1%Z /\ b_bbox item = Some (mkBBox 0 0 50 50))).
Proof.
  intros page f.
  apply (@detected_boxes_have_an_origin f Detect.default_black_threshold
           [mkBox 0 (mkBBox 0 0 50 50)] (mkBox 0 (mkBBox 0 0 50 50))).
  - reflexivity.
  - left. reflexivity.
Defined.

Lemma dark_fill_monotone (color : option (list Q)) (thr thr' : Q) :
  thr <= thr' -> dark_fill color thr = true -> dark_fill color thr' = true.
Proof.
  intros Hle. unfold dark_fill.
  destruct color as [[|r [|g [|b rest]]]|]; try discriminate.
  rewrite !andb_true_iff, !Qle_bool_iff. intros [[Hr Hg] Hb].
  repeat split; lra.
Qed.

Lemma drawing_type_not_f (ty : string) (l : list box) :
  ty <> "f"%string -> match ty with "f"%string => l | _ => [] end = [].
Proof.
  intro Hne.
  destruct ty as [|c ty]; [reflexivity|].
  destruct c as [[] [] [] [] [] [] [] []]; try reflexivity.
  destruct ty; [exfalso; apply Hne; reflexivity | reflexivity].
Qed.

Lemma box_of_drawing_monotone (thr thr' : Q) (page_num : nat) (d : drawing) (b : box) :
  thr <= thr' ->
  In b (Detect.box_of_drawing thr page_num d) -> In b (Detect.box_of_drawing thr' page_num d).
Proof.
  intros Hle. unfold Detect.box_of_drawing.
  destruct (d_type d) as [ty|]; [|intro H; exact H].
  destruct (string_dec ty "f") as [->|Hne].
  - destruct (rect_present (d_rect d)); simpl; [|intro H; exact H].
    destruct (dark_fill (d_fill d) thr) eqn:E; [|intros []].
    rewrite (dark_fill_monotone _ Hle E). intro H. exact H.
  - rewrite !(drawing_type_not_f _ Hne). intro H. exact H.
Qed.

Lemma rectangles_loop_monotone (thr thr' : Q) (pages : list fitz_page) :
  thr <= thr' ->
  forall (page_num : nat) (acc acc' : list box),
    incl acc acc' ->
    incl (snd (Detect.rectangles_loop thr page_num pages acc))
         (snd (Detect.rectangles_loop thr' page_num pages acc')).
Proof.
  intro Hle. induction pages as [|page rest IH]; intros page_num acc acc' Hincl; simpl.
  - exact Hincl.
  - destruct (get_drawings page) as [drawings|e]; [|exact Hincl].
    assert (Hacc : incl (acc ++ flat_map (Detect.box_of_drawing thr page_num) drawings)
                        (acc' ++ flat_map (Detect.box_of_drawing thr' page_num) drawings)).
    { intros b Hb. apply in_app_or in Hb. apply in_or_app.
      destruct Hb as [Hb|Hb]; [left; apply Hincl; exact Hb|].
      right. apply in_flat_map in Hb. destruct Hb as (d & Hd & Hb).
      apply in_flat_map. exists d. split; [exact Hd|].
      apply (box_of_drawing_monotone _ _ _ Hle Hb). }
    destruct (get_text_blocks page) as [blocks|e]; simpl; [|exact Hacc].
    apply IH. intros b Hb. apply in_app_or in Hb. apply in_or_app.
    destruct Hb as [Hb|Hb]; [left; apply Hacc; exact Hb | right; exact Hb].
Qed.

(** X7.  Raising the darkness threshold never loses a candidate box:
    every box found at a threshold is found at any larger one. *)
Theorem detected_boxes_monotone_in_threshold (f : pdf) (thr thr' : Q) :
  thr <= thr' ->
  exists boxes boxes',
    Detect.detect_black_rectangles f thr = Ok boxes /\
    Detect.detect_black_rectangles f thr' = Ok boxes' /\
    incl boxes boxes'.
Proof.
  intro Hle. unfold Detect.detect_black_rectangles.
  destruct (fitz_open f) as [pages|e].
  - eexists. eexists. split; [reflexivity|]. split; [reflexivity|].
    apply rectangles_loop_monotone; [exact Hle | apply incl_refl].
  - exists [], []. repeat split. apply incl_refl.
Qed.

Lemma detected_boxes_monotone_in_threshold_witness :
  let page := mkFitzPage
                (Ok [mkDrawing (Some "f"%string) (Some (mkBBox 0 0 50 50))
                       (Some [18 # 100; 18 # 100; 18 # 100])])
                (Ok []) in
  exists boxes boxes',
    Detect.detect_black_rectangles (mkPdf (Ok [page]) (Ok [])) (15 # 100) = Ok boxes /\
    Detect.detect_black_rectangles (mkPdf (Ok [page]) (Ok [])) (2 # 10) = Ok boxes' /\
    incl boxes boxes'.
Proof.
  intro page.
  apply (@detected_boxes_monotone_in_threshold (mkPdf (Ok [page]) (Ok [])) (15 # 100) (2 # 10)).
  unfold Qle. simpl. lia.
Defined.

(* ===================================================================== *)
(** ** More on the file-level matcher                                     *)
(* ===================================================================== *)

(** The for/break over the boxes is an "is there a box" test. *)
Lemma scan_boxes_existsb (t : Q) (page_num : nat) (char : pchar) (page_boxes : list box) :
  Detect.scan_boxes t page_num char page_boxes =
  if existsb (fun b : box => Detect.rectangles_overlap (Detect.char_bbox char) b t) page_boxes
  then [FindImproper.char_record page_num char] else [].
Proof.
  induction page_boxes as [|b rest IH]; simpl.
  - reflexivity.
  - change (Detect.rectangles_overlap (Detect.char_bbox char)
              (mkBBox (bx0 b) (by0 b) (bx1 b) (by1 b)) t)
      with (Detect.rectangles_overlap (Detect.char_bbox char) b t).
    destruct (Detect.rectangles_overlap (Detect.char_bbox char) b t); simpl.
    + reflexivity.
    + exact IH.
Qed.

(** What the matcher of one page reports for one character. *)
Lemma scan_boxes_In (boxes : list box) (t : Q) (page_num : nat) (char : pchar) (g : glyph) :
  In g (Detect.scan_boxes t page_num char
          (filter (fun b => Nat.eqb (box_page b) page_num) boxes)) <->
  g = FindImproper.char_record page_num char /\
  exists b, In b boxes /\ box_page b = page_num /\ Detect.rectangles_overlap g b t = true.
Proof.
  rewrite scan_boxes_existsb.
  destruct (existsb _ _) eqn:E.
  - apply existsb_exists in E. destruct E as (b & Hb & Ho).
    apply filter_In in Hb. destruct Hb as [Hb Hp]. apply Nat.eqb_eq in Hp.
    split.
    + intros [<-|[]]. split; [reflexivity|]. exists b. repeat split; assumption.
    + intros [-> _]. left. reflexivity.
  - split; [intros []|].
    intros [-> (b & Hb & Hp & Ho)]. exfalso.
    assert (Ht : existsb (fun b : box => Detect.rectangles_overlap (Detect.char_bbox char) b t)
                   (filter (fun b => Nat.eqb (box_page b) page_num) boxes) = true).
    { apply existsb_exists. exists b. split; [|exact Ho].
      apply filter_In. split; [exact Hb | apply Nat.eqb_eq; exact Hp]. }
    congruence.
Qed.

Lemma isolated_matches_In (boxes : list box) (t : Q) (pages : list plumber_page) (g : glyph) :
  forall page_num : nat,
    In g (isolated_matches boxes t page_num pages) <->
    In g (isolated_glyphs page_num pages) /\
    exists b, In b boxes /\ box_page b = ch_page g /\ Detect.rectangles_overlap g b t = true.
Proof.
  induction pages as [|page rest IH]; intro page_num; simpl.
  - split; [intros [] | intros [[] _]].
  - rewrite !in_app_iff, IH, in_flat_map, in_map_iff. split.
    + intros [(char & Hc & Hin)|[Hin Hb]].
      * apply scan_boxes_In in Hin. destruct Hin as [-> (b & Hb & Hp & Ho)]. split.
        -- left. exists char. split; [reflexivity | exact Hc].
        -- exists b. repeat split; assumption.
      * split; [right; exact Hin | exact Hb].
    + intros [[(char & <- & Hc)|Hin] (b & Hb & Hp & Ho)].
      * left. exists char. split; [exact Hc|].
        apply scan_boxes_In. split; [reflexivity|]. exists b. repeat split; assumption.
      * right. split; [exact Hin|]. exists b. repeat split; assumption.
Qed.

(** X8.  The file-level matcher reports exactly the glyphs of the pages it
    read that overlap, at the threshold, some box of their own page: every
    reported character is such a glyph, and every such glyph is
    reported. *)
Theorem redacted_chars_characterised
        (f : pdf) (boxes : list box) (t : Q) (tc : Detect.text_check) (g : glyph) :
  Detect.check_text_under_boxes f boxes t = Ok tc ->
  (In g (Detect.redacted_chars tc) <->
   In g (isolated_glyphs 0 (readable_prefix (plumber_pages f))) /\
   exists b, In b boxes /\ box_page b = ch_page g /\ Detect.rectangles_overlap g b t = true).
Proof.
  intro Hc. destruct boxes as [|b0 bs].
  - injection Hc as <-. simpl. split; [intros [] | intros [_ (b & [] & _)]].
  - rewrite check_text_under_boxes_closed in Hc by discriminate.
    injection Hc as <-. simpl. apply isolated_matches_In.
Qed.

Lemma redacted_chars_characterised_witness :
  let ch := mkPChar (Some "x"%string) (Some 0) (Some 0) (Some 10) (Some 10) in
  let f := mkPdf (Ok []) (Ok [mkPlumberPage (Ok [ch]) (Ok [])]) in
  let g := mkGlyph 0 "x" (mkBBox 0 0 10 10) in
  In g [g] <->
  In g (isolated_glyphs 0 (readable_prefix (plumber_pages f))) /\
  exists b, In b [mkBox 0 (mkBBox 0 0 20 20)] /\ box_page b = ch_page g /\
            Detect.rectangles_overlap g b (1 # 2) = true.
Proof.
  intros ch f g.
  apply (@redacted_chars_characterised f [mkBox 0 (mkBBox 0 0 20 20)] (1 # 2)
           (Detect.mkTextCheck true 1 [g]) g).
  reflexivity.
Defined.

Lemma isolated_matches_same_boxes (boxes boxes' : list box) (t : Q) (pages : list plumber_page) :
  (forall b, In b boxes <-> In b boxes') ->
  forall page_num : nat,
    isolated_matches boxes t page_num pages = isolated_matches boxes' t page_num pages.
Proof.
  intro Hsame. induction pages as [|page rest IH]; intro page_num; simpl.
  - reflexivity.
  - rewrite IH. f_equal.
    apply flat_map_ext. intro char. rewrite !scan_boxes_existsb.
    assert (E : existsb (fun b : box => Detect.rectangles_overlap (Detect.char_bbox char) b t)
                  (filter (fun b => Nat.eqb (box_page b) page_num) boxes) =
                existsb (fun b : box => Detect.rectangles_overlap (Detect.char_bbox char) b t)
                  (filter (fun b => Nat.eqb (box_page b) page_num) boxes')).
    { apply bool_eq_iff. rewrite !existsb_exists.
      split; intros (b & Hb & Ho); exists b; (split; [|exact Ho]);
        apply filter_In in Hb; destruct Hb as [Hb Hp]; apply filter_In;
        (split; [apply Hsame; exact Hb | exact Hp]). }
    rewrite E. reflexivity.
Qed.

(** X9.  The file-level matcher depends only on which boxes there are:
    listing them in another order, or listing a box several times, gives
    the same characters and the same count. *)
Theorem matcher_depends_on_box_set (f : pdf) (boxes boxes' : list box) (t : Q) :
  (forall b, In b boxes <-> In b boxes') ->
  Detect.check_text_under_boxes f boxes t = Detect.check_text_under_boxes f boxes' t.
Proof.
  intro Hsame.
  destruct boxes as [|b bs]; destruct boxes' as [|b' bs'].
  - reflexivity.
  - exfalso. apply (proj2 (Hsame b')). left. reflexivity.
  - exfalso. apply (proj1 (Hsame b)). left. reflexivity.
  - rewrite !check_text_under_boxes_closed by discriminate. cbv zeta.
    rewrite (@isolated_matches_same_boxes _ _ t (readable_prefix (plumber_pages f)) Hsame 0%nat).
    reflexivity.
Qed.

Lemma matcher_depends_on_box_set_witness :
  let ch := mkPChar (Some "x"%string) (Some 0) (Some 0) (Some 10) (Some 10) in
  let f := mkPdf (Ok []) (Ok [mkPlumberPage (Ok [ch]) (Ok [])]) in
  let b1 := mkBox 0 (mkBBox 0 0 20 20) in
  let b2 := mkBox 0 (mkBBox 5 5 6 6) in
  Detect.check_text_under_boxes f [b1; b2] (1 # 2) =
  Detect.check_text_under_boxes f [b2; b1; b2] (1 # 2).
Proof.
  intros ch f b1 b2.
  apply matcher_depends_on_box_set.
  intro b. simpl. tauto.
Defined.

Lemma get_text_positions_closed (f : pdf) :
  FindImproper.get_text_positions f =
  Ok (isolated_glyphs 0 (readable_prefix (plumber_pages f))).
Proof.
  unfold FindImproper.get_text_positions, plumber_pages.
  destruct (plumber_open f) as [pages|e].
  - rewrite text_positions_loop_prefix. reflexivity.
  - reflexivity.
Qed.

(** X10.  Whatever the file-level matcher counts at a threshold of 0.3 or
    more (its default is 0.5) is also recovered by the per-box scan of
    [test_pdf] for the same boxes: each reported character belongs to the
    [box_chars] of some box. *)
Theorem scan_matches_are_recovered
        (f : pdf) (boxes : list box) (t : Q) (tc : Detect.text_check) (g : glyph) :
  (3 # 10) <= t ->
  Detect.check_text_under_boxes f boxes t = Ok tc ->
  In g (Detect.redacted_chars tc) ->
  exists chars b,
    FindImproper.get_text_positions f = Ok chars /\
    In b boxes /\
    In g (FindImproper.box_chars b chars).
Proof.
  intros Ht Hc Hin.
  assert (H : In g (isolated_glyphs 0 (readable_prefix (plumber_pages f))) /\
              exists b, In b boxes /\ box_page b = ch_page g /\
                        Detect.rectangles_overlap g b t = true).
  { destruct boxes as [|b0 bs].
    - injection Hc as <-. contradiction.
    - rewrite check_text_under_boxes_closed in Hc by discriminate.
      injection Hc as <-. simpl in Hin. apply isolated_matches_In in Hin. exact Hin. }
  destruct H as [Hg (b & Hb & Hp & Ho)].
  exists (isolated_glyphs 0 (readable_prefix (plumber_pages f))), b.
  split; [apply get_text_positions_closed|]. split; [exact Hb|].
  unfold FindImproper.box_chars, FindImproper.page_chars.
  apply filter_In. split.
  - apply filter_In. split; [exact Hg|]. apply Nat.eqb_eq. symmetry. exact Hp.
  - apply rectangles_overlap_any in Ho. destruct Ho as [Hpos Hr].
    apply find_boxes_overlap_any. split; [exact Hpos|].
    unfold FindImproper.default_threshold. lra.
Qed.

Lemma scan_matches_are_recovered_witness :
  let ch := mkPChar (Some "x"%string) (Some 0) (Some 0) (Some 10) (Some 10) in
  let f := mkPdf (Ok []) (Ok [mkPlumberPage (Ok [ch]) (Ok [])]) in
  let g := mkGlyph 0 "x" (mkBBox 0 0 10 10) in
  exists chars b,
    FindImproper.get_text_positions f = Ok chars /\
    In b [mkBox 0 (mkBBox 0 0 20 20)] /\
    In g (FindImproper.box_chars b chars).
Proof.
  intros ch f g.
  assert (Ht : (3 # 10) <= (1 # 2)) by (unfold Qle; simpl; lia).
  apply (@scan_matches_are_recovered f [mkBox 0 (mkBBox 0 0 20 20)] (1 # 2)
           (Detect.mkTextCheck true 1 [g]) g Ht).
  - reflexivity.
  - left. reflexivity.
Defined.

(* ===================================================================== *)
(** ** More on the scan verdict                                           *)
(* ===================================================================== *)

(** X11.  In every verdict the fields hang together: [error] is never
    filled (the detector and the matcher swallow their own failures),
    [has_redaction_boxes] and [has_recoverable_text] say that the
    respective count is positive, [should_process] equals
    [has_recoverable_text], and characters are only ever counted for a file
    that has boxes. *)
Theorem verdict_fields_consistent (f : pdf) :
  let r := Detect.analyze_pdf_for_redactions f in
  Detect.error r = None /\
  Detect.has_redaction_boxes r = Nat.ltb 0 (Detect.redaction_box_count r) /\
  Detect.has_recoverable_text r = Nat.ltb 0 (Detect.redacted_char_count r) /\
  Detect.should_process r = Detect.has_recoverable_text r /\
  ((0 < Detect.redacted_char_count r)%nat -> (0 < Detect.redaction_box_count r)%nat).
Proof.
  destruct (detect_black_rectangles_returns f Detect.default_black_threshold) as [boxes Hd].
  cbv zeta. rewrite (analyze_closed f Hd). cbv zeta. simpl.
  destruct boxes as [|b bs].
  - rewrite isolated_matches_no_boxes. simpl. repeat split; lia.
  - simpl. repeat split. lia.
Qed.

Lemma verdict_fields_consistent_witness :
  let ch := mkPChar (Some "x"%string) (Some 0) (Some 0) (Some 10) (Some 10) in
  let f := mkPdf (Ok [mkFitzPage (Ok []) (Ok [mkBlock (Some 1%Z) (Some (mkBBox 0 0 20 20))])])
                 (Ok [mkPlumberPage (Ok [ch]) (Ok [])]) in
  (0 < Detect.redaction_box_count (Detect.analyze_pdf_for_redactions f))%nat.
Proof.
  intros ch f.
  apply (proj2 (proj2 (proj2 (proj2 (verdict_fields_consistent f))))).
  simpl. lia.
Defined.

(** X12.  A file PyMuPDF cannot open is reported like a file without
    redaction boxes, with no error; a file pdfplumber cannot open keeps its
    box count but has no recoverable characters. *)
Theorem unopenable_file_verdict (f : pdf) :
  (forall e, fitz_open f = Raised e ->
             Detect.analyze_pdf_for_redactions f = Detect.initial_result) /\
  (forall e, plumber_open f = Raised e ->
             Detect.redacted_char_count (Detect.analyze_pdf_for_redactions f) = 0%nat /\
             Detect.has_recoverable_text (Detect.analyze_pdf_for_redactions f) = false /\
             Detect.should_process (Detect.analyze_pdf_for_redactions f) = false /\
             Detect.error (Detect.analyze_pdf_for_redactions f) = None).
Proof.
  split.
  - intros e He. unfold Detect.analyze_pdf_for_redactions, Detect.detect_black_rectangles.
    rewrite He. reflexivity.
  - intros e He.
    destruct (detect_black_rectangles_returns f Detect.default_black_threshold) as [boxes Hd].
    rewrite (analyze_closed f Hd). cbv zeta. unfold plumber_pages. rewrite He. simpl.
    rewrite andb_false_r. repeat split.
Qed.

Lemma unopenable_file_verdict_witness :
  Detect.analyze_pdf_for_redactions (mkPdf (Raised "cannot open") (Ok [])) =
    Detect.initial_result /\
  Detect.redacted_char_count
    (Detect.analyze_pdf_for_redactions
       (mkPdf (Ok [mkFitzPage (Ok []) (Ok [mkBlock (Some 1%Z) (Some (mkBBox 0 0 10 10))])])
              (Raised "cannot open"))) = 0%nat.
Proof.
  split.
  - apply (proj1 (unopenable_file_verdict (mkPdf (Raised "cannot open") (Ok [])))
             "cannot open"%string).
    reflexivity.
  - apply (proj2 (unopenable_file_verdict
                    (mkPdf (Ok [mkFitzPage (Ok [])
                                  (Ok [mkBlock (Some 1%Z) (Some (mkBBox 0 0 10 10))])])
                           (Raised "cannot open")))
             "cannot open"%string).
    reflexivity.
Defined.

(* ===================================================================== *)
(** ** More on [test_pdf]                                                 *)
(* ===================================================================== *)

Lemma get_black_boxes_returns (f : pdf) :
  exists boxes, FindImproper.get_black_boxes f = Ok boxes.
Proof.
  unfold FindImproper.get_black_boxes. destruct (fitz_open f); eexists; reflexivity.
Qed.

Lemma area_of_box_nil (chars : list glyph) (b : box) :
  FindImproper.area_of_box chars b = [] <-> FindImproper.box_chars b chars = [].
Proof.
  unfold FindImproper.area_of_box.
  destruct (FindImproper.box_chars b chars); split; intro H;
    try reflexivity; discriminate H.
Qed.

Lemma flat_map_nil {A B : Type} (g : A -> list B) (l : list A) :
  flat_map g l = [] <-> forall x, In x l -> g x = [].
Proof.
  induction l as [|a l IH]; simpl.
  - split; [intros _ x [] | reflexivity].
  - split.
    + intros H x [<-|Hx].
      * apply app_eq_nil in H. apply H.
      * apply app_eq_nil in H. apply IH; [apply H | exact Hx].
    + intro H. rewrite (H a (or_introl eq_refl)). simpl.
      apply IH. intros x Hx. apply H. right. exact Hx.
Qed.

(** X13.  [test_pdf] never raises, and it answers [None] exactly when no
    black box has a character of its page under it (which covers files
    without boxes and files without characters). *)
Theorem test_pdf_none_iff_nothing_under_boxes (f : pdf) :
  exists boxes chars,
    FindImproper.get_black_boxes f = Ok boxes /\
    FindImproper.get_text_positions f = Ok chars /\
    (exists r, FindImproper.test_pdf f = Ok r) /\
    (FindImproper.test_pdf f = Ok None <->
     forall b, In b boxes -> FindImproper.box_chars b chars = []).
Proof.
  destruct (get_black_boxes_returns f) as [boxes Hb].
  exists boxes, (isolated_glyphs 0 (readable_prefix (plumber_pages f))).
  split; [exact Hb|]. split; [apply get_text_positions_closed|].
  unfold FindImproper.test_pdf. rewrite Hb, get_text_positions_closed.
  destruct boxes as [|b0 bs].
  - split; [eexists; reflexivity|]. split; [intros _ b [] | reflexivity].
  - remember (b0 :: bs) as boxes eqn:Eb.
    destruct (isolated_glyphs 0 (readable_prefix (plumber_pages f))) as [|c cs] eqn:Ec.
    + split; [eexists; reflexivity|]. split; [|reflexivity].
      intros _ b _. unfold FindImproper.box_chars, FindImproper.page_chars. reflexivity.
    + remember (c :: cs) as chars eqn:Ech.
      destruct (flat_map (FindImproper.area_of_box chars) boxes) as [|a l] eqn:Ef.
      * split; [eexists; reflexivity|]. split; [|reflexivity].
        intros _ b Hin. apply area_of_box_nil.
        apply (proj1 (flat_map_nil _ _) Ef b Hin).
      * split; [eexists; reflexivity|]. split; [discriminate|].
        intro H. exfalso.
        assert (Hnil : flat_map (FindImproper.area_of_box chars) boxes = []).
        { apply flat_map_nil. intros b Hin. apply area_of_box_nil. apply H. exact Hin. }
        rewrite Hnil in Ef. discriminate Ef.
Qed.

Lemma test_pdf_none_iff_nothing_under_boxes_witness :
  let page := mkFitzPage
                (Ok [mkDrawing (Some "f"%string) (Some (mkBBox 0 0 100 20)) (Some [0; 0; 0])])
                (Ok []) in
  let ch := mkPChar (Some "x"%string) (Some 200) (Some 5) (Some 208) (Some 15) in
  let f := mkPdf (Ok [page]) (Ok [mkPlumberPage (Ok [ch]) (Ok [])]) in
  FindImproper.test_pdf f = Ok None.
Proof.
  intros page ch f.
  destruct (test_pdf_none_iff_nothing_under_boxes f) as (boxes & chars & Hb & Hc & _ & Hiff).
  apply Hiff. intros b Hin.
  injection Hb as <-. injection Hc as <-.
  destruct Hin as [<-|[]]. reflexivity.
Defined.

Lemma firstn_In {A : Type} (n : nat) (l : list A) (x : A) :
  In x (firstn n l) -> In x l.
Proof.
  intro H. rewrite <- (firstn_skipn n l). apply in_or_app. left. exact H.
Qed.

Lemma filter_length_le {A : Type} (p : A -> bool) (l : list A) :
  (List.length (filter p l) <= List.length l)%nat.
Proof.
  induction l as [|a l IH]; simpl; [lia|].
  destruct (p a); simpl; lia.
Qed.

Lemma area_of_box_cases (chars : list glyph) (b : box) :
  FindImproper.area_of_box chars b = [] \/
  exists a, FindImproper.area_of_box chars b = [a] /\
            (1 <= FindImproper.a_char_count a <= List.length chars)%nat.
Proof.
  assert (Hb : (List.length (FindImproper.box_chars b chars) <= List.length chars)%nat).
  { unfold FindImproper.box_chars, FindImproper.page_chars.
    eapply Nat.le_trans; apply filter_length_le. }
  unfold FindImproper.area_of_box.
  destruct (FindImproper.box_chars b chars) as [|g gs] eqn:E.
  - left. reflexivity.
  - right. eexists. split; [reflexivity|]. simpl in *. lia.
Qed.

Lemma areas_bounds (chars : list glyph) (boxes : list box) :
  let areas := flat_map (FindImproper.area_of_box chars) boxes in
  (List.length areas <= List.length boxes)%nat /\
  (List.length areas <= list_sum (map FindImproper.a_char_count areas))%nat /\
  (list_sum (map FindImproper.a_char_count areas)
   <= List.length boxes * List.length chars)%nat /\
  Forall (fun a => (1 <= FindImproper.a_char_count a <= List.length chars)%nat) areas.
Proof.
  induction boxes as [|b bs IH]; cbv zeta.
  - simpl. repeat split; try lia. constructor.
  - cbv zeta in IH. destruct IH as (H1 & H2 & H3 & H4).
    change (flat_map (FindImproper.area_of_box chars) (b :: bs))
      with (FindImproper.area_of_box chars b ++ flat_map (FindImproper.area_of_box chars) bs).
    change (List.length (b :: bs)) with (S (List.length bs)).
    destruct (area_of_box_cases chars b) as [->|(a & -> & Ha)].
    + simpl app. repeat split; try lia. exact H4.
    + simpl app. simpl List.length. simpl map. simpl list_sum.
      repeat split; try lia. constructor; [exact Ha | exact H4].
Qed.

(** X14.  When [test_pdf] returns a report, its numbers are consistent:
    there is at least one recoverable area and at most one per black box,
    every area holds at least one character, [total_chars] is at least the
    number of areas and at most boxes times characters, and [sample_text]
    holds the first areas, five at most. *)
Theorem test_pdf_report_consistent (f : pdf) (r : FindImproper.report) :
  FindImproper.test_pdf f = Ok (Some r) ->
  (1 <= FindImproper.recoverable_areas r <= FindImproper.black_boxes r)%nat /\
  (FindImproper.recoverable_areas r <= FindImproper.total_chars r)%nat /\
  (FindImproper.total_chars r
   <= FindImproper.black_boxes r * total_glyphs f)%nat /\
  List.length (FindImproper.sample_text r) = Nat.min 5 (FindImproper.recoverable_areas r) /\
  Forall (fun a => (1 <= FindImproper.a_char_count a)%nat) (FindImproper.sample_text r).
Proof.
  destruct (get_black_boxes_returns f) as [boxes Hb].
  unfold FindImproper.test_pdf. rewrite Hb, get_text_positions_closed.
  destruct boxes as [|b0 bs]; [discriminate|].
  remember (b0 :: bs) as boxes eqn:Eb.
  destruct (isolated_glyphs 0 (readable_prefix (plumber_pages f))) as [|c cs] eqn:Ec;
    [discriminate|].
  rewrite <- Ec.
  pose proof (areas_bounds (isolated_glyphs 0 (readable_prefix (plumber_pages f))) boxes)
    as (H1 & H2 & H3 & H4).
  pose proof (isolated_glyphs_prefix_length (plumber_pages f) 0) as Hlen.
  fold (total_glyphs f) in Hlen.
  destruct (flat_map (FindImproper.area_of_box
                        (isolated_glyphs 0 (readable_prefix (plumber_pages f)))) boxes)
    as [|a l] eqn:Ef; [discriminate|].
  intro H. injection H as <-.
  cbn [FindImproper.recoverable_areas FindImproper.black_boxes
       FindImproper.total_chars FindImproper.sample_text].
  split; [|split; [|split; [|split]]].
  - split; [simpl; lia | exact H1].
  - exact H2.
  - eapply Nat.le_trans; [exact H3|]. apply Nat.mul_le_mono_l. exact Hlen.
  - exact (length_firstn 5 (a :: l)).
  - apply Forall_forall. intros x Hx.
    assert (Hin : In x (a :: l)) by (apply (@firstn_In _ 5%nat); exact Hx).
    rewrite Forall_forall in H4. apply H4 in Hin. lia.
Qed.

Lemma test_pdf_report_consistent_witness :
  let page := mkFitzPage
                (Ok [mkDrawing (Some "f"%string) (Some (mkBBox 0 0 100 20)) (Some [0; 0; 0])])
                (Ok []) in
  let ch := fun s x => mkPChar (Some s) (Some x) (Some 5) (Some (x + 8)) (Some 15) in
  let f := mkPdf (Ok [page])
                 (Ok [mkPlumberPage (Ok [ch "S"%string 10; ch "E"%string 20]) (Ok [])]) in
  exists r,
    FindImproper.test_pdf f = Ok (Some r) /\
    (1 <= FindImproper.recoverable_areas r <= FindImproper.black_boxes r)%nat /\
    (FindImproper.recoverable_areas r <= FindImproper.total_chars r)%nat.
Proof.
  intros page ch f.
  eexists. split; [vm_compute; reflexivity|].
  split.
  - apply (@test_pdf_report_consistent f _ eq_refl).
  - apply (@test_pdf_report_consistent f _ eq_refl).
Defined.

Lemma string_length_app (s1 s2 : string) :
  String.length (s1 ++ s2) = (String.length s1 + String.length s2)%nat.
Proof.
  induction s1 as [|c s1 IH]; simpl; [reflexivity | rewrite IH; reflexivity].
Qed.

Lemma join_length (l : list string) :
  String.length (join l) = list_sum (map String.length l).
Proof.
  induction l as [|s l IH].
  - reflexivity.
  - rewrite join_cons, string_length_app, IH. reflexivity.
Qed.

(** X15.  When every glyph carries exactly one character, the text
    recovered for a box has as many characters as glyphs matched, so in
    every reported area the length of [text] equals [char_count]. *)
Theorem recovered_text_length_is_char_count (b : box) (chars : list glyph) :
  (forall g, In g chars -> String.length (ch_text g) = 1%nat) ->
  String.length (FindImproper.recovered_text b chars)
    = List.length (FindImproper.box_chars b chars) /\
  (forall a, In a (FindImproper.area_of_box chars b) ->
             String.length (FindImproper.a_text a) = FindImproper.a_char_count a).
Proof.
  intro Hone.
  assert (Hlen : String.length (FindImproper.recovered_text b chars)
                 = List.length (FindImproper.box_chars b chars)).
  { unfold FindImproper.recovered_text. rewrite join_length, map_map.
    assert (Hsub : forall g, In g (FindImproper.box_chars b chars) -> In g chars).
    { intros g Hg. unfold FindImproper.box_chars, FindImproper.page_chars in Hg.
      apply filter_In in Hg. destruct Hg as [Hg _].
      apply filter_In in Hg. apply Hg. }
    induction (FindImproper.box_chars b chars) as [|g gs IH]; simpl.
    - reflexivity.
    - rewrite (Hone g) by (apply Hsub; left; reflexivity).
      rewrite IH; [reflexivity|]. intros g' Hg'. apply Hsub. right. exact Hg'. }
  split; [exact Hlen|].
  intros a Hin. unfold FindImproper.area_of_box in Hin.
  destruct (FindImproper.box_chars b chars) as [|g gs] eqn:E; [contradiction|].
  destruct Hin as [<-|[]]. simpl. rewrite Hlen. reflexivity.
Qed.

Lemma recovered_text_length_is_char_count_witness :
  let b := mkBox 0 (mkBBox 0 0 100 20) in
  let gB := mkGlyph 0 "B" (mkBBox 50 5 60 15) in
  let gA := mkGlyph 0 "A" (mkBBox 10 5 20 15) in
  String.length (FindImproper.recovered_text b [gB; gA])
    = List.length (FindImproper.box_chars b [gB; gA]).
Proof.
  intros b gB gA.
  apply (@recovered_text_length_is_char_count b [gB; gA]).
  intros g [<-|[<-|[]]]; reflexivity.
Defined.

(* ===================================================================== *)
(** ** More on line clustering                                            *)
(* ===================================================================== *)

(** X16.  Line clustering loses nothing and invents nothing: the clusters,
    put end to end, are the words sorted by [(top, x0)] (hence a
    rearrangement of the input), and no cluster is empty. *)
Theorem clusters_partition_the_words (words : list word) (line_tol : Q) :
  List.concat (Extract.group_words_into_lines words line_tol) = sorted Extract.line_key_lt words /\
  Permutation words (List.concat (Extract.group_words_into_lines words line_tol)) /\
  Forall (fun cl : list word => cl <> []) (Extract.group_words_into_lines words line_tol).
Proof.
  assert (H : List.concat (Extract.group_words_into_lines words line_tol)
              = sorted Extract.line_key_lt words /\
              Forall (fun cl : list word => cl <> [])
                     (Extract.group_words_into_lines words line_tol)).
  { destruct (sorted Extract.line_key_lt words) as [|w rest] eqn:Hs.
    - destruct words as [|w0 ws].
      + split; [reflexivity | constructor].
      + exfalso. pose proof (sorted_length Extract.line_key_lt (w0 :: ws)) as Hl.
        rewrite Hs in Hl. discriminate Hl.
    - rewrite (@group_words_sorted_walk words line_tol w rest Hs). split.
      + apply cluster_walk_concat.
      + apply cluster_walk_nonempty. discriminate. }
  destruct H as [Hc Hne]. split; [exact Hc|]. split; [|exact Hne].
  rewrite Hc. apply sorted_perm.
Qed.

(** X17.  With a negative tolerance no word ever joins a cluster: every
    word is a line of its own. *)
Theorem negative_tolerance_splits_every_word (words : list word) (line_tol : Q) :
  line_tol < 0 ->
  Extract.group_words_into_lines words line_tol =
  map (fun w => [w]) (sorted Extract.line_key_lt words).
Proof.
  intro Hneg.
  assert (Hwalk : forall ws c, cluster_walk line_tol c ws = c :: map (fun w => [w]) ws).
  { induction ws as [|w rest IH]; intro c.
    - reflexivity.
    - rewrite cluster_walk_cons.
      assert (E : Qle_bool (Qabs (Extract.top_of w - running_average c)) line_tol = false).
      { apply Qle_bool_gt.
        pose proof (Qabs_nonneg (Extract.top_of w - running_average c)). lra. }
      rewrite E, IH. reflexivity. }
  destruct (sorted Extract.line_key_lt words) as [|w rest] eqn:Hs.
  - destruct words as [|w0 ws]; [reflexivity|].
    exfalso. pose proof (sorted_length Extract.line_key_lt (w0 :: ws)) as Hl.
    rewrite Hs in Hl. discriminate Hl.
  - rewrite (@group_words_sorted_walk words line_tol w rest Hs), Hwalk. reflexivity.
Qed.

Lemma negative_tolerance_splits_every_word_witness :
  let a := mkWord (Some "a"%string) (Some 0) (Some 5) (Some 100) None None in
  let b := mkWord (Some "b"%string) (Some 6) (Some 9) (Some 100) None None in
  Extract.group_words_into_lines [b; a] (- (1)) = [[a]; [b]].
Proof.
  intros a b.
  apply (@negative_tolerance_splits_every_word [b; a] (- (1))).
  reflexivity.
Defined.

(* ===================================================================== *)
(** ** More on line rebuilding                                            *)
(* ===================================================================== *)

Lemma build_line_text_ok (cluster : list word) (space_unit_pts : Q) (min_spaces : Z) :
  cluster <> [] ->
  exists first rest top_med,
    sorted Extract.x0_lt cluster = first :: rest /\
    Extract.middle (sorted Qltb (map Extract.top_of (first :: rest))) = Some top_med /\
    Extract.build_line_text cluster space_unit_pts min_spaces =
    Ok (Extract.mkLineInfo
          (join (Extract.parts
                   (fold_left (Extract.spacing_step space_unit_pts min_spaces) rest
                      (Extract.mkSpacing [Extract.text_of first] (Extract.x1_of first)
                                         (Extract.x1_of first)))))
          (Extract.x0_of first)
          (Extract.last_x1
             (fold_left (Extract.spacing_step space_unit_pts min_spaces) rest
                (Extract.mkSpacing [Extract.text_of first] (Extract.x1_of first)
                                   (Extract.x1_of first))))
          top_med
          (Extract.font_size_of (first :: rest))).
Proof.
  intro Hne.
  destruct (sorted Extract.x0_lt cluster) as [|first rest] eqn:Hs.
  - exfalso. pose proof (sorted_length Extract.x0_lt cluster) as Hl.
    rewrite Hs in Hl. destruct cluster; [congruence | discriminate Hl].
  - destruct (@middle_nonempty (sorted Qltb (map Extract.top_of (first :: rest))))
      as [q Hq].
    { intro H.
      pose proof (sorted_length Qltb (map Extract.top_of (first :: rest))) as Hl.
      rewrite H in Hl. discriminate Hl. }
    exists first, rest, q. split; [reflexivity|]. split; [exact Hq|].
    unfold Extract.build_line_text. cbv zeta. rewrite Hs, Hq. reflexivity.
Qed.

Lemma lines_loop_ok (space_unit_pts : Q) (min_spaces : Z) (lws : list (list word)) :
  Forall (fun cl : list word => cl <> []) lws ->
  forall out : list Extract.line,
    exists out',
      Extract.lines_loop lws space_unit_pts min_spaces out = Ok out' /\
      (Forall (fun ln => Extract.strip_nonempty (Extract.l_text ln) = true) out ->
       Forall (fun ln => Extract.strip_nonempty (Extract.l_text ln) = true) out') /\
      (List.length out' <= List.length out + List.length lws)%nat.
Proof.
  induction 1 as [|lw rest Hlw Hrest IH]; intro out.
  - exists out. split; [reflexivity|]. split; [intro H; exact H | simpl; lia].
  - destruct (build_line_text_ok space_unit_pts min_spaces Hlw)
      as (first & others & top_med & _ & _ & Hb).
    cbn [Extract.lines_loop]. rewrite Hb.
    match goal with
    | |- context [Extract.lines_loop rest _ _ ?o] => destruct (IH o) as (out' & Hok & Hnb & Hlen)
    end.
    exists out'. split; [exact Hok|]. split.
    + intro Hout. apply Hnb.
      destruct (Extract.strip_nonempty _) eqn:E; [|exact Hout].
      apply Forall_app. split; [exact Hout|]. constructor; [exact E | constructor].
    + destruct (Extract.strip_nonempty _); [rewrite length_app in Hlen|]; simpl in *; lia.
Qed.

Lemma clusters_count (lws : list (list word)) :
  Forall (fun cl : list word => cl <> []) lws ->
  (List.length lws <= List.length (List.concat lws))%nat.
Proof.
  induction 1 as [|cl rest Hcl Hrest IH]; simpl.
  - lia.
  - rewrite length_app. destruct cl; [congruence | simpl; lia].
Qed.

(** X19.  Rebuilding the lines of a page never raises: [build_line_text]
    raises on an empty cluster, and the clustering never hands it one.
    Every line returned has a text that is not blank, and there are at
    most as many lines as words. *)
Theorem page_lines_never_raises
        (words : list word) (line_tol space_unit_pts : Q) (min_spaces : Z) :
  Extract.build_line_text [] space_unit_pts min_spaces = Raised "list index out of range" /\
  exists out,
    Extract.page_lines words line_tol space_unit_pts min_spaces = Ok out /\
    Forall (fun ln => Extract.strip_nonempty (Extract.l_text ln) = true) out /\
    (List.length out <= List.length words)%nat.
Proof.
  split; [reflexivity|].
  assert (Hparts : List.concat (Extract.group_words_into_lines words line_tol)
                   = sorted Extract.line_key_lt words /\
                   Forall (fun cl : list word => cl <> [])
                          (Extract.group_words_into_lines words line_tol)).
  { destruct (sorted Extract.line_key_lt words) as [|w rest] eqn:Hs.
    - destruct words as [|w0 ws].
      + split; [reflexivity | constructor].
      + exfalso. pose proof (sorted_length Extract.line_key_lt (w0 :: ws)) as Hl.
        rewrite Hs in Hl. discriminate Hl.
    - rewrite (@group_words_sorted_walk words line_tol w rest Hs). split.
      + apply cluster_walk_concat.
      + apply cluster_walk_nonempty. discriminate. }
  destruct Hparts as [Hc Hne].
  destruct (lines_loop_ok space_unit_pts min_spaces Hne []) as (out & Hok & Hnb & Hlen).
  exists out. split; [exact Hok|]. split; [apply Hnb; constructor|].
  pose proof (clusters_count Hne) as Hcount.
  rewrite Hc, sorted_length in Hcount. simpl in Hlen. lia.
Qed.

Lemma x0_le_iff (a b : word) :
  Extract.x0_lt b a = false <-> Extract.x0_of a <= Extract.x0_of b.
Proof.
  unfold Extract.x0_lt. apply Qltb_ge.
Qed.

Lemma x0_lt_asym (a b : word) : Extract.x0_lt a b = true -> Extract.x0_lt b a = false.
Proof.
  unfold Extract.x0_lt. intro H. apply Qltb_lt in H. apply Qltb_ge. lra.
Qed.

(** The head of the cluster sorted by [x0] is its leftmost word. *)
Lemma sorted_x0_head (cluster : list word) (first : word) (rest : list word) :
  sorted Extract.x0_lt cluster = first :: rest ->
  forall w, In w cluster -> Extract.x0_of first <= Extract.x0_of w.
Proof.
  intros Hs w Hw.
  assert (Hss : StronglySorted (fun a b => Extract.x0_lt b a = false)
                               (sorted Extract.x0_lt cluster)).
  { apply Sorted_StronglySorted.
    - intros a b c Hab Hbc. apply x0_le_iff in Hab, Hbc. apply x0_le_iff. lra.
    - apply sorted_ordered. apply x0_lt_asym. }
  rewrite Hs in Hss. inversion Hss as [|? ? _ Hall]; subst.
  assert (Hin : In w (first :: rest)).
  { rewrite <- Hs. apply (Permutation_in _ (sorted_perm Extract.x0_lt cluster)). exact Hw. }
  destruct Hin as [<-|Hin]; [apply Qle_refl|].
  rewrite Forall_forall in Hall. apply x0_le_iff. apply Hall. exact Hin.
Qed.

(** [last_x1] after the loop is the reach of the whole cluster. *)
Lemma spacing_fold_last (space_unit_pts : Q) (min_spaces : Z) (first : word)
      (todo : list word) :
  forall (done : list word) (st : Extract.spacing),
    Extract.last_x1 st = reach first done ->
    Extract.last_x1 (fold_left (Extract.spacing_step space_unit_pts min_spaces) todo st)
    = reach first (done ++ todo).
Proof.
  induction todo as [|w todo IH]; intros done st Hlast.
  - rewrite app_nil_r. exact Hlast.
  - change (fold_left (Extract.spacing_step space_unit_pts min_spaces) (w :: todo) st)
      with (fold_left (Extract.spacing_step space_unit_pts min_spaces) todo
              (Extract.spacing_step space_unit_pts min_spaces st w)).
    rewrite (IH (done ++ [w])).
    + rewrite <- app_assoc. reflexivity.
    + unfold Extract.spacing_step. cbn [Extract.last_x1].
      rewrite reach_snoc, Hlast. reflexivity.
Qed.

(** X20.  The box reported for a rebuilt line encloses its words
    horizontally: [x0] is the smallest [x0] and [x1] the largest [x1] of
    the cluster; and [top] is the top of one of its words. *)
Theorem line_extent_covers_words
        (cluster : list word) (space_unit_pts : Q) (min_spaces : Z) (li : Extract.line_info) :
  Extract.build_line_text cluster space_unit_pts min_spaces = Ok li ->
  (forall w, In w cluster ->
             Extract.li_x0 li <= Extract.x0_of w /\ Extract.x1_of w <= Extract.li_x1 li) /\
  (exists w, In w cluster /\ Extract.li_x0 li = Extract.x0_of w) /\
  (exists w, In w cluster /\ Extract.li_x1 li = Extract.x1_of w) /\
  (exists w, In w cluster /\ Extract.li_top li = Extract.top_of w).
Proof.
  intro Hb.
  assert (Hne : cluster <> []) by (intro H; subst cluster; discriminate Hb).
  destruct (build_line_text_ok space_unit_pts min_spaces Hne)
    as (first & rest & top_med & Hs & Hmid & Hb').
  rewrite Hb' in Hb. injection Hb as <-.
  cbn [Extract.li_x0 Extract.li_x1 Extract.li_top].
  rewrite (@spacing_fold_last space_unit_pts min_spaces first rest []
             (Extract.mkSpacing [Extract.text_of first] (Extract.x1_of first)
                                (Extract.x1_of first)) eq_refl).
  simpl app.
  assert (Hmem : forall w, In w (first :: rest) <-> In w cluster).
  { intro w. rewrite <- Hs. split; intro H.
    - apply (Permutation_in _ (Permutation_sym (sorted_perm Extract.x0_lt cluster))).
      exact H.
    - apply (Permutation_in _ (sorted_perm Extract.x0_lt cluster)). exact H. }
  destruct (reach_is_maximum first rest) as [Hub (wm & Hwm & Hreach)].
  split; [|split; [|split]].
  - intros w Hw. split.
    + apply (sorted_x0_head _ Hs). exact Hw.
    + apply Hub. apply Hmem. exact Hw.
  - exists first. split; [apply Hmem; left; reflexivity | reflexivity].
  - exists wm. split; [apply Hmem; exact Hwm | exact Hreach].
  - unfold Extract.middle in Hmid. apply nth_error_In in Hmid.
    apply (Permutation_in _ (Permutation_sym
                               (sorted_perm Qltb (map Extract.top_of (first :: rest)))))
      in Hmid.
    apply in_map_iff in Hmid. destruct Hmid as (w & Hw & Hin).
    exists w. split; [apply Hmem; exact Hin | symmetry; exact Hw].
Qed.

Lemma line_extent_covers_words_witness :
  let A := mkWord (Some "A"%string) (Some 0) (Some 100) (Some 0) None None in
  let B := mkWord (Some "B"%string) (Some 10) (Some 20) (Some 0) None None in
  0 <= Extract.x0_of B /\ Extract.x1_of B <= 100.
Proof.
  intros A B.
  apply (proj1 (@line_extent_covers_words [B; A] 3 1%Z
                  (Extract.mkLineInfo "AB" 0 100 0 10) eq_refl) B).
  left. reflexivity.
Defined.

(** [round] stays within one half of its argument. *)
Lemma py_round_bounds (x : Q) :
  x - (1 # 2) <= inject_Z (py_round x) <= x + (1 # 2).
Proof.
  unfold py_round.
  pose proof (Qfloor_le x) as Hlo.
  pose proof (Qlt_floor x) as Hhi.
  rewrite inject_Z_plus in Hhi.
  change (inject_Z 1) with 1 in Hhi.
  destruct (Qltb (x - inject_Z (Qfloor x)) (1 # 2)) eqn:E1.
  - apply Qltb_lt in E1. lra.
  - apply Qltb_ge in E1.
    destruct (Qltb (1 # 2) (x - inject_Z (Qfloor x))) eqn:E2.
    + rewrite inject_Z_plus. change (inject_Z 1) with 1. lra.
    + apply Qltb_ge in E2. destruct (Z.even (Qfloor x)).
      * lra.
      * rewrite inject_Z_plus. change (inject_Z 1) with 1. lra.
Qed.

Lemma repeat_string_length (n : nat) : String.length (repeat_string " " n) = n.
Proof.
  induction n as [|n IH]; simpl; [reflexivity | rewrite IH; reflexivity].
Qed.

Lemma py_max_half_lower (s : Q) : (1 # 2) <= py_max (1 # 2) s.
Proof.
  destruct (py_max_cases (1 # 2) s) as [[H ->]|[H ->]]; lra.
Qed.

(** X21.  The number of spaces put in front of a word is under control
    for every [space_unit_pts], zero and negative values included (the
    divisor is at least 0.5): for a positive gap it is at least
    [min_spaces] and at most the larger of [min_spaces] and [2 * gap + 1/2];
    for any other gap it is at most one. *)
Theorem separator_length_bounded (space_unit_pts : Q) (min_spaces : Z) (gap : Q) :
  (0 < gap ->
   (Z.to_nat min_spaces <= String.length (Extract.separator space_unit_pts min_spaces gap))%nat /\
   inject_Z (Z.of_nat (String.length (Extract.separator space_unit_pts min_spaces gap)))
     <= Qmax (inject_Z min_spaces) (2 * gap + (1 # 2))) /\
  (gap <= 0 ->
   (String.length (Extract.separator space_unit_pts min_spaces gap) <= 1)%nat).
Proof.
  unfold Extract.separator. split.
  - intro Hgap.
    assert (E : Qltb 0 gap = true) by (apply Qltb_lt; exact Hgap).
    rewrite E. cbv zeta. unfold str_mul. rewrite repeat_string_length.
    set (n := py_round (gap / py_max (1 # 2) space_unit_pts)).
    split; [lia|].
    pose proof (py_max_half_lower space_unit_pts) as Hd.
    pose proof (py_round_bounds (gap / py_max (1 # 2) space_unit_pts)) as [_ Hr].
    fold n in Hr.
    assert (Hq : gap / py_max (1 # 2) space_unit_pts <= 2 * gap).
    { apply Qle_shift_div_r; [lra|].
      assert (H0 : 0 <= gap * (py_max (1 # 2) space_unit_pts - (1 # 2))).
      { apply Qmult_le_0_compat; lra. }
      lra. }
    assert (Hn : inject_Z n <= 2 * gap + (1 # 2)) by lra.
    assert (Hnat : Z.of_nat (Z.to_nat (Z.max min_spaces n)) = Z.max 0 (Z.max min_spaces n))
      by lia.
    rewrite Hnat.
    assert (Hcases : inject_Z (Z.max 0 (Z.max min_spaces n)) == 0 \/
                     inject_Z (Z.max 0 (Z.max min_spaces n)) == inject_Z min_spaces \/
                     inject_Z (Z.max 0 (Z.max min_spaces n)) == inject_Z n).
    { destruct (Z.max_spec 0 (Z.max min_spaces n)) as [[_ ->]|[_ ->]];
        [|left; reflexivity].
      destruct (Z.max_spec min_spaces n) as [[_ ->]|[_ ->]];
        [right; right | right; left]; reflexivity. }
    destruct (Q.max_spec (inject_Z min_spaces) (2 * gap + (1 # 2))) as [[Hlt Hm]|[Hle Hm]];
      rewrite Hm; destruct Hcases as [Hc|[Hc|Hc]]; rewrite Hc; lra.
  - intro Hgap.
    assert (E : Qltb 0 gap = false) by (apply Qltb_ge; exact Hgap).
    rewrite E. destruct (Qltb (- space_unit_pts * (3 # 10)) gap); simpl; lia.
Qed.

Lemma separator_length_bounded_witness :
  (Z.to_nat 1 <= String.length (Extract.separator 0 1 10))%nat /\
  (String.length (Extract.separator 3 1 (- (5))) <= 1)%nat.
Proof.
  split.
  - apply (proj1 (separator_length_bounded 0 1 10)). reflexivity.
  - apply (proj2 (separator_length_bounded 3 1 (- (5)))). unfold Qle. simpl. lia.
Defined.

Lemma middle_In (l : list Q) (q : Q) : Extract.middle l = Some q -> In q l.
Proof.
  unfold Extract.middle. apply nth_error_In.
Qed.

Lemma height_of_floor (w : word) : 6 <= Extract.height_of w.
Proof.
  unfold Extract.height_of. cbv zeta.
  match goal with
  | |- 6 <= py_max 6 ?h => destruct (py_max_cases 6 h) as [[H ->]|[H ->]]
  end; lra.
Qed.

(** X22.  The font size of a rebuilt line: when some word carries a
    [size], it is one of those sizes; when none does, it is the height of
    one of the words, never below the floor of 6 points. *)
Theorem font_size_estimate
        (cluster : list word) (space_unit_pts : Q) (min_spaces : Z) (li : Extract.line_info) :
  Extract.build_line_text cluster space_unit_pts min_spaces = Ok li ->
  (Extract.sizes_of cluster <> [] ->
   In (Extract.li_font_size li) (Extract.sizes_of cluster)) /\
  (Extract.sizes_of cluster = [] ->
   6 <= Extract.li_font_size li /\
   exists w, In w cluster /\ Extract.li_font_size li = Extract.height_of w).
Proof.
  intro Hb.
  assert (Hne : cluster <> []) by (intro H; subst cluster; discriminate Hb).
  destruct (build_line_text_ok space_unit_pts min_spaces Hne)
    as (first & rest & top_med & Hs & _ & Hb').
  rewrite Hb' in Hb. injection Hb as <-. cbn [Extract.li_font_size].
  pose proof (sorted_perm Extract.x0_lt cluster) as Hperm. rewrite Hs in Hperm.
  assert (Hsizes : Permutation (Extract.sizes_of cluster) (Extract.sizes_of (first :: rest))).
  { unfold Extract.sizes_of. apply Permutation_flat_map. exact Hperm. }
  unfold Extract.font_size_of.
  destruct (Extract.sizes_of (first :: rest)) as [|sz szs] eqn:Esz.
  - split.
    + intro Hn. exfalso. apply Hn. apply Permutation_nil.
      apply Permutation_sym. exact Hsizes.
    + intros _.
      destruct (sorted Qltb (map Extract.height_of (first :: rest))) as [|h hs] eqn:Eh.
      * exfalso. pose proof (sorted_length Qltb (map Extract.height_of (first :: rest))) as Hl.
        rewrite Eh in Hl. discriminate Hl.
      * destruct (@middle_nonempty (h :: hs)) as [q Hq]; [discriminate|].
        rewrite Hq. cbn [get].
        apply middle_In in Hq. rewrite <- Eh in Hq.
        apply (Permutation_in _ (Permutation_sym
                 (sorted_perm Qltb (map Extract.height_of (first :: rest))))) in Hq.
        apply in_map_iff in Hq. destruct Hq as (w & <- & Hw).
        split; [apply height_of_floor|].
        exists w. split; [|reflexivity].
        apply (Permutation_in _ (Permutation_sym Hperm)). exact Hw.
  - split.
    + intros _.
      destruct (@middle_nonempty (sorted Qltb (sz :: szs))) as [q Hq].
      { intro H. pose proof (sorted_length Qltb (sz :: szs)) as Hl.
        rewrite H in Hl. discriminate Hl. }
      rewrite Hq. cbn [get].
      apply middle_In in Hq.
      apply (Permutation_in _ (Permutation_sym (sorted_perm Qltb (sz :: szs)))) in Hq.
      apply (Permutation_in _ (Permutation_sym Hsizes)). exact Hq.
    + intro Hn. exfalso. rewrite Hn in Hsizes.
      apply Permutation_nil in Hsizes. discriminate Hsizes.
Qed.

Lemma font_size_estimate_witness :
  let a := mkWord (Some "a"%string) (Some 0) (Some 5) (Some 100) (Some 103) None in
  exists li,
    Extract.build_line_text [a] 3 1 = Ok li /\ 6 <= Extract.li_font_size li.
Proof.
  intro a.
  exists (Extract.mkLineInfo "a" 0 5 100 6). split; [reflexivity|].
  apply (proj2 (@font_size_estimate [a] 3 1%Z (Extract.mkLineInfo "a" 0 5 100 6) eq_refl)).
  reflexivity.
Defined.

(* ===================================================================== *)
(** ** The report and the highlights                                      *)
(* ===================================================================== *)

Lemma verdict_flags (f : pdf) :
  Detect.should_process (Detect.analyze_pdf_for_redactions f)
    = Detect.has_recoverable_text (Detect.analyze_pdf_for_redactions f) /\
  (Detect.has_recoverable_text (Detect.analyze_pdf_for_redactions f) = true ->
   Detect.has_redaction_boxes (Detect.analyze_pdf_for_redactions f) = true).
Proof.
  destruct (detect_black_rectangles_returns f Detect.default_black_threshold) as [boxes Hd].
  rewrite (analyze_closed f Hd). cbv zeta. simpl.
  split; [reflexivity|]. intro H. apply andb_true_iff in H. apply H.
Qed.

Lemma count_where_le_length (key : Detect.analysis -> bool) (l : list Detect.analysis) :
  (Scan.count_where key l <= List.length l)%nat.
Proof.
  unfold Scan.count_where. induction l as [|r l IH]; simpl; [lia|].
  destruct (key r); lia.
Qed.

Lemma count_where_mono (p q : Detect.analysis -> bool) (l : list Detect.analysis) :
  Forall (fun r => p r = true -> q r = true) l ->
  (Scan.count_where p l <= Scan.count_where q l)%nat.
Proof.
  unfold Scan.count_where. induction 1 as [|r l Hr Hl IH]; simpl; [lia|].
  destruct (p r) eqn:Ep.
  - rewrite (Hr eq_refl). lia.
  - destruct (q r); lia.
Qed.

Lemma count_where_ext (p q : Detect.analysis -> bool) (l : list Detect.analysis) :
  Forall (fun r => p r = q r) l -> Scan.count_where p l = Scan.count_where q l.
Proof.
  unfold Scan.count_where. induction 1 as [|r l Hr Hl IH]; simpl; [reflexivity|].
  rewrite Hr, IH. reflexivity.
Qed.

Lemma count_where_filter (p : Detect.analysis -> bool) (l : list Detect.analysis) :
  List.length (filter p l) = Scan.count_where p l.
Proof.
  unfold Scan.count_where. induction l as [|r l IH]; simpl; [reflexivity|].
  destruct (p r); simpl; rewrite IH; reflexivity.
Qed.

(** X23.  In the report written for a batch of files the four counters
    are ordered: every file is counted, the files to process are exactly
    the files with recoverable text, and those are among the files with
    redaction boxes; [process_redacted_pdfs] goes through exactly
    [files_to_process] files. *)
Theorem report_counters_ordered (pdf_files : list pdf) :
  let results := Scan.scan_files pdf_files in
  let r := Scan.save_analysis_report results in
  Scan.total_files r = List.length pdf_files /\
  Scan.files_to_process r = Scan.files_with_recoverable_text r /\
  (Scan.files_with_recoverable_text r <= Scan.files_with_redaction_boxes r)%nat /\
  (Scan.files_with_redaction_boxes r <= Scan.total_files r)%nat /\
  List.length (Scan.to_process results) = Scan.files_to_process r.
Proof.
  cbv zeta. unfold Scan.save_analysis_report, Scan.scan_files, Scan.to_process.
  cbn [Scan.total_files Scan.files_to_process Scan.files_with_recoverable_text
       Scan.files_with_redaction_boxes].
  split; [apply length_map|]. split; [|split; [|split]].
  - apply count_where_ext. apply Forall_forall. intros r Hr.
    apply in_map_iff in Hr. destruct Hr as (f & <- & _). apply verdict_flags.
  - apply count_where_mono. apply Forall_forall. intros r Hr.
    apply in_map_iff in Hr. destruct Hr as (f & <- & _). apply verdict_flags.
  - apply count_where_le_length.
  - apply count_where_filter.
Qed.

Lemma dict_get_append (page_num i : nat) (coords : bbox) (d : list (nat * list bbox)) :
  Scan.dict_get i (Scan.dict_append page_num coords d) =
  if Nat.eqb page_num i
  then Some (match Scan.dict_get i d with Some v => v | None => [] end ++ [coords])
  else Scan.dict_get i d.
Proof.
  induction d as [|[k v] d IH]; simpl.
  - destruct (Nat.eqb page_num i); reflexivity.
  - destruct (Nat.eqb k page_num) eqn:Ek; simpl.
    + apply Nat.eqb_eq in Ek. subst k.
      destruct (Nat.eqb page_num i); reflexivity.
    + destruct (Nat.eqb k i) eqn:Eki.
      * apply Nat.eqb_eq in Eki. subst k.
        rewrite Nat.eqb_sym in Ek. rewrite Ek. reflexivity.
      * exact IH.
Qed.

Lemma boxes_by_page_get (boxes : list box) (i : nat) :
  forall d : list (nat * list bbox),
    match Scan.dict_get i
            (fold_left (fun d b => Scan.dict_append (box_page b) (box_rect b) d) boxes d)
    with Some v => v | None => [] end =
    match Scan.dict_get i d with Some v => v | None => [] end
      ++ map box_rect (filter (fun b => Nat.eqb (box_page b) i) boxes).
Proof.
  induction boxes as [|b bs IH]; intro d; simpl.
  - symmetry. apply app_nil_r.
  - rewrite IH, dict_get_append.
    destruct (Nat.eqb (box_page b) i); simpl.
    + rewrite <- app_assoc. reflexivity.
    + reflexivity.
Qed.

Lemma highlight_boxes_ok (add_highlight : nat -> bbox -> outcome unit) (page_num : nat)
      (coords : list bbox) :
  (forall c, In c coords -> add_highlight page_num c = Ok tt) ->
  Scan.highlight_boxes add_highlight page_num coords = Ok coords.
Proof.
  induction coords as [|c rest IH]; intro Hok; simpl.
  - reflexivity.
  - rewrite (Hok c (or_introl eq_refl)).
    rewrite IH; [reflexivity|].
    intros c' Hc'. apply Hok. right. exact Hc'.
Qed.

Lemma highlight_boxes_raises (add_highlight : nat -> bbox -> outcome unit) (page_num : nat)
      (coords : list bbox) (c : bbox) (e : string) :
  In c coords -> add_highlight page_num c = Raised e ->
  exists e', Scan.highlight_boxes add_highlight page_num coords = Raised e'.
Proof.
  induction coords as [|c0 rest IH]; intros Hin Hr; simpl.
  - destruct Hin.
  - destruct (add_highlight page_num c0) as [u|e0] eqn:E0.
    + destruct Hin as [->|Hin]; [congruence|].
      destruct (IH Hin Hr) as [e' He']. rewrite He'. exists e'. reflexivity.
    + exists e0. reflexivity.
Qed.

Lemma highlight_pages_ok (add_highlight : nat -> bbox -> outcome unit)
      (by_page : list (nat * list bbox)) (page_nums : list nat) :
  (forall p c, In p page_nums ->
               In c (match Scan.dict_get p by_page with Some v => v | None => [] end) ->
               add_highlight p c = Ok tt) ->
  Scan.highlight_pages add_highlight by_page page_nums =
  Ok (map (fun p => match Scan.dict_get p by_page with Some v => v | None => [] end)
          page_nums).
Proof.
  induction page_nums as [|p rest IH]; intro Hok; simpl.
  - reflexivity.
  - rewrite highlight_boxes_ok.
    + rewrite IH; [reflexivity|].
      intros p' c Hp' Hc. apply Hok; [right; exact Hp' | exact Hc].
    + intros c Hc. apply Hok; [left; reflexivity | exact Hc].
Qed.

Lemma highlight_pages_raises (add_highlight : nat -> bbox -> outcome unit)
      (by_page : list (nat * list bbox)) (page_nums : list nat) (p : nat) (c : bbox)
      (e : string) :
  In p page_nums ->
  In c (match Scan.dict_get p by_page with Some v => v | None => [] end) ->
  add_highlight p c = Raised e ->
  exists e', Scan.highlight_pages add_highlight by_page page_nums = Raised e'.
Proof.
  induction page_nums as [|p0 rest IH]; intros Hp Hc Hr; simpl.
  - destruct Hp.
  - destruct (Scan.highlight_boxes add_highlight p0
                (match Scan.dict_get p0 by_page with Some v => v | None => [] end))
      as [done|e0] eqn:E0.
    + destruct Hp as [->|Hp].
      * destruct (highlight_boxes_raises add_highlight p _ c Hc Hr) as [e' He'].
        congruence.
      * destruct (IH Hp Hc Hr) as [e' He']. rewrite He'. exists e'. reflexivity.
    + exists e0. reflexivity.
Qed.

(** The rects filed under a page are those of the boxes of that page, in
    the order of the boxes. *)
Lemma boxes_of_page (boxes : list box) (i : nat) :
  match Scan.dict_get i (Scan.boxes_by_page boxes) with Some v => v | None => [] end =
  map box_rect (filter (fun b => Nat.eqb (box_page b) i) boxes).
Proof.
  unfold Scan.boxes_by_page. rewrite boxes_by_page_get. reflexivity.
Qed.

Lemma highlights_closed (add_highlight : nat -> bbox -> outcome unit) (f : pdf)
      (boxes : list box) (pages : list fitz_page) :
  fitz_open f = Ok pages ->
  (forall b, In b boxes -> (box_page b < List.length pages)%nat ->
             add_highlight (box_page b) (box_rect b) = Ok tt) ->
  Scan.create_highlighted_output add_highlight (Ok tt) f boxes =
  Ok (map (fun i => map box_rect (filter (fun b => Nat.eqb (box_page b) i) boxes))
          (seq 0 (List.length pages))).
Proof.
  intros Ho Hok. unfold Scan.create_highlighted_output. rewrite Ho. cbv zeta.
  rewrite highlight_pages_ok.
  - f_equal. apply map_ext. intro i. apply boxes_of_page.
  - intros p c Hp Hc. rewrite boxes_of_page in Hc.
    apply in_map_iff in Hc. destruct Hc as (b & <- & Hb).
    apply filter_In in Hb. destruct Hb as [Hb Hpage].
    apply Nat.eqb_eq in Hpage. subst p.
    apply Hok; [exact Hb|]. apply in_seq in Hp. lia.
Qed.

Lemma highlights_raise (add_highlight : nat -> bbox -> outcome unit) (save : outcome unit)
      (f : pdf) (boxes : list box) (pages : list fitz_page) (b : box) (e : string) :
  fitz_open f = Ok pages ->
  In b boxes -> (box_page b < List.length pages)%nat ->
  add_highlight (box_page b) (box_rect b) = Raised e ->
  exists e', Scan.create_highlighted_output add_highlight save f boxes = Raised e'.
Proof.
  intros Ho Hb Hpage Hr. unfold Scan.create_highlighted_output. rewrite Ho. cbv zeta.
  destruct (@highlight_pages_raises add_highlight (Scan.boxes_by_page boxes)
              (seq 0 (List.length pages)) (box_page b) (box_rect b) e) as [e' He'].
  - apply in_seq. lia.
  - rewrite boxes_of_page. apply in_map. apply filter_In. split; [exact Hb|].
    apply Nat.eqb_refl.
  - exact Hr.
  - rewrite He'. exists e'. reflexivity.
Qed.

Lemma filter_page_split (boxes : list box) (n : nat) :
  (List.length (filter (fun b => Nat.ltb (box_page b) (S n)) boxes) =
   List.length (filter (fun b => Nat.ltb (box_page b) n) boxes)
   + List.length (filter (fun b => Nat.eqb (box_page b) n) boxes))%nat.
Proof.
  induction boxes as [|b bs IH]; cbn [filter]; [reflexivity|].
  destruct (Nat.ltb_spec (box_page b) (S n));
  destruct (Nat.ltb_spec (box_page b) n);
  destruct (Nat.eqb_spec (box_page b) n); cbn [List.length]; lia.
Qed.

Lemma highlights_count (boxes : list box) (n : nat) :
  List.length
    (List.concat
       (map (fun i => map box_rect (filter (fun b => Nat.eqb (box_page b) i) boxes))
            (seq 0 n)))
  = List.length (filter (fun b => Nat.ltb (box_page b) n) boxes).
Proof.
  induction n as [|n IH].
  - simpl. induction boxes as [|b bs IHb]; simpl; [reflexivity | exact IHb].
  - rewrite seq_S, map_app, concat_app, length_app, IH, filter_page_split.
    simpl. rewrite app_nil_r, length_map. reflexivity.
Qed.

Lemma filter_all {A : Type} (p : A -> bool) (l : list A) :
  Forall (fun x => p x = true) l -> filter p l = l.
Proof.
  induction 1 as [|x l Hx Hl IH]; simpl; [reflexivity|].
  rewrite Hx, IH. reflexivity.
Qed.

(** X24.  [create_highlighted_output] guards none of its PyMuPDF calls.
    When every highlight on a page of the document can be drawn and the
    output can be saved, it draws, on every page, the boxes of that page in
    the order they were detected, and nothing else; fed with the boxes
    [detect_black_rectangles] found in the same file, that is exactly one
    highlight per box.  As soon as one highlight cannot be drawn (PyMuPDF
    refuses an empty rect, and the detector does return such boxes), or the
    output cannot be saved, the call raises and nothing is produced. *)
Theorem one_highlight_per_detected_box
        (add_highlight : nat -> bbox -> outcome unit) (save : outcome unit)
        (f : pdf) (thr : Q) (boxes : list box) (pages : list fitz_page) :
  fitz_open f = Ok pages ->
  ((forall b, In b boxes -> (box_page b < List.length pages)%nat ->
              add_highlight (box_page b) (box_rect b) = Ok tt) ->
   save = Ok tt ->
   exists hl,
     Scan.create_highlighted_output add_highlight save f boxes = Ok hl /\
     List.length hl = List.length pages /\
     (forall i, (i < List.length pages)%nat ->
                nth_error hl i =
                Some (map box_rect (filter (fun b => Nat.eqb (box_page b) i) boxes))) /\
     (Detect.detect_black_rectangles f thr = Ok boxes ->
      List.length (List.concat hl) = List.length boxes)) /\
  (forall b e, In b boxes -> (box_page b < List.length pages)%nat ->
               add_highlight (box_page b) (box_rect b) = Raised e ->
               exists e', Scan.create_highlighted_output add_highlight save f boxes
                          = Raised e') /\
  (forall e, save = Raised e ->
             exists e', Scan.create_highlighted_output add_highlight save f boxes
                        = Raised e').
Proof.
  intro Ho. split; [|split].
  - intros Hok Hsave. subst save.
    rewrite (@highlights_closed add_highlight f boxes pages Ho Hok).
    eexists. split; [reflexivity|]. split; [|split].
    + rewrite length_map, length_seq. reflexivity.
    + intros i Hi.
      rewrite nth_error_map, nth_error_seq.
      apply Nat.ltb_lt in Hi. rewrite Hi. reflexivity.
    + intro Hd. rewrite highlights_count. f_equal. apply filter_all.
      apply Forall_forall. intros b Hb. apply Nat.ltb_lt.
      unfold Detect.detect_black_rectangles in Hd. rewrite Ho in Hd. injection Hd as <-.
      apply rectangles_loop_origin in Hb.
      destruct Hb as [[]|(k & page & Hnth & Hpage & _)].
      simpl in Hpage. subst k. apply nth_error_Some. rewrite Hnth. discriminate.
  - intros b e Hb Hpage Hr.
    exact (@highlights_raise add_highlight save f boxes pages b e Ho Hb Hpage Hr).
  - intros e Hsave. subst save.
    unfold Scan.create_highlighted_output. rewrite Ho. cbv zeta.
    destruct (Scan.highlight_pages add_highlight (Scan.boxes_by_page boxes)
                (seq 0 (List.length pages))) as [hl|e0].
    + exists e. reflexivity.
    + exists e0. reflexivity.
Qed.

Lemma one_highlight_per_detected_box_witness :
  let add_highlight := fun (_ : nat) (r : bbox) =>
    if Qltb (bx0 r) (bx1 r) && Qltb (by0 r) (by1 r)
    then Ok tt else Raised "bad quads entry"%string in
  let page := mkFitzPage (Ok []) (Ok [mkBlock (Some 1%Z) (Some (mkBBox 0 0 100 20))]) in
  let f := mkPdf (Ok [page; page]) (Ok []) in
  (exists hl,
     Scan.create_highlighted_output add_highlight (Ok tt) f
       [mkBox 0 (mkBBox 0 0 100 20); mkBox 1 (mkBBox 0 0 100 20)] = Ok hl /\
     List.length hl = 2%nat) /\
  (exists e',
     Scan.create_highlighted_output add_highlight (Ok tt) f
       [mkBox 0 (mkBBox 0 0 100 20); mkBox 1 (mkBBox 10 50 60 50)] = Raised e').
Proof.
  intros add_highlight page f. split.
  - destruct (@one_highlight_per_detected_box add_highlight (Ok tt) f
                Detect.default_black_threshold
                [mkBox 0 (mkBBox 0 0 100 20); mkBox 1 (mkBBox 0 0 100 20)]
                [page; page] eq_refl) as [Hdraw _].
    destruct Hdraw as (hl & H1 & H2 & _).
    + intros b [<-|[<-|[]]] _; reflexivity.
    + reflexivity.
    + exists hl. split; [exact H1 | exact H2].
  - destruct (@one_highlight_per_detected_box add_highlight (Ok tt) f
                Detect.default_black_threshold
                [mkBox 0 (mkBBox 0 0 100 20); mkBox 1 (mkBBox 10 50 60 50)]
                [page; page] eq_refl) as (_ & Hraise & _).
    apply (Hraise (mkBox 1 (mkBBox 10 50 60 50)) "bad quads entry"%string).
    + right. left. reflexivity.
    + simpl. lia.
    + reflexivity.
Defined.

(* ===================================================================== *)
(** ** The quick test against [test_pdf]                                  *)
(* ===================================================================== *)

Lemma overlaps_are_char_counts (chars : list glyph) (boxes : list box) :
  flat_map (RandomSample.overlap_of_box chars) boxes =
  map FindImproper.a_char_count (flat_map (FindImproper.area_of_box chars) boxes).
Proof.
  induction boxes as [|b bs IH]; simpl; [reflexivity|].
  rewrite map_app, IH. f_equal.
  unfold RandomSample.overlap_of_box, FindImproper.area_of_box.
  destruct (FindImproper.box_chars b chars); reflexivity.
Qed.

(** X25.  [test_pdf_quick] and [test_pdf] give the same answer on every
    file: the quick test flags improper redactions exactly when [test_pdf]
    returns a report, and then its numbers are those of the report; it
    never fills [error]. *)
Theorem quick_test_agrees_with_test_pdf (f : pdf) :
  let q := RandomSample.test_pdf_quick f in
  RandomSample.error q = None /\
  (RandomSample.has_improper_redactions q = false <-> FindImproper.test_pdf f = Ok None) /\
  (RandomSample.has_improper_redactions q = true <->
   exists r, FindImproper.test_pdf f = Ok (Some r)) /\
  (forall r, FindImproper.test_pdf f = Ok (Some r) ->
             RandomSample.black_boxes q = FindImproper.black_boxes r /\
             RandomSample.boxes_with_text q = FindImproper.recoverable_areas r /\
             RandomSample.recoverable_chars q = FindImproper.total_chars r).
Proof.
  destruct (get_black_boxes_returns f) as [boxes Hb].
  cbv zeta. unfold RandomSample.test_pdf_quick, FindImproper.test_pdf.
  rewrite Hb, get_text_positions_closed.
  destruct boxes as [|b0 bs].
  - cbn. split; [reflexivity|]. split; [split; reflexivity|].
    split; [split; [discriminate | intros [r Hr]; discriminate Hr]|].
    intros r Hr. discriminate Hr.
  - remember (b0 :: bs) as boxes eqn:Eb.
    destruct (isolated_glyphs 0 (readable_prefix (plumber_pages f))) as [|c cs] eqn:Ec.
    + cbn. split; [reflexivity|]. split; [split; reflexivity|].
      split; [split; [discriminate | intros [r Hr]; discriminate Hr]|].
      intros r Hr. discriminate Hr.
    + remember (c :: cs) as chars eqn:Ech.
      cbv zeta. rewrite overlaps_are_char_counts.
      destruct (flat_map (FindImproper.area_of_box chars) boxes) as [|a l] eqn:Ef.
      * cbn. split; [reflexivity|]. split; [split; reflexivity|].
        split; [split; [discriminate | intros [r Hr]; discriminate Hr]|].
        intros r Hr. discriminate Hr.
      * cbn [RandomSample.error RandomSample.has_improper_redactions
             RandomSample.black_boxes RandomSample.boxes_with_text
             RandomSample.recoverable_chars].
        rewrite length_map.
        split; [reflexivity|]. split; [split; discriminate|].
        split; [split; [intros _; eexists; reflexivity | reflexivity]|].
        intros r Hr. injection Hr as <-. repeat split.
Qed.

Lemma quick_test_agrees_with_test_pdf_witness :
  let page := mkFitzPage
                (Ok [mkDrawing (Some "f"%string) (Some (mkBBox 0 0 100 20)) (Some [0; 0; 0])])
                (Ok []) in
  let ch := mkPChar (Some "x"%string) (Some 10) (Some 5) (Some 18) (Some 15) in
  let f := mkPdf (Ok [page]) (Ok [mkPlumberPage (Ok [ch]) (Ok [])]) in
  RandomSample.has_improper_redactions (RandomSample.test_pdf_quick f) = true /\
  RandomSample.recoverable_chars (RandomSample.test_pdf_quick f) = 1%nat.
Proof.
  intros page ch f.
  destruct (quick_test_agrees_with_test_pdf f) as (_ & _ & Hiff & Hnum).
  split.
  - apply Hiff. eexists. vm_compute. reflexivity.
  - destruct (Hnum (FindImproper.mkReport 1 1 1 [FindImproper.mkArea 0 "x" 1])) as (_ & _ & H).
    + vm_compute. reflexivity.
    + exact H.
Defined.

(* ===================================================================== *)
(** ** All the pages of a file                                            *)
(* ===================================================================== *)



Lemma list_set_none {A : Type} (l : list A) :
  forall (i : nat) (v : A), Pages.list_set l i v = None <-> (List.length l <= i)%nat.
Proof.
  induction l as [|x l IH]; intros i v.
  - simpl. split; [lia | reflexivity].
  - destruct i as [|i]; simpl.
    + split; [discriminate | lia].
    + destruct (Pages.list_set l i v) as [l''|] eqn:E.
      * split; [discriminate|]. intro H. exfalso.
        assert (Hn : Pages.list_set l i v = None) by (apply IH; lia). congruence.
      * split; [|reflexivity]. intros _. apply IH in E. lia.
Qed.

Lemma list_set_comm {A : Type} (l : list A) :
  forall (i j : nat) (a b : A),
    i <> j ->
    match Pages.list_set l i a with Some l1 => Pages.list_set l1 j b | None => None end =
    match Pages.list_set l j b with Some l2 => Pages.list_set l2 i a | None => None end.
Proof.
  induction l as [|x l IH]; intros i j a b Hij.
  - reflexivity.
  - destruct i as [|i]; destruct j as [|j]; try congruence; simpl.
    + destruct (Pages.list_set l j b); reflexivity.
    + destruct (Pages.list_set l i a); reflexivity.
    + assert (Hij' : i <> j) by congruence.
      specialize (IH i j a b Hij').
      destruct (Pages.list_set l i a) as [l1|] eqn:E1;
      destruct (Pages.list_set l j b) as [l2|] eqn:E2; simpl.
      * destruct (Pages.list_set l1 j b); destruct (Pages.list_set l2 i a);
          congruence.
      * rewrite IH. reflexivity.
      * rewrite <- IH. reflexivity.
      * reflexivity.
Qed.

Lemma reassemble_raises (results : list (nat * list Extract.line)) :
  forall pages_lines e,
    Pages.reassemble results pages_lines = Raised e ->
    e = "list assignment index out of range"%string.
Proof.
  induction results as [|[i ls] rest IH]; intros pl e H; simpl in H.
  - discriminate H.
  - destruct (Pages.list_set pl i (Some ls)) as [pl'|]; [apply (IH _ _ H)|].
    injection H as <-. reflexivity.
Qed.

(** X26.  Filling [pages_lines] does not depend on the order in which the
    results of the pages arrive, as long as no page number comes twice. *)
Theorem reassembly_order_independent
        (results results' : list (nat * list Extract.line))
        (pages_lines : list (option (list Extract.line))) :
  Permutation results results' ->
  NoDup (map fst results) ->
  Pages.reassemble results pages_lines = Pages.reassemble results' pages_lines.
Proof.
  intro Hperm. revert pages_lines.
  induction Hperm as [|[i ls] l l' Hp IH|[i ls] [j ls'] l|l l' l'' Hp1 IH1 Hp2 IH2];
    intros pl Hnd.
  - reflexivity.
  - simpl. simpl in Hnd. inversion Hnd; subst.
    destruct (Pages.list_set pl i (Some ls)); [apply IH; assumption | reflexivity].
  - simpl in Hnd.
    assert (Hij : j <> i).
    { inversion Hnd as [|? ? Hnot _]; subst. intro H. apply Hnot. left. symmetry. exact H. }
    simpl.
    pose proof (list_set_comm pl (Some ls') (Some ls) Hij) as Hc.
    destruct (Pages.list_set pl j (Some ls')) as [l1|] eqn:E1;
    destruct (Pages.list_set pl i (Some ls)) as [l2|] eqn:E2.
    + destruct (Pages.list_set l1 i (Some ls)) as [l3|];
      destruct (Pages.list_set l2 j (Some ls')) as [l4|]; try discriminate Hc.
      * injection Hc as <-. reflexivity.
      * reflexivity.
    + rewrite Hc. reflexivity.
    + rewrite <- Hc. reflexivity.
    + reflexivity.
  - rewrite IH1 by exact Hnd. apply IH2.
    apply (Permutation_NoDup (Permutation_map fst Hp1)). exact Hnd.
Qed.

Lemma reassembly_order_independent_witness :
  let ln := Extract.mkLine "x" 0 0 10 in
  Pages.reassemble [(0%nat, [ln]); (1%nat, [])] [None; None] =
  Pages.reassemble [(1%nat, []); (0%nat, [ln])] [None; None].
Proof.
  intro ln.
  apply reassembly_order_independent.
  - apply perm_swap.
  - simpl. constructor.
    + intros [H|[]]. discriminate H.
    + constructor; [intros [] | constructor].
Defined.







(* ===================================================================== *)
(** ** The selectability scan                                             *)
(* ===================================================================== *)

Lemma substring_prefix_length (s : string) :
  forall n : nat, String.length (substring 0 n s) = Nat.min n (String.length s).
Proof.
  induction s as [|c s IH]; intro n.
  - destruct n; reflexivity.
  - destruct n as [|n]; simpl; [reflexivity|]. rewrite IH. reflexivity.
Qed.

(** X28.  In every result of [test_text_selectability] the fields hang
    together: [has_text_layer] says that [total_chars] is positive,
    [should_process] is the conjunction of [has_text_layer] and
    [has_black_elements], the sample holds the first 200 characters at
    most, and a result with an [error] is never marked for processing and
    never reports black elements. *)
Theorem selectability_fields_consistent
        (texts : outcome (list (outcome (option string)))) (f : pdf) :
  let r := Selectable.test_text_selectability texts f in
  Selectable.has_text_layer r = Nat.ltb 0 (Selectable.total_chars r) /\
  Selectable.should_process r
    = Selectable.has_text_layer r && Selectable.has_black_elements r /\
  String.length (Selectable.text_sample r) = Nat.min 200 (Selectable.total_chars r) /\
  (Selectable.error r <> None ->
   Selectable.should_process r = false /\ Selectable.has_black_elements r = false).
Proof.
  cbv zeta. unfold Selectable.test_text_selectability.
  destruct texts as [pages|e].
  - destruct (Selectable.text_loop pages "") as [all_text|e].
    + cbv zeta.
      destruct (fitz_open f) as [doc|e].
      * destruct (Selectable.black_loop doc) as [has_black|e];
          cbn [Selectable.has_text_layer Selectable.total_chars Selectable.should_process
               Selectable.has_black_elements Selectable.text_sample Selectable.error].
        -- split; [reflexivity|]. split; [reflexivity|].
           split; [apply substring_prefix_length|]. intro H. congruence.
        -- split; [reflexivity|]. split; [rewrite andb_false_r; reflexivity|].
           split; [apply substring_prefix_length|]. intros _. split; reflexivity.
      * cbn [Selectable.has_text_layer Selectable.total_chars Selectable.should_process
             Selectable.has_black_elements Selectable.text_sample Selectable.error].
        split; [reflexivity|]. split; [rewrite andb_false_r; reflexivity|].
        split; [apply substring_prefix_length|]. intros _. split; reflexivity.
    + cbn. repeat split.
  - cbn. repeat split.
Qed.

Lemma selectability_fields_consistent_witness :
  let r := Selectable.test_text_selectability
             (Ok [Ok (Some "text"%string)]) (mkPdf (Raised "cannot open") (Ok [])) in
  Selectable.total_chars r = 4%nat /\
  Selectable.should_process r = false /\ Selectable.has_black_elements r = false.
Proof.
  intro r. split; [reflexivity|].
  apply (selectability_fields_consistent
           (Ok [Ok (Some "text"%string)]) (mkPdf (Raised "cannot open") (Ok []))).
  discriminate.
Defined.

Lemma black_boxes_loop_dark (pages : list fitz_page) :
  forall (page_num : nat) (acc : list box),
    (List.length acc
     < List.length (snd (FindImproper.black_boxes_loop page_num pages acc)))%nat ->
    Selectable.black_loop pages = Ok true.
Proof.
  induction pages as [|page rest IH]; intros page_num acc H; simpl in H.
  - lia.
  - simpl. destruct (get_drawings page) as [drawings|e]; [|simpl in H; lia].
    destruct (existsb (fun d => dark_fill (d_fill d) (2 # 10)) drawings) eqn:E;
      [reflexivity|].
    assert (Hnone : flat_map (FindImproper.box_of_drawing page_num) drawings = []).
    { apply flat_map_nil. intros d Hd. unfold FindImproper.box_of_drawing.
      assert (Hdark : dark_fill (d_fill d) (2 # 10) = false).
      { destruct (dark_fill (d_fill d) (2 # 10)) eqn:Ed; [|reflexivity].
        assert (Ht : existsb (fun d => dark_fill (d_fill d) (2 # 10)) drawings = true)
          by (apply existsb_exists; exists d; split; assumption).
        congruence. }
      rewrite Hdark, andb_false_r. reflexivity. }
    rewrite Hnone, app_nil_r in H. apply (IH _ _ H).
Qed.

(** X29.  Every file in which [get_black_boxes] finds a box is reported
    with [has_black_elements] by [test_text_selectability], provided its
    text layer could be read. *)
Theorem black_boxes_imply_black_elements
        (texts : outcome (list (outcome (option string)))) (f : pdf)
        (pages : list (outcome (option string))) (all_text : string) (b : box) (bs : list box) :
  texts = Ok pages ->
  Selectable.text_loop pages "" = Ok all_text ->
  FindImproper.get_black_boxes f = Ok (b :: bs) ->
  Selectable.has_black_elements (Selectable.test_text_selectability texts f) = true /\
  Selectable.error (Selectable.test_text_selectability texts f) = None.
Proof.
  intros Ht Hl Hb. subst texts.
  unfold Selectable.test_text_selectability. rewrite Hl. cbv zeta.
  unfold FindImproper.get_black_boxes in Hb.
  destruct (fitz_open f) as [doc|e]; [|discriminate Hb].
  injection Hb as Hb.
  rewrite (@black_boxes_loop_dark doc 0 []); [split; reflexivity|].
  rewrite Hb. simpl. lia.
Qed.

Lemma black_boxes_imply_black_elements_witness :
  let page := mkFitzPage
                (Ok [mkDrawing (Some "s"%string) (Some (mkBBox 0 0 50 50)) (Some [0; 0; 0])])
                (Ok []) in
  let f := mkPdf (Ok [page]) (Ok []) in
  Selectable.has_black_elements
    (Selectable.test_text_selectability (Ok [Ok (Some "text"%string)]) f) = true.
Proof.
  intros page f.
  apply (@black_boxes_imply_black_elements (Ok [Ok (Some "text"%string)]) f
           [Ok (Some "text"%string)] "text" (mkBox 0 (mkBBox 0 0 50 50)) []
           eq_refl eq_refl eq_refl).
Defined.
